(** * Workflow synchronisation with Git hosting providers (tracecat)

    A shallow embedding of
    - [tracecat/git/constants.py] and [tracecat/git/types.py]
      (the Git URL model and its two regular expressions),
    - [tracecat/workflow/store/sync.py] (the sync orchestrator and the
      GitHub / GitLab adapters),
    - [tracecat/vcs/gitlab/service.py] (the GitLab credential store),
    together with the properties of the specification that are stated
    about them.

    Python [str] is modelled as [string]; characters are the 8-bit
    characters of [ascii]. *)

From Stdlib Require Import ZArith Lia Ascii DecimalString.
From stdpp Require Import base strings list gmap sorting.


(** ** Text helpers *)

Abbreviation chars := String.list_ascii_of_string.
Abbreviation text := String.string_of_list_ascii.

(** ** A backtracking matcher for the fragment of Python's [re] syntax
    that the two URL patterns use. *)

Module Re.

Inductive regex : Type :=
| Lit (l : string)                  (* literal text *)
| NotIn (cs : list ascii)           (* [^...] *)
| Digit                             (* \d , the digits 0-9 *)
| Seq (r1 r2 : regex)               (* r1 r2 *)
| Opt (r : regex)                   (* (?:r)? , greedy *)
| Plus (r : regex)                  (* r+ , greedy *)
| PlusLazy (r : regex)              (* r+? , lazy *)
| Group (g : string) (r : regex)    (* (?P<g>r) *)
| Eol.                              (* $ *)

(** Named groups that took part in the match, most recent first. *)
Definition env := list (string * list ascii).

Fixpoint group (g : string) (e : env) : option (list ascii) :=
  match e with
  | [] => None
  | (g', v) :: e' => if String.eqb g g' then Some v else group g e'
  end.

Definition cont := list ascii -> env -> option env.

Definition mem (c : ascii) (cs : list ascii) : bool :=
  existsb (Ascii.eqb c) cs.

(** [\d] on the 8-bit characters of this model: the digits [0] to [9].
    Python's [\d] in a [str] pattern also takes the decimal digits of
    other scripts, which these characters cannot write; the model and
    [re] agree on texts of ASCII characters. *)
Definition is_digit (c : ascii) : bool :=
  ((48 <=? nat_of_ascii c) && (nat_of_ascii c <=? 57))%nat.

Fixpoint strip_prefix (p s : list ascii) : option (list ascii) :=
  match p, s with
  | [], _ => Some s
  | a :: p', b :: s' => if Ascii.eqb a b then strip_prefix p' s' else None
  | _ :: _, [] => None
  end.

Definition orelse (a b : option env) : option env :=
  match a with Some x => Some x | None => b end.

(** One more iteration of the repeated expression, only after an
    iteration that consumed input. *)
Definition again (n : nat) (s s' : list ascii)
    (loop : nat -> option env) : option env :=
  match n with
  | O => None
  | S n' => if (length s' <? length s)%nat then loop n' else None
  end.

(** [r+]: as many iterations as possible first. *)
Fixpoint plus_greedy (step : list ascii -> env -> cont -> option env)
    (n : nat) (s : list ascii) (e : env) (k : cont) : option env :=
  step s e (fun s' e' =>
    orelse (again n s s' (fun n' => plus_greedy step n' s' e' k)) (k s' e')).

(** [r+?]: as few iterations as possible first. *)
Fixpoint plus_lazy (step : list ascii -> env -> cont -> option env)
    (n : nat) (s : list ascii) (e : env) (k : cont) : option env :=
  step s e (fun s' e' =>
    orelse (k s' e') (again n s s' (fun n' => plus_lazy step n' s' e' k))).

Definition newline : ascii := "010"%char.

Fixpoint mtch (r : regex) (s : list ascii) (e : env) (k : cont)
    {struct r} : option env :=
  match r with
  | Lit l =>
      match strip_prefix (chars l) s with
      | Some s' => k s' e
      | None => None
      end
  | NotIn cs =>
      match s with
      | c :: s' => if mem c cs then None else k s' e
      | [] => None
      end
  | Digit =>
      match s with
      | c :: s' => if is_digit c then k s' e else None
      | [] => None
      end
  | Seq r1 r2 => mtch r1 s e (fun s' e' => mtch r2 s' e' k)
  | Opt r' => orelse (mtch r' s e k) (k s e)
  | Plus r' => plus_greedy (mtch r') (length s) s e k
  | PlusLazy r' => plus_lazy (mtch r') (length s) s e k
  | Group g r' =>
      mtch r' s e (fun s' e' =>
        k s' ((g, take (length s - length s') s) :: e'))
  | Eol =>
      match s with
      | [] => k s e
      | [c] => if Ascii.eqb c newline then k s e else None
      | _ => None
      end
  end.

(** The input ends, or goes on with a character outside the class. *)
Definition stops (p : ascii -> bool) (rest : list ascii) : Prop :=
  match rest with [] => True | c :: _ => p c = false end.

(** [pattern.match(string)]: anchored at the start, the groups of the
    first match in backtracking order. *)
Definition accept : cont := fun _ e => Some e.

Definition re_match (r : regex) (s : string) : option env :=
  mtch r (chars s) [] accept.

End Re.

(** ** tracecat/git/constants.py *)

Import Re.

(** The pieces of the two patterns, which differ in their first literal
    only. *)

(** [(?P<host>[^/:]+)] *)
Definition host_pattern : regex :=
  Group "host" (Plus (NotIn ["/"; ":"]%char)).

(** [(?::(?P<port>\d+))?] *)
Definition port_pattern : regex :=
  Opt (Seq (Lit ":") (Group "port" (Plus Digit))).

(** One path segment, lazily: [[^/@]+?] *)
Definition segment_pattern : regex := PlusLazy (NotIn ["/"; "@"]%char).

(** [[^/@]+?(?:/[^/@]+?)+?] *)
Definition path_pattern : regex :=
  Seq segment_pattern (PlusLazy (Seq (Lit "/") segment_pattern)).

(** [(?:@(?P<ref>[^/@]+))?] *)
Definition reference_pattern : regex :=
  Opt (Seq (Lit "@") (Group "ref" (Plus (NotIn ["/"; "@"]%char)))).

(** [(?:\.git)?(?:@(?P<ref>[^/@]+))?$] *)
Definition suffix_pattern : regex :=
  Seq (Opt (Lit ".git")) (Seq reference_pattern Eol).

Definition git_url_regex (prefix : string) : regex :=
  Seq (Lit prefix)
 (Seq host_pattern
 (Seq port_pattern
 (Seq (Lit "/")
 (Seq (Group "path" path_pattern)
      suffix_pattern)))).

Definition GIT_SSH_URL_REGEX : regex := git_url_regex "git+ssh://git@".
Definition GIT_HTTPS_URL_REGEX : regex := git_url_regex "https://".

(** ** tracecat/git/types.py *)

Inductive GitScheme := SSH | HTTPS.

Record GitUrl := mkGitUrl {
  host : string;
  org : string;
  repo : string;
  ref : option string;
  scheme : GitScheme
}.

(** Python truthiness of [str | None]. *)
Definition truthy (o : option string) : bool :=
  match o with
  | Some (String _ _) => true
  | _ => false
  end.

Definition to_url (u : GitUrl) : string :=
  let base :=
    match scheme u with
    | HTTPS => "https://" +:+ host u +:+ "/" +:+ org u +:+ "/" +:+ repo u +:+ ".git"
    | SSH => "git+ssh://git@" +:+ host u +:+ "/" +:+ org u +:+ "/" +:+ repo u +:+ ".git"
    end in
  match ref u with
  | Some r => if truthy (ref u) then base +:+ "@" +:+ r else base
  | None => base
  end.

(** Split at the last occurrence of [c]. *)
Fixpoint rsplit (c : ascii) (s : list ascii) : option (list ascii * list ascii) :=
  match s with
  | [] => None
  | x :: t =>
      match rsplit c t with
      | Some (a, b) => Some (x :: a, b)
      | None => if Ascii.eqb x c then Some ([], t) else None
      end
  end.

(** Modelled from the spec: the URL parser ([parse_git_url], module
    [tracecat.git.utils]) is not among the sources.  The spec gives it
    as: match one of the two patterns into host, optional port, path
    and optional ref; the last path segment is [repo], everything
    before it is [org]; the canonical form writes the port after the
    host, [host[:port]], and [GitUrl] has no port field, so the port
    stays attached to [host]; no match is a [ParseError] ([None]). *)
Definition git_url_of_match (sch : GitScheme) (e : env) : option GitUrl :=
  match group "host" e, group "path" e with
  | Some h, Some p =>
      match rsplit "/"%char p with
      | Some (o, r) =>
          Some {| host := match group "port" e with
                          | Some n => text h +:+ ":" +:+ text n
                          | None => text h
                          end;
                  org := text o;
                  repo := text r;
                  ref := option_map text (group "ref" e);
                  scheme := sch |}
      | None => None
      end
  | _, _ => None
  end.

Definition parse_git_url (url : string) : option GitUrl :=
  match re_match GIT_SSH_URL_REGEX url with
  | Some e => git_url_of_match SSH e
  | None =>
      match re_match GIT_HTTPS_URL_REGEX url with
      | Some e => git_url_of_match HTTPS e
      | None => None
      end
  end.

(** *** Well-formed Git URLs

    The values the two patterns are written for: a host name without
    [/] and [:], optionally followed by [:] and a decimal port; an
    organisation of one or more segments separated by [/]; a
    repository of one segment; a ref of one segment or none.  A segment
    is not empty and has neither [/] nor [@]. *)

(** [s.split(c)] *)
Fixpoint split_on (c : ascii) (s : list ascii) : list (list ascii) :=
  match s with
  | [] => [[]]
  | x :: t =>
      if Ascii.eqb x c then [] :: split_on c t
      else match split_on c t with
           | g :: gs => (x :: g) :: gs
           | [] => [[x]]
           end
  end.

Definition nonempty (s : list ascii) : bool :=
  match s with [] => false | _ :: _ => true end.

Definition segment_char (c : ascii) : bool := negb (mem c ["/"; "@"]%char).

Definition host_char (c : ascii) : bool := negb (mem c ["/"; ":"]%char).

Definition not_at (c : ascii) : bool := negb (Ascii.eqb "@" c).

Definition wf_segment (g : list ascii) : bool :=
  nonempty g && forallb segment_char g.

Definition wf_host_name (g : list ascii) : bool :=
  nonempty g && forallb host_char g.

Definition wf_port (g : list ascii) : bool :=
  nonempty g && forallb is_digit g.

Definition wf_host (h : list ascii) : bool :=
  match split_on ":"%char h with
  | [name] => wf_host_name name
  | [name; port] => wf_host_name name && wf_port port
  | _ => false
  end.

Definition wf_git_url (u : GitUrl) : bool :=
  wf_host (chars (host u))
  && forallb wf_segment (split_on "/"%char (chars (org u)))
  && wf_segment (chars (repo u))
  && match ref u with
     | Some r => wf_segment (chars r)
     | None => true
     end.

(** ** Python values used by the services *)

Definition str_of_nat (n : nat) : string :=
  NilZero.string_of_uint (Nat.to_uint n).

Definition str_of_Z (z : Z) : string :=
  NilZero.string_of_int (Z.to_int z).

(** [str.lower] on the letters A-Z. *)
Definition lower_char (c : ascii) : ascii :=
  let n := nat_of_ascii c in
  if ((65 <=? n) && (n <=? 90))%nat then ascii_of_nat (n + 32) else c.

Fixpoint lower (s : string) : string :=
  match s with
  | EmptyString => EmptyString
  | String c t => String (lower_char c) (lower t)
  end.

(** [needle in hay] *)
Fixpoint contains (needle hay : string) : bool :=
  String.prefix needle hay
  || match hay with
     | EmptyString => false
     | String _ t => contains needle t
     end.

(** [x or d] on [str | None] *)
Definition or_else (x : option string) (d : string) : string :=
  if truthy x then default d x else d.

(** Exception classes that the services raise, catch or let through.
    [GithubException] and [GitlabError] are the classes of the two
    client libraries, [GitHubAppError] and [GitLabError] those of the
    services; [ValidationError] (pydantic) is a subclass of
    [ValueError]; [OtherError] is any other subclass of [Exception]. *)
Inductive exn : Type :=
| GithubException (status : Z) (data : string)
| GitlabError (msg : string)
| GitHubAppError (msg : string)
| GitLabError (msg : string)
| TracecatNotFoundError (msg : string)
| ValueError (msg : string)
| ValidationError (msg : string)
| YAMLError (msg : string)
| AttributeError (msg : string)
| OtherError (msg : string).

(** [str(e)] *)
Definition exn_str (e : exn) : string :=
  match e with
  | GithubException st d => str_of_Z st +:+ " " +:+ d
  | GitlabError m | GitHubAppError m | GitLabError m
  | TracecatNotFoundError m | ValueError m | ValidationError m
  | YAMLError m | AttributeError m | OtherError m => m
  end.

Definition is_GithubException (e : exn) : bool :=
  match e with GithubException _ _ => true | _ => false end.
Definition is_GitlabError (e : exn) : bool :=
  match e with GitlabError _ => true | _ => false end.
Definition is_GitHubAppError (e : exn) : bool :=
  match e with GitHubAppError _ => true | _ => false end.
Definition is_GitLabError (e : exn) : bool :=
  match e with GitLabError _ => true | _ => false end.
Definition is_ValueError (e : exn) : bool :=
  match e with ValueError _ | ValidationError _ => true | _ => false end.
Definition is_ValidationError (e : exn) : bool :=
  match e with ValidationError _ => true | _ => false end.
Definition is_YAMLError (e : exn) : bool :=
  match e with YAMLError _ => true | _ => false end.

(** The outcome of a call: a value or a raised exception. *)
Inductive res (A : Type) : Type :=
| Ok (a : A)
| Raise (e : exn).
Arguments Ok {A} a.
Arguments Raise {A} e.

Definition is_ok {A} (r : res A) : bool :=
  match r with Ok _ => true | Raise _ => false end.

(** What a service does to the outside: calls to its collaborators
    (provider clients, secret store, import service, database) and log
    records. *)
Inductive event : Type :=
| Call (name : string) (args : list string)
| Log (level : string) (msg : string).

Definition is_call (ev : event) : bool :=
  match ev with Call _ _ => true | Log _ _ => false end.

(** ** A state and exception monad

    [W] is the state of the outside world (repositories, secret store,
    database); a computation threads it together with the trace of
    events. *)
Module Eff.
Section Eff.
Context {W : Type}.

Record state : Type := mkState { world : W; trace : list event }.

Definition M (A : Type) : Type := state -> res A * state.

Definition ret {A} (a : A) : M A := fun st => (Ok a, st).

Definition raise {A} (e : exn) : M A := fun st => (Raise e, st).

Definition bind {A B} (m : M A) (f : A -> M B) : M B :=
  fun st =>
    match m st with
    | (Ok a, st') => f a st'
    | (Raise e, st') => (Raise e, st')
    end.

Definition emit (ev : event) : M unit :=
  fun st => (Ok tt, mkState (world st) (trace st ++ [ev])).

(** A call to a collaborator: recorded, then answered by the world. *)
Definition call {A} (name : string) (args : list string)
    (f : W -> res A * W) : M A :=
  fun st =>
    let '(r, w') := f (world st) in
    (r, mkState w' (trace st ++ [Call name args])).

(** [try: m except <classes>: h]; [h e = None] when no clause
    matches [e], which then propagates. *)
Definition try_except {A} (m : M A) (h : exn -> option (M A)) : M A :=
  fun st =>
    match m st with
    | (Ok a, st') => (Ok a, st')
    | (Raise e, st') =>
        match h e with
        | Some k => k st'
        | None => (Raise e, st')
        end
    end.

(** [try: m finally: f] for a clean-up [f] that does not raise. *)
Definition try_finally {A} (m : M A) (f : M unit) : M A :=
  fun st =>
    match m st with
    | (r, st') => (r, snd (f st'))
    end.

Definition lift {A} (r : res A) : M A := fun st => (r, st).
End Eff.
Arguments state : clear implicits.
Arguments M : clear implicits.
End Eff.
Import Eff.

Declare Scope eff_scope.
Delimit Scope eff_scope with eff.
Notation "x <- m ;; k" := (bind m (fun x => k))
  (at level 100, m at next level, right associativity) : eff_scope.
Notation "m ;;; k" := (bind m (fun _ => k))
  (at level 100, right associativity) : eff_scope.

(** ** Data model of the sync protocol ([tracecat.sync]) *)

Inductive VCSProvider := GITHUB | GITLAB.

Inductive ErrorType := validation | parse | github | gitlab | system.

(** Data as [yaml.safe_load] returns it (floats and dates left out). *)
Unset Elimination Schemes.
Inductive yaml : Type :=
| YNull
| YBool (b : bool)
| YInt (z : Z)
| YStr (s : string)
| YList (l : list yaml)
| YDict (d : list (yaml * yaml)).
Set Elimination Schemes.

(** [not y] is [negb (yaml_truthy y)]. *)
Definition yaml_truthy (y : yaml) : bool :=
  match y with
  | YNull => false
  | YBool b => b
  | YInt z => negb (z =? 0)%Z
  | YStr s => negb (String.eqb s "")
  | YList l => match l with [] => false | _ => true end
  | YDict d => match d with [] => false | _ => true end
  end.

Definition is_key (k : string) (y : yaml) : bool :=
  match y with YStr s => String.eqb s k | _ => false end.

(** [d.get(k)] on a dict, [None] when the key is absent. *)
Fixpoint dict_get (k : string) (d : list (yaml * yaml)) : option yaml :=
  match d with
  | [] => None
  | (k', v) :: d' => if is_key k k' then Some v else dict_get k d'
  end.

Record PullDiagnostic := mkPullDiagnostic {
  workflow_path : string;
  workflow_title : option yaml;
  error_type : ErrorType;
  message : string;
  details : list (string * string)
}.

Record PullOptions := mkPullOptions {
  commit_sha : option string;
  dry_run : bool
}.

Record PullResult := mkPullResult {
  success : bool;
  result_commit_sha : string;
  workflows_found : nat;
  workflows_imported : nat;
  diagnostics : list PullDiagnostic;
  result_message : string
}.

Record PushObject (T : Type) := mkPushObject {
  data : T;
  path_str : string
}.
Arguments mkPushObject {T} data path_str.
Arguments data {T} p.
Arguments path_str {T} p.

Record PushOptions := mkPushOptions {
  branch : option string;
  push_message : string;
  create_pr : bool
}.

Record CommitInfo := mkCommitInfo {
  sha : string;
  commit_ref : string
}.

Record GitCommitInfo := mkGitCommitInfo {
  info_sha : string;
  info_message : string;
  author : string;
  author_email : string;
  date : string;
  tags : list string
}.

(** What the provider clients hand back. *)
Record Tag := mkTag { tag_name : string; tag_commit : string }.

(** A commit as either client lists it: [commit.sha] / [commit.id],
    the message, the author's name and email when upstream has them,
    and the date already as text. *)
Record Commit := mkCommit {
  c_sha : string;
  c_message : string;
  c_author_name : option string;
  c_author_email : option string;
  c_date : string
}.

(** [repo.get_contents]: a file with its path, blob identifier and
    base64 content, or the listing of a directory as the type and the
    path of every entry. *)
Inductive Contents :=
| ContentFile (path : string) (blob_sha : string) (content : string)
| ContentList (items : list (string * string)).

Record PullRequest := mkPullRequest { html_url : string; number : Z }.

(** A fetched repository: paths and contents in iteration order of the
    Python dict. *)
Definition content_map := list (string * string).

(** [d[k] = v]: a new key goes last, a known key keeps its place. *)
Fixpoint dict_set (k v : string) (d : content_map) : content_map :=
  match d with
  | [] => [(k, v)]
  | (k', v') :: d' =>
      if String.eqb k k' then (k, v) :: d' else (k', v') :: dict_set k v d'
  end.

(** ** tracecat/workflow/store/sync.py *)

Module Sync.
Section Sync.
(** The state of the outside world and the workflow definition model
    ([RemoteWorkflowDefinition], whose schema is not among the
    sources). *)
Context {W RemoteWorkflowDefinition : Type}.

(** The collaborators of the service.  Each call may change the world
    and either returns or raises. *)
Record Collaborators : Type := mkCollaborators {
  (* yaml and the schema *)
  safe_load : string -> res yaml;
  model_validate : yaml -> res RemoteWorkflowDefinition;
  yaml_dump : RemoteWorkflowDefinition -> string;
  b64decode_utf8 : string -> res string;
  workflow_id : RemoteWorkflowDefinition -> string;
  definition_title : RemoteWorkflowDefinition -> res (string * string);
  (* the import service, the workspace service, the database session *)
  import_workflows_atomic :
    list RemoteWorkflowDefinition -> string -> W -> res PullResult * W;
  get_workspace : W -> res (option string) * W;
  session_get_user : W -> res (option string) * W;
  (* GitHub: service and PyGithub client *)
  get_github_client_for_repo : GitUrl -> W -> res unit * W;
  gh_get_repo : string -> W -> res string * W;
  gh_get_branch : string -> W -> res string * W;
  gh_create_git_ref : string -> string -> W -> res unit * W;
  gh_get_contents : string -> string -> W -> res Contents * W;
  gh_update_file :
    string -> string -> string -> string -> string -> W -> res unit * W;
  gh_create_file : string -> string -> string -> string -> W -> res unit * W;
  gh_get_pulls : string -> string -> string -> W -> res (list PullRequest) * W;
  gh_create_pull :
    string -> string -> string -> string -> W -> res PullRequest * W;
  gh_get_commits : string -> W -> res (list Commit) * W;
  gh_get_tags : W -> res (list Tag) * W;
  (* GitLab: service and python-gitlab client *)
  get_gitlab_client_for_repo : GitUrl -> W -> res unit * W;
  gl_projects_get : string -> W -> res string * W;
  gl_branches_get : string -> W -> res string * W;
  gl_branches_create : string -> string -> W -> res unit * W;
  gl_repository_tree :
    string -> string -> W -> res (list (string * string)) * W;
  gl_files_get : string -> string -> W -> res string * W;
  gl_file_save : string -> string -> string -> string -> W -> res unit * W;
  gl_files_create : string -> string -> string -> string -> W -> res unit * W;
  gl_mergerequests_list :
    string -> string -> string -> W -> res (list PullRequest) * W;
  gl_mergerequests_create :
    string -> string -> string -> string -> W -> res PullRequest * W;
  gl_commits_list : string -> Z -> W -> res (list Commit) * W;
  gl_tags_list : W -> res (list Tag) * W
}.

Variable C : Collaborators.

Local Open Scope eff_scope.
Local Abbreviation M := (Eff.M W).

Definition _detect_provider (url : GitUrl) : M VCSProvider :=
  let host_lower := lower (host url) in
  if contains "github" host_lower then ret GITHUB
  else if contains "gitlab" host_lower then ret GITLAB
  else
    emit (Log "warning" "Unknown VCS host, defaulting to GitLab") ;;;
    ret GITLAB.

(** *** pull *)

(** [finally: gh.close()] *)
Definition gh_close : M unit := call "gh.close" [] (fun w => (Ok tt, w)).

(** The loop over the entries of [workflows/] on GitHub: for every
    directory its [definition.yml] is read and decoded; a missing file
    is skipped, another provider error is logged and skipped. *)
Fixpoint fetch_items_github (sha : string) (items : list (string * string))
    (cm : content_map) : M content_map :=
  match items with
  | [] => ret cm
  | (item_type, item_path) :: rest =>
      if String.eqb item_type "dir" then
        let definition_path := item_path +:+ "/definition.yml" in
        cm' <-
          try_except
            (definition_file <-
               call "repo.get_contents" [definition_path; sha]
                 (gh_get_contents C definition_path sha) ;;
             match definition_file with
             | ContentFile _ _ encoded =>
                 content <- lift (b64decode_utf8 C encoded) ;;
                 ret (dict_set definition_path content cm)
             | ContentList _ => ret cm
             end)
            (fun e =>
               match e with
               | GithubException st _ =>
                   Some (if negb (st =? 404)%Z then
                           emit (Log "warning" ("Failed to get " +:+ definition_path)) ;;;
                           ret cm
                         else ret cm)
               | _ => None
               end) ;;
        fetch_items_github sha rest cm'
      else fetch_items_github sha rest cm
  end.

Definition _fetch_repository_content_github (url : GitUrl) (sha : string)
    : M content_map :=
  call "get_github_client_for_repo" [to_url url]
    (get_github_client_for_repo C url) ;;;
  try_finally
    (try_except
       (call "gh.get_repo" [org url +:+ "/" +:+ repo url]
          (gh_get_repo C (org url +:+ "/" +:+ repo url)) ;;;
        try_except
          (workflows_contents <-
             call "repo.get_contents" ["workflows"; sha]
               (gh_get_contents C "workflows" sha) ;;
           match workflows_contents with
           | ContentFile _ _ _ => ret []
           | ContentList items => fetch_items_github sha items []
           end)
          (fun e =>
             match e with
             | GithubException st _ =>
                 Some (if (st =? 404)%Z then ret [] else raise e)
             | _ => None
             end))
       (fun e =>
          match e with
          | GithubException st d =>
              Some (raise (GitHubAppError
                             ("GitHub API error: " +:+ str_of_Z st +:+ " - " +:+ d)))
          | _ => None
          end))
    gh_close.

(** The same loop on GitLab, where a directory is a [tree]. *)
Fixpoint fetch_items_gitlab (sha : string) (items : list (string * string))
    (cm : content_map) : M content_map :=
  match items with
  | [] => ret cm
  | (item_type, item_path) :: rest =>
      if String.eqb item_type "tree" then
        let definition_path := item_path +:+ "/definition.yml" in
        cm' <-
          try_except
            (encoded <-
               call "project.files.get" [definition_path; sha]
                 (gl_files_get C definition_path sha) ;;
             content <- lift (b64decode_utf8 C encoded) ;;
             ret (dict_set definition_path content cm))
            (fun e =>
               if is_GitlabError e then
                 Some (if negb (contains "404" (exn_str e)) then
                         emit (Log "warning" ("Failed to get " +:+ definition_path)) ;;;
                         ret cm
                       else ret cm)
               else None) ;;
        fetch_items_gitlab sha rest cm'
      else fetch_items_gitlab sha rest cm
  end.

Definition _fetch_repository_content_gitlab (url : GitUrl) (sha : string)
    : M content_map :=
  call "get_gitlab_client_for_repo" [to_url url]
    (get_gitlab_client_for_repo C url) ;;;
  try_except
    (call "gl.projects.get" [org url +:+ "/" +:+ repo url]
       (gl_projects_get C (org url +:+ "/" +:+ repo url)) ;;;
     try_except
       (workflows_items <-
          call "project.repository_tree" ["workflows"; sha]
            (gl_repository_tree C "workflows" sha) ;;
        fetch_items_gitlab sha workflows_items [])
       (fun e =>
          if is_GitlabError e then
            Some (if contains "404" (exn_str e) then ret [] else raise e)
          else None))
    (fun e =>
       if is_GitlabError e then
         Some (raise (GitLabError ("GitLab API error: " +:+ exn_str e)))
       else None).

Definition _fetch_repository_content (url : GitUrl) (sha : string)
    : M content_map :=
  provider <- _detect_provider url ;;
  match provider with
  | GITLAB => _fetch_repository_content_gitlab url sha
  | GITHUB => _fetch_repository_content_github url sha
  end.

(** [yaml_data.get("definition", {}).get("title")
     if isinstance(yaml_data, dict) else None] *)
Definition title_of (yaml_data : option yaml) : res (option yaml) :=
  match yaml_data with
  | Some (YDict d) =>
      match default (YDict []) (dict_get "definition" d) with
      | YDict d' => Ok (dict_get "title" d')
      | _ => Raise (AttributeError "object has no attribute 'get'")
      end
  | _ => Ok None
  end.

Definition parse_state : Type :=
  list RemoteWorkflowDefinition * list PullDiagnostic.

(** The [except] clauses of the loop body, in order. *)
Definition parse_handlers (file_path : string) (yaml_data : option yaml)
    (acc : parse_state) (e : exn) : res parse_state :=
  let '(remote_workflows, diags) := acc in
  if is_YAMLError e then
    Ok (remote_workflows,
        diags ++ [mkPullDiagnostic file_path None parse
                    ("YAML parsing error: " +:+ exn_str e)
                    [("yaml_error", exn_str e)]])
  else if is_ValidationError e then
    match title_of yaml_data with
    | Ok title =>
        Ok (remote_workflows,
            diags ++ [mkPullDiagnostic file_path title validation
                        ("Validation error: " +:+ exn_str e)
                        [("validation_errors", exn_str e)]])
    | Raise e' => Raise e'
    end
  else
    Ok (remote_workflows,
        diags ++ [mkPullDiagnostic file_path None parse
                    ("Unexpected parsing error: " +:+ exn_str e)
                    [("error", exn_str e)]]).

(** One iteration of the loop over [content_map.items()]. *)
Definition parse_file (acc : parse_state) (item : string * string)
    : res parse_state :=
  let '(file_path, content) := item in
  let '(remote_workflows, diags) := acc in
  match safe_load C content with
  | Raise e => parse_handlers file_path None acc e
  | Ok yaml_data =>
      if negb (yaml_truthy yaml_data) then
        Ok (remote_workflows,
            diags ++ [mkPullDiagnostic file_path None parse
                        "Empty or invalid YAML file" []])
      else
        match model_validate C yaml_data with
        | Ok remote_workflow => Ok (remote_workflows ++ [remote_workflow], diags)
        | Raise e => parse_handlers file_path (Some yaml_data) acc e
        end
  end.

Fixpoint parse_loop (acc : parse_state) (items : content_map)
    : res parse_state :=
  match items with
  | [] => Ok acc
  | item :: rest =>
      match parse_file acc item with
      | Ok acc' => parse_loop acc' rest
      | Raise e => Raise e
      end
  end.

Definition _parse_workflow_definitions (cm : content_map) : res parse_state :=
  parse_loop ([], []) cm.

Definition failed_pull (sha : string) (et : ErrorType)
    (msg summary : string) (det : list (string * string)) : PullResult :=
  mkPullResult false sha 0 0 [mkPullDiagnostic "" None et msg det] summary.

(** The body of the [try] block of [pull]. *)
Definition pull_body (url : GitUrl) (options : PullOptions) (sha : string)
    : M PullResult :=
  repo_content <- _fetch_repository_content url sha ;;
  parsed <- lift (_parse_workflow_definitions repo_content) ;;
  let '(remote_workflows, parse_diagnostics) := parsed in
  match parse_diagnostics with
  | _ :: _ =>
      ret (mkPullResult false sha (length repo_content) 0 parse_diagnostics
             ("Failed to parse " +:+ str_of_nat (length parse_diagnostics)
              +:+ " workflow definitions"))
  | [] =>
      if dry_run options then
        ret (mkPullResult true sha (length remote_workflows) 0 []
               "Dry run completed - workflows validated but not imported")
      else
        call "import_workflows_atomic" [sha]
          (import_workflows_atomic C remote_workflows sha)
  end.

(** The [except] clauses of [pull], in order; the last one takes every
    exception. *)
Definition pull_handlers (options : PullOptions) (e : exn)
    : option (M PullResult) :=
  let sha := or_else (commit_sha options) "" in
  Some
    (if is_GitHubAppError e then
       emit (Log "error" ("GitHub API error during pull: " +:+ exn_str e)) ;;;
       ret (failed_pull sha github ("GitHub API error: " +:+ exn_str e)
              "GitHub API error" [("error", exn_str e)])
     else if is_GitLabError e then
       emit (Log "error" ("GitLab API error during pull: " +:+ exn_str e)) ;;;
       ret (failed_pull sha gitlab ("GitLab API error: " +:+ exn_str e)
              "GitLab API error" [("error", exn_str e)])
     else
       emit (Log "error" ("Unexpected error during pull: " +:+ exn_str e)) ;;;
       ret (failed_pull sha system ("Unexpected error: " +:+ exn_str e)
              "System error" [("error", exn_str e)])).

Definition commit_sha_required : PullResult :=
  failed_pull "" validation "commit_sha is required in pull options"
    "commit_sha is required" [].

Definition pull (url : GitUrl) (options : option PullOptions) : M PullResult :=
  match options with
  | None => ret commit_sha_required
  | Some o =>
      if negb (truthy (commit_sha o)) then ret commit_sha_required
      else
        try_except (pull_body url o (default "" (commit_sha o)))
          (pull_handlers o)
  end.

(** *** list_commits *)

Definition build_tag_mapping (tags_paginated : list Tag)
    : gmap string (list string) :=
  foldl
    (fun (result_map : gmap string (list string)) tag =>
       let tag_sha := tag_commit tag in
       let result_map :=
         match result_map !! tag_sha with
         | None => <[tag_sha := []]> result_map
         | Some _ => result_map
         end in
       <[tag_sha := default [] (result_map !! tag_sha) ++ [tag_name tag]]>
         result_map)
    ∅ tags_paginated.

Definition to_info (sha_to_tags : gmap string (list string)) (commit : Commit)
    : GitCommitInfo :=
  {| info_sha := c_sha commit;
     info_message := c_message commit;
     author := or_else (c_author_name commit) "Unknown";
     author_email := or_else (c_author_email commit) "";
     date := c_date commit;
     tags := default [] (sha_to_tags !! c_sha commit) |}.

(** The GitHub loop: [count] commits taken so far, stop at [limit]. *)
Fixpoint collect_commits (sha_to_tags : gmap string (list string))
    (limit count : Z) (commits_paginated : list Commit)
    (commits : list GitCommitInfo) : list GitCommitInfo :=
  match commits_paginated with
  | [] => commits
  | commit :: rest =>
      if (count >=? limit)%Z then commits
      else collect_commits sha_to_tags limit (count + 1) rest
             (commits ++ [to_info sha_to_tags commit])
  end.

Definition github_error (e : exn) : option (M (list GitCommitInfo)) :=
  match e with
  | GithubException st d =>
      Some (emit (Log "error" "GitHub API error during commit listing") ;;;
            raise (GitHubAppError
                     ("GitHub API error: " +:+ str_of_Z st +:+ " - " +:+ d)))
  | _ => None
  end.

Definition _list_commits_github (url : GitUrl) (branch_ : string) (limit : Z)
    : M (list GitCommitInfo) :=
  try_except
    (call "get_github_client_for_repo" [to_url url]
       (get_github_client_for_repo C url) ;;;
     try_finally
       (call "gh.get_repo" [org url +:+ "/" +:+ repo url]
          (gh_get_repo C (org url +:+ "/" +:+ repo url)) ;;;
        commits_paginated <-
          call "repo.get_commits" [branch_] (gh_get_commits C branch_) ;;
        tags_paginated <- call "repo.get_tags" [] (gh_get_tags C) ;;
        let sha_to_tags := build_tag_mapping tags_paginated in
        ret (collect_commits sha_to_tags limit 0 commits_paginated []))
       gh_close)
    github_error.

Definition gitlab_error (e : exn) : option (M (list GitCommitInfo)) :=
  match e with
  | GitlabError m =>
      Some (emit (Log "error" "GitLab API error during commit listing") ;;;
            raise (GitLabError ("GitLab API error: " +:+ m)))
  | _ => None
  end.

(** [project.commits.list(ref_name=..., per_page=n)], with [get_all]
    and [iterator] left at their defaults, asks the server for one
    page: of the listing that the server has, the call returns the
    first [n] commits at most. *)
Definition one_page {A} (per_page : Z) (listing : W -> res (list A) * W)
    : W -> res (list A) * W :=
  fun w =>
    match listing w with
    | (Ok commits, w') => (Ok (take (Z.to_nat per_page) commits), w')
    | (Raise e, w') => (Raise e, w')
    end.

Definition _list_commits_gitlab (url : GitUrl) (branch_ : string) (limit : Z)
    : M (list GitCommitInfo) :=
  try_except
    (call "get_gitlab_client_for_repo" [to_url url]
       (get_gitlab_client_for_repo C url) ;;;
     call "gl.projects.get" [org url +:+ "/" +:+ repo url]
       (gl_projects_get C (org url +:+ "/" +:+ repo url)) ;;;
     commits_list <-
       call "project.commits.list" [branch_; str_of_Z limit]
         (one_page limit (gl_commits_list C branch_ limit)) ;;
     tags_list <- call "project.tags.list" [] (gl_tags_list C) ;;
     let sha_to_tags := build_tag_mapping tags_list in
     ret (map (to_info sha_to_tags) commits_list))
    gitlab_error.

Definition list_commits (url : GitUrl) (branch_ : string) (limit : Z)
    : M (list GitCommitInfo) :=
  provider <- _detect_provider url ;;
  match provider with
  | GITLAB => _list_commits_gitlab url branch_ limit
  | GITHUB => _list_commits_github url branch_ limit
  end.

(** *** push *)

(** [a or b or c] *)
Definition first_truthy (a b : option string) (c : string) : string :=
  if truthy a then default c a else or_else b c.

Definition is_empty (s : string) : bool := String.eqb s "".

(** The title and the body of a new pull or merge request:
    workspace name, publisher, workflow id, title and description. *)
Definition request_title (workflow_title : string) (options : PushOptions)
    : string :=
  let pr_title := "Publish workflow: " +:+ workflow_title in
  if is_empty (push_message options) then pr_title
  else pr_title +:+ " - " +:+ push_message options.

Definition request_body (workspace published_by wf_id title descr : string)
    : string :=
  let nl := String newline EmptyString in
  "Automated workflow sync from Tracecat" +:+ nl +:+ nl
  +:+ "**Workspace:** " +:+ workspace +:+ nl
  +:+ "**Published by:** " +:+ published_by +:+ nl
  +:+ "**Workflow ID:** " +:+ wf_id +:+ nl
  +:+ "**Workflow Title:** " +:+ title +:+ nl
  +:+ "**Workflow Description:** " +:+ descr.

(** What both adapters collect before they create a request: the
    workspace (its absence is an error), title and description with
    their placeholders on [ValueError], the publisher's email or
    [<unknown>]. *)
Definition request_texts (obj : PushObject RemoteWorkflowDefinition)
    (options : PushOptions) : M (string * string) :=
  workspace <- call "get_workspace" [] (get_workspace C) ;;
  match workspace with
  | None => raise (TracecatNotFoundError "Workspace not found")
  | Some workspace_name =>
      td <- try_except (lift (definition_title C (data obj)))
              (fun e =>
                 if is_ValueError e then
                   Some (ret ("<An error occurred while determining the title>",
                              "<An error occurred while determining the description>"))
                 else None) ;;
      current_user <-
        try_except (call "session.get" [] (session_get_user C))
          (fun _ => Some (ret None)) ;;
      let published_by := default "<unknown>" current_user in
      ret (request_title (fst td) options,
           request_body workspace_name published_by
             (workflow_id C (data obj)) (fst td) (snd td))
  end.

Definition _push_github (objects : list (PushObject RemoteWorkflowDefinition))
    (url : GitUrl) (options : PushOptions) : M CommitInfo :=
  match objects with
  | [obj] =>
    call "get_github_client_for_repo" [to_url url]
      (get_github_client_for_repo C url) ;;;
    try_finally
      (try_except
        (let full_name := org url +:+ "/" +:+ repo url in
         default_branch <- call "gh.get_repo" [full_name] (gh_get_repo C full_name) ;;
         let base_branch_name :=
           first_truthy (branch options) (ref url) default_branch in
         base_sha <- call "repo.get_branch" [base_branch_name]
                       (gh_get_branch C base_branch_name) ;;
         let branch_name := "tracecat-sync/" +:+ workflow_id C (data obj) in
         (* branch: reuse or create *)
         try_except
           (call "repo.get_branch" [branch_name] (gh_get_branch C branch_name) ;;;
            emit (Log "info" "Reusing existing branch via GitHub API"))
           (fun e =>
              match e with
              | GithubException st _ =>
                  Some (if (st =? 404)%Z then
                          emit (Log "info" "Creating new branch via GitHub API") ;;;
                          call "repo.create_git_ref"
                            ["refs/heads/" +:+ branch_name; base_sha]
                            (gh_create_git_ref C ("refs/heads/" +:+ branch_name) base_sha)
                        else raise e)
              | _ => None
              end) ;;;
         (* file: update or create *)
         let file_path := path_str obj in
         let yaml_content := yaml_dump C (data obj) in
         try_except
           (contents <- call "repo.get_contents" [file_path; branch_name]
                          (gh_get_contents C file_path branch_name) ;;
            match contents with
            | ContentList _ => raise (GithubException 404 "Not a file")
            | ContentFile path blob _ =>
                call "repo.update_file" [path; branch_name]
                  (gh_update_file C path (push_message options) yaml_content
                     blob branch_name) ;;;
                emit (Log "debug" "Updated workflow file via API")
            end)
           (fun e =>
              match e with
              | GithubException st _ =>
                  Some (if (st =? 404)%Z then
                          call "repo.create_file" [file_path; branch_name]
                            (gh_create_file C file_path (push_message options)
                               yaml_content branch_name) ;;;
                          emit (Log "debug" "Created workflow file via API")
                        else ret tt)
              | _ => None
              end) ;;;
         (* the tip of the branch after the write *)
         commit <- call "repo.get_branch" [branch_name] (gh_get_branch C branch_name) ;;
         (* pull request: reuse or create *)
         pr_url <-
           (if create_pr options then
              try_except
                (existing_pr_list <-
                   call "repo.get_pulls" [org url +:+ ":" +:+ branch_name; base_branch_name; "open"]
                     (gh_get_pulls C (org url +:+ ":" +:+ branch_name) base_branch_name "open") ;;
                 match existing_pr_list with
                 | pr :: _ =>
                     emit (Log "info" "Reusing existing open PR via GitHub API") ;;;
                     ret (Some (html_url pr))
                 | [] =>
                     texts <- request_texts obj options ;;
                     pr <- call "repo.create_pull" [fst texts; branch_name; base_branch_name]
                             (gh_create_pull C (fst texts) (snd texts)
                                branch_name base_branch_name) ;;
                     emit (Log "info" "Created PR via GitHub API") ;;;
                     ret (Some (html_url pr))
                 end)
                (fun e =>
                   if is_GithubException e then
                     Some (emit (Log "error" "Failed to create/find PR via GitHub API") ;;;
                           ret None)
                   else None)
            else ret None) ;;
         emit (Log "info" "Successfully pushed workflows via GitHub API") ;;;
         ret (mkCommitInfo commit branch_name))
        (fun e =>
           match e with
           | GithubException st d =>
               Some (emit (Log "error" "GitHub API error during push") ;;;
                     raise (GitHubAppError
                              ("GitHub API error: " +:+ str_of_Z st +:+ " - " +:+ d)))
           | _ => None
           end))
      gh_close
  | _ => raise (ValueError "wrong number of values to unpack")
  end.

Definition _push_gitlab (objects : list (PushObject RemoteWorkflowDefinition))
    (url : GitUrl) (options : PushOptions) : M CommitInfo :=
  match objects with
  | [obj] =>
    call "get_gitlab_client_for_repo" [to_url url]
      (get_gitlab_client_for_repo C url) ;;;
    try_except
      (let project_path := org url +:+ "/" +:+ repo url in
       default_branch <- call "gl.projects.get" [project_path]
                           (gl_projects_get C project_path) ;;
       let base_branch_name :=
         first_truthy (branch options) (ref url) default_branch in
       let branch_name := "tracecat-sync/" +:+ workflow_id C (data obj) in
       (* branch: reuse or create *)
       try_except
         (call "project.branches.get" [branch_name] (gl_branches_get C branch_name) ;;;
          emit (Log "info" "Reusing existing branch via GitLab API"))
         (fun e =>
            if is_GitlabError e then
              Some (if negb (contains "404" (exn_str e)) then raise e
                    else
                      emit (Log "info" "Creating new branch via GitLab API") ;;;
                      call "project.branches.create" [branch_name; base_branch_name]
                        (gl_branches_create C branch_name base_branch_name))
            else None) ;;;
       (* file: update or create *)
       let file_path := path_str obj in
       let yaml_content := yaml_dump C (data obj) in
       try_except
         (call "project.files.get" [file_path; branch_name]
            (gl_files_get C file_path branch_name) ;;;
          call "existing_file.save" [file_path; branch_name]
            (gl_file_save C file_path yaml_content branch_name
               (push_message options)) ;;;
          emit (Log "debug" "Updated workflow file via GitLab API"))
         (fun e =>
            if is_GitlabError e then
              Some (if contains "404" (exn_str e) then
                      call "project.files.create" [file_path; branch_name]
                        (gl_files_create C file_path branch_name yaml_content
                           (push_message options)) ;;;
                      emit (Log "debug" "Created workflow file via GitLab API")
                    else raise e)
            else None) ;;;
       (* the tip of the branch after the write *)
       commit <- call "project.branches.get" [branch_name]
                   (gl_branches_get C branch_name) ;;
       (* merge request: reuse or create *)
       mr_url <-
         (if create_pr options then
            try_except
              (existing_mrs <-
                 call "project.mergerequests.list" [branch_name; base_branch_name; "opened"]
                   (gl_mergerequests_list C branch_name base_branch_name "opened") ;;
               match existing_mrs with
               | mr :: _ =>
                   emit (Log "info" "Reusing existing open MR via GitLab API") ;;;
                   ret (Some (html_url mr))
               | [] =>
                   texts <- request_texts obj options ;;
                   mr <- call "project.mergerequests.create"
                           [branch_name; base_branch_name; fst texts]
                           (gl_mergerequests_create C branch_name base_branch_name
                              (fst texts) (snd texts)) ;;
                   emit (Log "info" "Created MR via GitLab API") ;;;
                   ret (Some (html_url mr))
               end)
              (fun e =>
                 if is_GitlabError e then
                   Some (emit (Log "error" "Failed to create/find MR via GitLab API") ;;;
                         ret None)
                 else None)
          else ret None) ;;
       emit (Log "info" "Successfully pushed workflows via GitLab API") ;;;
       ret (mkCommitInfo commit branch_name))
      (fun e =>
         if is_GitlabError e then
           Some (emit (Log "error" "GitLab API error during push") ;;;
                 raise (GitLabError ("GitLab API error: " +:+ exn_str e)))
         else None)
  | _ => raise (ValueError "wrong number of values to unpack")
  end.

Definition push (objects : list (PushObject RemoteWorkflowDefinition))
    (url : GitUrl) (options : PushOptions) : M CommitInfo :=
  if negb (length objects =? 1)%nat then
    raise (ValueError "We only support pushing one workflow object at a time")
  else
    provider <- _detect_provider url ;;
    match provider with
    | GITLAB => _push_gitlab objects url options
    | GITHUB => _push_github objects url options
    end.
End Sync.
Arguments Collaborators : clear implicits.
End Sync.

(** ** tracecat/vcs/gitlab/schemas.py and service.py: credentials *)

Module GitLabService.

Record GitLabCredentials := mkGitLabCredentials {
  access_token : string;
  gitlab_url : string
}.

(** A stored organisation secret. *)
Record Secret := mkSecret {
  encrypted_keys : string;
  created_at : option string
}.

(** The dictionary that [get_gitlab_credentials_status] returns. *)
Record Status := mkStatus {
  exists_ : bool;
  status_gitlab_url : option string;
  status_created_at : option string
}.

Definition CREDENTIAL_SECRET_NAME : string := "gitlab-credentials".

(** [GitLabCredentials.model_validate]: [access_token] is required,
    [gitlab_url] has a default. *)
Definition model_validate (key_dict : gmap string string) : res GitLabCredentials :=
  match key_dict !! "access_token" with
  | Some t =>
      Ok (mkGitLabCredentials t (default "https://gitlab.com" (key_dict !! "gitlab_url")))
  | None => Raise (ValidationError "access_token: Field required")
  end.

Section Service.
Context {W : Type}.

(** The secrets service. *)
Record SecretsService : Type := mkSecretsService {
  get_org_secret_by_name : string -> W -> res Secret * W;
  decrypt_keys : string -> res (list (string * string))
}.

Variable secrets_service : SecretsService.
Local Open Scope eff_scope.

Definition get_gitlab_credentials : Eff.M W GitLabCredentials :=
  try_except
    (secret <- call "get_org_secret_by_name" [CREDENTIAL_SECRET_NAME]
                 (get_org_secret_by_name secrets_service CREDENTIAL_SECRET_NAME) ;;
     decrypted_keys <- lift (decrypt_keys secrets_service (encrypted_keys secret)) ;;
     let key_dict : gmap string string :=
       foldl (fun d kv => <[fst kv := snd kv]> d) ∅ decrypted_keys in
     credentials <- lift (model_validate key_dict) ;;
     emit (Log "debug" "Retrieved GitLab credentials from organization secret") ;;;
     ret credentials)
    (fun e =>
       Some (emit (Log "debug" "Failed to retrieve GitLab credentials") ;;;
             raise (GitLabError
                      ("Failed to retrieve GitLab credentials: " +:+ exn_str e)))).

Definition get_gitlab_credentials_status : Eff.M W Status :=
  try_except
    (credentials <- get_gitlab_credentials ;;
     secret <- call "get_org_secret_by_name" [CREDENTIAL_SECRET_NAME]
                 (get_org_secret_by_name secrets_service CREDENTIAL_SECRET_NAME) ;;
     ret (mkStatus true (Some (gitlab_url credentials)) (created_at secret)))
    (fun e =>
       if is_GitLabError e then Some (ret (mkStatus false None None))
       else None).
End Service.
Arguments SecretsService : clear implicits.
End GitLabService.

(** ** tracecat/vcs/gitlab/service.py: registering, updating, deleting *)

Module GitLabAdmin.
Import GitLabService.

(** [GitLabConfig] of schemas.py. *)
Record GitLabConfig := mkGitLabConfig {
  config_gitlab_url : string;
  has_access_token : bool
}.

Inductive SecretType := GITLAB_TOKEN.

(** [SecretCreate] as [register_credentials] fills it. *)
Record SecretCreate := mkSecretCreate {
  secret_name : string;
  secret_type : SecretType;
  secret_description : string;
  secret_keys : list (string * string);
  secret_tags : list (string * string)
}.

Section Admin.
Context {W : Type}.

(** The writing half of the secrets service, and the check of the
    decorator [require_access_level], which raises or lets the method
    run. *)
Record SecretsWriter : Type := mkSecretsWriter {
  require_access_level : string -> W -> res unit * W;
  create_org_secret : SecretCreate -> W -> res unit * W;
  update_org_secret : Secret -> list (string * string) -> W -> res unit * W;
  delete_org_secret : Secret -> W -> res unit * W
}.

Variable secrets_service : SecretsService W.
Variable writer : SecretsWriter.
Local Open Scope eff_scope.

(** [@require_access_level(AccessLevel.ADMIN)] *)
Definition admin_only {A} (method : Eff.M W A) : Eff.M W A :=
  call "require_access_level" ["ADMIN"] (require_access_level writer "ADMIN") ;;;
  method.

Definition register_credentials (token : string) (url : string)
    : Eff.M W GitLabConfig :=
  admin_only
    (let credentials := mkGitLabCredentials token url in
     let keys :=
       [("access_token", access_token credentials);
        ("gitlab_url", gitlab_url credentials)] in
     let secret_create :=
       mkSecretCreate CREDENTIAL_SECRET_NAME GITLAB_TOKEN
         "GitLab credentials for workflow synchronization" keys
         [("purpose", "gitlab-vcs"); ("provider", "gitlab")] in
     call "create_org_secret" [CREDENTIAL_SECRET_NAME]
       (create_org_secret writer secret_create) ;;;
     let config := mkGitLabConfig url true in
     emit (Log "info" "Registered GitLab credentials as organization secret") ;;;
     ret config).

Definition update_gitlab_credentials (token : option string)
    (url : option string) : Eff.M W GitLabConfig :=
  admin_only
    (existing_credentials <-
       try_except (get_gitlab_credentials secrets_service)
         (fun e =>
            if is_GitLabError e then
              Some (raise (GitLabError
                             "No existing GitLab credentials found. Use register_credentials() first."))
            else None) ;;
     let updated_credentials :=
       mkGitLabCredentials
         (match token with
          | Some t => t
          | None => access_token existing_credentials
          end)
         (match url with
          | Some u => u
          | None => gitlab_url existing_credentials
          end) in
     let keys :=
       [("access_token", access_token updated_credentials);
        ("gitlab_url", gitlab_url updated_credentials)] in
     secret <- call "get_org_secret_by_name" [CREDENTIAL_SECRET_NAME]
                 (get_org_secret_by_name secrets_service CREDENTIAL_SECRET_NAME) ;;
     call "update_org_secret" [CREDENTIAL_SECRET_NAME]
       (update_org_secret writer secret keys) ;;;
     let config := mkGitLabConfig (gitlab_url updated_credentials) true in
     emit (Log "info" "Updated GitLab credentials") ;;;
     ret config).

Definition save_gitlab_credentials (token : string) (url : string)
    : Eff.M W (GitLabConfig * bool) :=
  admin_only
    (try_except
       (get_gitlab_credentials secrets_service ;;;
        config <- update_gitlab_credentials (Some token) (Some url) ;;
        emit (Log "info" "Updated existing GitLab credentials") ;;;
        ret (config, false))
       (fun e =>
          if is_GitLabError e then
            Some (if contains "Failed to retrieve GitLab credentials" (exn_str e)
                  then
                    config <- register_credentials token url ;;
                    emit (Log "info" "Created new GitLab credentials") ;;;
                    ret (config, true)
                  else raise e)
          else None)).

Definition delete_gitlab_credentials : Eff.M W unit :=
  admin_only
    (try_except
       (secret <- call "get_org_secret_by_name" [CREDENTIAL_SECRET_NAME]
                    (get_org_secret_by_name secrets_service CREDENTIAL_SECRET_NAME) ;;
        call "delete_org_secret" [CREDENTIAL_SECRET_NAME]
          (delete_org_secret writer secret) ;;;
        emit (Log "info" "Deleted GitLab credentials"))
       (fun e =>
          Some (emit (Log "error" "Failed to delete GitLab credentials") ;;;
                raise (GitLabError
                         ("Failed to delete GitLab credentials: " +:+ exn_str e))))).
End Admin.
Arguments SecretsWriter : clear implicits.
End GitLabAdmin.

(** ** tracecat/vcs/router.py: the GitLab endpoints *)

Module Router.
Import GitLabService.

(** What an endpoint does: it returns a body, or raises
    [HTTPException(status_code, detail)]. *)
Inductive outcome (A : Type) : Type :=
  | Returns (body : A)
  | HTTPException (status_code : Z) (detail : string).
Arguments Returns {A} body.
Arguments HTTPException {A} status_code detail.

Definition HTTP_400_BAD_REQUEST : Z := 400.
Definition HTTP_500_INTERNAL_SERVER_ERROR : Z := 500.

Section Router.
Context {W : Type}.
Variable secrets_service : SecretsService W.
Variable writer : GitLabAdmin.SecretsWriter W.
Local Open Scope eff_scope.

(** [POST /gitlab/credentials] *)
Definition save_gitlab_credentials (request_access_token : string)
    (request_gitlab_url : string) : Eff.M W (outcome (list (string * string))) :=
  try_except
    (saved <- GitLabAdmin.save_gitlab_credentials secrets_service writer
                request_access_token request_gitlab_url ;;
     let '(config, was_created) := saved in
     let action := if was_created : bool then "created" else "updated" in
     emit (Log "info" ("GitLab credentials " +:+ action)) ;;;
     ret (Returns
            [("message", "GitLab credentials " +:+ action +:+ " successfully");
             ("action", action);
             ("gitlab_url", GitLabAdmin.config_gitlab_url config)]))
    (fun e =>
       Some (if is_GitLabError e then
               emit (Log "error" "Failed to save GitLab credentials") ;;;
               ret (HTTPException HTTP_400_BAD_REQUEST
                      ("Failed to save GitLab credentials: " +:+ exn_str e))
             else
               emit (Log "error" "Error saving GitLab credentials") ;;;
               ret (HTTPException HTTP_500_INTERNAL_SERVER_ERROR
                      "Internal server error while saving credentials"))).

(** [GET /gitlab/credentials/status] *)
Definition get_gitlab_credentials_status : Eff.M W (outcome Status) :=
  try_except
    (status_data <- GitLabService.get_gitlab_credentials_status secrets_service ;;
     ret (Returns status_data))
    (fun e =>
       Some (emit (Log "error" "Error getting GitLab credentials status") ;;;
             ret (HTTPException HTTP_500_INTERNAL_SERVER_ERROR
                    "Internal server error while getting credentials status"))).

(** [DELETE /gitlab/credentials] *)
Definition delete_gitlab_credentials : Eff.M W (outcome unit) :=
  try_except
    (GitLabAdmin.delete_gitlab_credentials secrets_service writer ;;;
     emit (Log "info" "GitLab credentials deleted") ;;;
     ret (Returns tt))
    (fun e =>
       Some (if is_GitLabError e then
               emit (Log "error" "Failed to delete GitLab credentials") ;;;
               ret (HTTPException HTTP_400_BAD_REQUEST
                      ("Failed to delete GitLab credentials: " +:+ exn_str e))
             else
               emit (Log "error" "Error deleting GitLab credentials") ;;;
               ret (HTTPException HTTP_500_INTERNAL_SERVER_ERROR
                      "Internal server error while deleting credentials"))).
End Router.
End Router.

(** ** Vocabulary of the properties *)

(** A content map as the fetch loops build it from the entries of the
    [workflows] directory: its keys are [definition.yml] paths of
    listed directories (entries of the provider's directory [kind]), or
    keys it had before, each key once. *)
Definition definition_paths (kind : string) (items : list (string * string))
    (before cm : content_map) : Prop :=
  List.NoDup (map fst cm)
  /\ forall k, In k (map fst cm) ->
       In k (map fst before)
       \/ exists path, In (kind, path) items /\ k = path +:+ "/definition.yml".

(** The name under which a call is recorded in the trace; a log entry
    has none. *)
Definition event_name (ev : event) : string :=
  match ev with Call name _ => name | Log _ _ => "" end.

(** The calls that change something at the provider, the calls that
    look for or open a pull or merge request, and the calls to each
    provider. *)
Definition write_calls : list string :=
  ["repo.create_git_ref"; "repo.update_file"; "repo.create_file";
   "repo.create_pull"; "project.branches.create"; "existing_file.save";
   "project.files.create"; "project.mergerequests.create"].

Definition request_calls : list string :=
  ["repo.get_pulls"; "repo.create_pull"; "project.mergerequests.list";
   "project.mergerequests.create"; "get_workspace"; "session.get"].

Definition github_calls : list string :=
  ["get_github_client_for_repo"; "gh.get_repo"; "gh.close"; "repo.get_branch";
   "repo.create_git_ref"; "repo.get_contents"; "repo.update_file";
   "repo.create_file"; "repo.get_pulls"; "repo.create_pull";
   "repo.get_commits"; "repo.get_tags"].

Definition gitlab_calls : list string :=
  ["get_gitlab_client_for_repo"; "gl.projects.get"; "project.branches.get";
   "project.branches.create"; "project.repository_tree"; "project.files.get";
   "existing_file.save"; "project.files.create"; "project.mergerequests.list";
   "project.mergerequests.create"; "project.commits.list"; "project.tags.list"].

(** An event that is no call to a collaborator named in [names]. *)
Definition no_call_to (names : list string) (ev : event) : Prop :=
  existsb (String.eqb (event_name ev)) names = false.

(** A computation that, from every state and on every path, leaves the
    trace it found and adds only events that satisfy [P]. *)
Definition adds {W A} (P : event -> Prop) (m : Eff.M W A) : Prop :=
  forall st, exists t, trace (snd (m st)) = trace st ++ t /\ Forall P t.

(** A text of ASCII characters.  On these texts the matcher of this
    file and Python's [re] read the two patterns alike: [\d] is [0-9],
    a negated class takes every other character, [$] is the end or the
    place before a final newline. *)
Definition ascii_text (s : string) : bool :=
  forallb (fun c => (nat_of_ascii c <? 128)%nat) (chars s).

(** [matches r a rest groups]: the expression [r] takes [a] from the
    front of the input [a ++ rest] and binds [groups], the most recent
    first.  What follows matters to [$] only. *)
Inductive matches : regex -> list ascii -> list ascii -> env -> Prop :=
  | matches_Lit l rest : matches (Lit l) (chars l) rest []
  | matches_NotIn cs c rest :
      mem c cs = false -> matches (NotIn cs) [c] rest []
  | matches_Digit c rest : is_digit c = true -> matches Digit [c] rest []
  | matches_Seq r1 r2 a b rest e1 e2 :
      matches r1 a (b ++ rest) e1 -> matches r2 b rest e2 ->
      matches (Seq r1 r2) (a ++ b) rest (e2 ++ e1)
  | matches_Opt r a rest e : matches r a rest e -> matches (Opt r) a rest e
  | matches_Opt_none r rest : matches (Opt r) [] rest []
  | matches_Plus r a rest e : matches r a rest e -> matches (Plus r) a rest e
  | matches_Plus_more r a b rest e1 e2 :
      matches r a (b ++ rest) e1 -> matches (Plus r) b rest e2 ->
      matches (Plus r) (a ++ b) rest (e2 ++ e1)
  | matches_PlusLazy r a rest e :
      matches r a rest e -> matches (PlusLazy r) a rest e
  | matches_PlusLazy_more r a b rest e1 e2 :
      matches r a (b ++ rest) e1 -> matches (PlusLazy r) b rest e2 ->
      matches (PlusLazy r) (a ++ b) rest (e2 ++ e1)
  | matches_Group g r a rest e :
      matches r a rest e -> matches (Group g r) a rest ((g, a) :: e)
  | matches_Eol rest :
      rest = [] \/ rest = [newline] -> matches Eol [] rest [].

(** Both providers list the commits of a branch from its tip backwards,
    newest first, and the answer of the collaborator is that listing.
    A sequence of commit infos is ordered newest first when it shows
    the first commits of the listing, one for one and in the order of
    the listing. *)
Definition newest_first (listing : list Commit) (l : list GitCommitInfo)
    : Prop :=
  Forall2 (fun c i => info_sha i = c_sha c /\ date i = c_date c)
    (take (length l) listing) l.

(** *** Collaborators that keep a record of the calls they receive

    The state of the world is paired with a record.  Every call is
    answered as [C] answers it, and its name is added to the record
    together with the arguments as the collaborator receives them, in
    the order of its parameters. *)
Definition record_call {W A} (name : string) (args : list string)
    (f : W -> res A * W) : W * list event -> res A * (W * list event) :=
  fun s =>
    match f (fst s) with
    | (r, w') => (r, (w', snd s ++ [Call name args]))
    end.

Definition recording {W R} (C : Sync.Collaborators W R)
    : Sync.Collaborators (W * list event) R :=
  {| Sync.safe_load := Sync.safe_load C;
     Sync.model_validate := Sync.model_validate C;
     Sync.yaml_dump := Sync.yaml_dump C;
     Sync.b64decode_utf8 := Sync.b64decode_utf8 C;
     Sync.workflow_id := Sync.workflow_id C;
     Sync.definition_title := Sync.definition_title C;
     Sync.import_workflows_atomic := fun wfs sha_ =>
       record_call "import_workflows_atomic" [sha_]
         (Sync.import_workflows_atomic C wfs sha_);
     Sync.get_workspace := record_call "get_workspace" [] (Sync.get_workspace C);
     Sync.session_get_user :=
       record_call "session.get" [] (Sync.session_get_user C);
     Sync.get_github_client_for_repo := fun url =>
       record_call "get_github_client_for_repo" [to_url url]
         (Sync.get_github_client_for_repo C url);
     Sync.gh_get_repo := fun full_name =>
       record_call "gh.get_repo" [full_name] (Sync.gh_get_repo C full_name);
     Sync.gh_get_branch := fun branch_ =>
       record_call "repo.get_branch" [branch_] (Sync.gh_get_branch C branch_);
     Sync.gh_create_git_ref := fun ref_ sha_ =>
       record_call "repo.create_git_ref" [ref_; sha_]
         (Sync.gh_create_git_ref C ref_ sha_);
     Sync.gh_get_contents := fun path_ ref_ =>
       record_call "repo.get_contents" [path_; ref_]
         (Sync.gh_get_contents C path_ ref_);
     Sync.gh_update_file := fun path_ message_ content_ sha_ branch_ =>
       record_call "repo.update_file" [path_; message_; content_; sha_; branch_]
         (Sync.gh_update_file C path_ message_ content_ sha_ branch_);
     Sync.gh_create_file := fun path_ message_ content_ branch_ =>
       record_call "repo.create_file" [path_; message_; content_; branch_]
         (Sync.gh_create_file C path_ message_ content_ branch_);
     Sync.gh_get_pulls := fun head_ base_ state_ =>
       record_call "repo.get_pulls" [head_; base_; state_]
         (Sync.gh_get_pulls C head_ base_ state_);
     Sync.gh_create_pull := fun title_ body_ head_ base_ =>
       record_call "repo.create_pull" [title_; body_; head_; base_]
         (Sync.gh_create_pull C title_ body_ head_ base_);
     Sync.gh_get_commits := fun sha_ =>
       record_call "repo.get_commits" [sha_] (Sync.gh_get_commits C sha_);
     Sync.gh_get_tags := record_call "repo.get_tags" [] (Sync.gh_get_tags C);
     Sync.get_gitlab_client_for_repo := fun url =>
       record_call "get_gitlab_client_for_repo" [to_url url]
         (Sync.get_gitlab_client_for_repo C url);
     Sync.gl_projects_get := fun project_path =>
       record_call "gl.projects.get" [project_path]
         (Sync.gl_projects_get C project_path);
     Sync.gl_branches_get := fun branch_ =>
       record_call "project.branches.get" [branch_]
         (Sync.gl_branches_get C branch_);
     Sync.gl_branches_create := fun branch_ ref_ =>
       record_call "project.branches.create" [branch_; ref_]
         (Sync.gl_branches_create C branch_ ref_);
     Sync.gl_repository_tree := fun path_ ref_ =>
       record_call "project.repository_tree" [path_; ref_]
         (Sync.gl_repository_tree C path_ ref_);
     Sync.gl_files_get := fun file_path ref_ =>
       record_call "project.files.get" [file_path; ref_]
         (Sync.gl_files_get C file_path ref_);
     Sync.gl_file_save := fun file_path content_ branch_ commit_message =>
       record_call "existing_file.save"
         [file_path; content_; branch_; commit_message]
         (Sync.gl_file_save C file_path content_ branch_ commit_message);
     Sync.gl_files_create := fun file_path branch_ content_ commit_message =>
       record_call "project.files.create"
         [file_path; branch_; content_; commit_message]
         (Sync.gl_files_create C file_path branch_ content_ commit_message);
     Sync.gl_mergerequests_list := fun source_branch target_branch state_ =>
       record_call "project.mergerequests.list"
         [source_branch; target_branch; state_]
         (Sync.gl_mergerequests_list C source_branch target_branch state_);
     Sync.gl_mergerequests_create :=
       fun source_branch target_branch title_ description_ =>
       record_call "project.mergerequests.create"
         [source_branch; target_branch; title_; description_]
         (Sync.gl_mergerequests_create C source_branch target_branch title_
            description_);
     Sync.gl_commits_list := fun ref_name per_page =>
       record_call "project.commits.list" [ref_name; str_of_Z per_page]
         (Sync.gl_commits_list C ref_name per_page);
     Sync.gl_tags_list := record_call "project.tags.list" [] (Sync.gl_tags_list C) |}.

(** What a recorded call creates, changes or asks to merge: the
    parameter [ref] of [create_git_ref]; [branch] of [update_file],
    [create_file], [branches.create], [save] and [files.create];
    [head] of [create_pull]; [source_branch] of [mergerequests.create].
    The other calls change nothing at the provider. *)
Definition write_target (ev : event) : option string :=
  match ev with
  | Log _ _ => None
  | Call name args =>
      if String.eqb name "repo.create_git_ref" then Some (nth 0 args "")
      else if String.eqb name "repo.update_file" then Some (nth 4 args "")
      else if String.eqb name "repo.create_file" then Some (nth 3 args "")
      else if String.eqb name "repo.create_pull" then Some (nth 2 args "")
      else if String.eqb name "project.branches.create" then Some (nth 0 args "")
      else if String.eqb name "existing_file.save" then Some (nth 2 args "")
      else if String.eqb name "project.files.create" then Some (nth 1 args "")
      else if String.eqb name "project.mergerequests.create"
           then Some (nth 0 args "")
      else None
  end.

(** A recorded call that, if it changes something at the provider,
    changes the branch [b]: its target is [b], or the Git reference of
    [b] where the call takes a reference. *)
Definition writes_to (b : string) (ev : event) : Prop :=
  match write_target ev with
  | None => True
  | Some target =>
      target = if String.eqb (event_name ev) "repo.create_git_ref"
               then "refs/heads/" +:+ b
               else b
  end.

(** A computation over recording collaborators that, from every state
    and on every path, keeps the record it found and adds only calls
    that satisfy [P]. *)
Definition records {W A} (P : event -> Prop) (m : Eff.M (W * list event) A)
    : Prop :=
  forall st, exists t,
    snd (world (snd (m st))) = snd (world st) ++ t /\ Forall P t.

(** A computation over recording collaborators that does what [m] does:
    from the same world and trace it gives the same result, the same
    world and the same trace, whatever the record holds. *)
Definition same_run {W A} (m : Eff.M W A) (m' : Eff.M (W * list event) A)
    : Prop :=
  forall (w : W) (log t : list event),
    match m (Eff.mkState w t) with
    | (r, st1) =>
        exists log',
          m' (Eff.mkState (w, log) t)
          = (r, Eff.mkState (world st1, log') (trace st1))
    end.

(** ** Concrete worlds

    A world without state in which workflow definitions are plain
    strings, every provider call succeeds with a canned answer, and a
    few answers can be chosen. *)
Module Scenario.

Definition answer {A} (r : res A) : unit -> res A * unit := fun w => (r, w).

(** The files of the repository: one definition is a string where a
    mapping is expected, every other file is empty.  Contents are kept
    as they are, without base64. *)
Definition blob (path : string) : string :=
  if String.eqb path "workflows/b/definition.yml" then "definition: foo"
  else "".

Definition collaborators
    (load : string -> res yaml) (validate : yaml -> res string)
    (listing : res (list (string * string))) (updated : res unit)
    (requests : res (list PullRequest))
    (commits : list Commit) (tags_ : list Tag)
    : Sync.Collaborators unit string :=
  {| Sync.safe_load := load;
     Sync.model_validate := validate;
     Sync.yaml_dump := fun wf => wf;
     Sync.b64decode_utf8 := fun encoded => Ok encoded;
     Sync.workflow_id := fun wf => wf;
     Sync.definition_title := fun wf => Ok (wf, "");
     Sync.import_workflows_atomic := fun wfs sha_ =>
       answer (Ok (mkPullResult true sha_ (length wfs) (length wfs) [] "imported"));
     Sync.get_workspace := answer (Ok (Some "workspace"));
     Sync.session_get_user := answer (Ok None);
     Sync.get_github_client_for_repo := fun _ => answer (Ok tt);
     Sync.gh_get_repo := fun _ => answer (Ok "main");
     Sync.gh_get_branch := fun _ => answer (Ok "0123abc");
     Sync.gh_create_git_ref := fun _ _ => answer (Ok tt);
     Sync.gh_get_contents := fun p _ =>
       answer (if String.eqb p "workflows" then
                 match listing with
                 | Ok items => Ok (ContentList items)
                 | Raise e => Raise e
                 end
               else Ok (ContentFile p "blob" (blob p)));
     Sync.gh_update_file := fun _ _ _ _ _ => answer updated;
     Sync.gh_create_file := fun _ _ _ _ => answer (Ok tt);
     Sync.gh_get_pulls := fun _ _ _ => answer requests;
     Sync.gh_create_pull := fun _ _ _ _ => answer (Ok (mkPullRequest "url" 1));
     Sync.gh_get_commits := fun _ => answer (Ok commits);
     Sync.gh_get_tags := answer (Ok tags_);
     Sync.get_gitlab_client_for_repo := fun _ => answer (Ok tt);
     Sync.gl_projects_get := fun _ => answer (Ok "main");
     Sync.gl_branches_get := fun _ => answer (Ok "0123abc");
     Sync.gl_branches_create := fun _ _ => answer (Ok tt);
     Sync.gl_repository_tree := fun _ _ => answer listing;
     Sync.gl_files_get := fun p _ => answer (Ok (blob p));
     Sync.gl_file_save := fun _ _ _ _ => answer updated;
     Sync.gl_files_create := fun _ _ _ _ => answer (Ok tt);
     Sync.gl_mergerequests_list := fun _ _ _ => answer requests;
     Sync.gl_mergerequests_create := fun _ _ _ _ => answer (Ok (mkPullRequest "url" 1));
     Sync.gl_commits_list := fun _ per_page =>
       answer (Ok (take (Z.to_nat per_page) commits));
     Sync.gl_tags_list := answer (Ok tags_) |}.

Definition start : Eff.state unit := Eff.mkState tt [].

Definition github_url : GitUrl := mkGitUrl "github.com" "org" "repo" None SSH.
Definition gitlab_url : GitUrl := mkGitUrl "gitlab.com" "org" "repo" None HTTPS.

(** A loader that knows two files. *)
Definition load (content : string) : res yaml :=
  if String.eqb content "" then Ok YNull
  else if String.eqb content "definition: foo"
  then Ok (YDict [(YStr "definition", YStr "foo")])
  else Raise (YAMLError "could not parse").

(** A schema that nothing satisfies. *)
Definition reject (y : yaml) : res string :=
  Raise (ValidationError "definition: Input should be a valid dictionary").

Definition plain : Sync.Collaborators unit string :=
  collaborators load reject (Ok []) (Ok tt) (Ok []) [] [].

(** Two workflow directories, none with a valid definition: an empty
    file and one whose [definition] is a string. *)
Definition two_files : content_map :=
  [("workflows/a/definition.yml", "");
   ("workflows/b/definition.yml", "definition: foo")].

Definition two_bad_files : Sync.Collaborators unit string :=
  collaborators load reject
    (Ok [("dir", "workflows/a"); ("file", "workflows/README.md");
         ("dir", "workflows/b")])
    (Ok tt) (Ok []) [] [].

(** A repository in which the update of an existing file is refused. *)
Definition update_refused_github : Sync.Collaborators unit string :=
  collaborators load reject (Ok []) (Raise (GithubException 409 "conflict")) (Ok []) [] [].

Definition update_refused_gitlab : Sync.Collaborators unit string :=
  collaborators load reject (Ok []) (Raise (GitlabError "409: conflict")) (Ok []) [] [].

(** A repository that cannot list its pull or merge requests. *)
Definition requests_unavailable_github : Sync.Collaborators unit string :=
  collaborators load reject (Ok []) (Ok tt)
    (Raise (GithubException 502 "bad gateway")) [] [].

Definition requests_unavailable_gitlab : Sync.Collaborators unit string :=
  collaborators load reject (Ok []) (Ok tt)
    (Raise (GitlabError "502: bad gateway")) [] [].

(** A provider that refuses the credentials when the content is
    fetched. *)
Definition fetch_refused : Sync.Collaborators unit string :=
  collaborators load reject (Raise (GithubException 401 "Bad credentials"))
    (Ok tt) (Ok []) [] [].

Definition one_object : list (PushObject string) :=
  [mkPushObject "wf_1" "workflows/wf_1/definition.yml"].

Definition publish : PushOptions := mkPushOptions None "publish" false.

Definition publish_with_request : PushOptions :=
  mkPushOptions None "publish" true.

(** A secret store that answers the first lookup and fails the second;
    its state counts the lookups. *)
Definition flaky_store : GitLabService.SecretsService nat :=
  {| GitLabService.get_org_secret_by_name := fun _ n =>
       match n with
       | O => (Ok (GitLabService.mkSecret "ciphertext" (Some "2025-01-01T00:00:00")), S n)
       | S _ => (Raise (OtherError "connection lost"), S n)
       end;
     GitLabService.decrypt_keys := fun _ =>
       Ok [("access_token", "glpat-token"); ("gitlab_url", "https://gitlab.example.com")] |}.

(** A branch with three commits, newest first, and three tags, two of
    them on the same commit. *)
Definition history : list Commit :=
  [mkCommit "c3" "third" (Some "Ada") (Some "ada@example.com") "2025-03-01";
   mkCommit "c2" "second" None None "2025-02-01";
   mkCommit "c1" "first" (Some "") (Some "") "2025-01-01"].

Definition release_tags : list Tag :=
  [mkTag "v2.0" "c3"; mkTag "v1.0" "c1"; mkTag "latest" "c3"].

Definition with_history : Sync.Collaborators unit string :=
  collaborators load reject (Ok []) (Ok tt) (Ok []) history release_tags.

(** A loader and a schema that take every file. *)
Definition load_mapping (content : string) : res yaml :=
  Ok (YDict [(YStr "definition", YDict [(YStr "title", YStr content)])]).

Definition validate_title (y : yaml) : res string :=
  match y with
  | YDict [(_, YDict [(_, YStr title)])] => Ok title
  | _ => Raise (ValidationError "definition: Field required")
  end.

Definition two_directories : res (list (string * string)) :=
  Ok [("dir", "workflows/a"); ("file", "workflows/README.md");
      ("dir", "workflows/b")].

(** Two workflow directories with valid definitions. *)
Definition two_valid_files : Sync.Collaborators unit string :=
  collaborators load_mapping validate_title two_directories (Ok tt) (Ok []) [] [].

(** One workflow directory whose definition is empty. *)
Definition one_empty_file : Sync.Collaborators unit string :=
  collaborators load reject (Ok [("dir", "workflows/a")]) (Ok tt) (Ok []) [] [].

Definition at_commit : option PullOptions :=
  Some (mkPullOptions (Some "0123abc") false).

Definition dry_run_at_commit : option PullOptions :=
  Some (mkPullOptions (Some "0123abc") true).

(** A GitLab project whose tree cannot be listed. *)
Definition tree_refused_gitlab : Sync.Collaborators unit string :=
  collaborators load reject (Raise (GitlabError "401: 401 Unauthorized"))
    (Ok tt) (Ok []) [] [].

(** Repositories without a [workflows] directory. *)
Definition no_workflows_github : Sync.Collaborators unit string :=
  collaborators load reject (Raise (GithubException 404 "Not Found"))
    (Ok tt) (Ok []) [] [].

Definition no_workflows_gitlab : Sync.Collaborators unit string :=
  collaborators load reject (Raise (GitlabError "404: 404 Tree Not Found"))
    (Ok tt) (Ok []) [] [].

(** The collaborators [base] with one provider call, chosen by its name
    in the trace, that raises [e] instead. *)
Definition failing (base : Sync.Collaborators unit string) (name : string)
    (e : exn) : Sync.Collaborators unit string :=
  let fails {A} (n : string) (f : unit -> res A * unit) : unit -> res A * unit :=
    if String.eqb n name then answer (Raise e) else f in
  {| Sync.safe_load := Sync.safe_load base;
     Sync.model_validate := Sync.model_validate base;
     Sync.yaml_dump := Sync.yaml_dump base;
     Sync.b64decode_utf8 := Sync.b64decode_utf8 base;
     Sync.workflow_id := Sync.workflow_id base;
     Sync.definition_title := Sync.definition_title base;
     Sync.import_workflows_atomic := fun wfs sha_ =>
       fails "import_workflows_atomic" (Sync.import_workflows_atomic base wfs sha_);
     Sync.get_workspace := fails "get_workspace" (Sync.get_workspace base);
     Sync.session_get_user := fails "session.get" (Sync.session_get_user base);
     Sync.get_github_client_for_repo := fun url =>
       fails "get_github_client_for_repo" (Sync.get_github_client_for_repo base url);
     Sync.gh_get_repo := fun n => fails "gh.get_repo" (Sync.gh_get_repo base n);
     Sync.gh_get_branch := fun b => fails "repo.get_branch" (Sync.gh_get_branch base b);
     Sync.gh_create_git_ref := fun r s =>
       fails "repo.create_git_ref" (Sync.gh_create_git_ref base r s);
     Sync.gh_get_contents := fun p r =>
       fails "repo.get_contents" (Sync.gh_get_contents base p r);
     Sync.gh_update_file := fun p m c b br =>
       fails "repo.update_file" (Sync.gh_update_file base p m c b br);
     Sync.gh_create_file := fun p m c br =>
       fails "repo.create_file" (Sync.gh_create_file base p m c br);
     Sync.gh_get_pulls := fun h b s =>
       fails "repo.get_pulls" (Sync.gh_get_pulls base h b s);
     Sync.gh_create_pull := fun t b h bs =>
       fails "repo.create_pull" (Sync.gh_create_pull base t b h bs);
     Sync.gh_get_commits := fun b =>
       fails "repo.get_commits" (Sync.gh_get_commits base b);
     Sync.gh_get_tags := fails "repo.get_tags" (Sync.gh_get_tags base);
     Sync.get_gitlab_client_for_repo := fun url =>
       fails "get_gitlab_client_for_repo" (Sync.get_gitlab_client_for_repo base url);
     Sync.gl_projects_get := fun n =>
       fails "gl.projects.get" (Sync.gl_projects_get base n);
     Sync.gl_branches_get := fun b =>
       fails "project.branches.get" (Sync.gl_branches_get base b);
     Sync.gl_branches_create := fun b r =>
       fails "project.branches.create" (Sync.gl_branches_create base b r);
     Sync.gl_repository_tree := fun p r =>
       fails "project.repository_tree" (Sync.gl_repository_tree base p r);
     Sync.gl_files_get := fun p r =>
       fails "project.files.get" (Sync.gl_files_get base p r);
     Sync.gl_file_save := fun p c b m =>
       fails "existing_file.save" (Sync.gl_file_save base p c b m);
     Sync.gl_files_create := fun p b c m =>
       fails "project.files.create" (Sync.gl_files_create base p b c m);
     Sync.gl_mergerequests_list := fun s t st =>
       fails "project.mergerequests.list" (Sync.gl_mergerequests_list base s t st);
     Sync.gl_mergerequests_create := fun s t ti d =>
       fails "project.mergerequests.create" (Sync.gl_mergerequests_create base s t ti d);
     Sync.gl_commits_list := fun b l =>
       fails "project.commits.list" (Sync.gl_commits_list base b l);
     Sync.gl_tags_list := fails "project.tags.list" (Sync.gl_tags_list base) |}.

(** A GitHub repository whose commits cannot be listed. *)
Definition commits_unavailable : Sync.Collaborators unit string :=
  failing with_history "repo.get_commits" (GithubException 403 "rate limit exceeded").

(** Secret stores: one without the GitLab secret, one that holds it. *)
Definition empty_store : GitLabService.SecretsService unit :=
  {| GitLabService.get_org_secret_by_name := fun _ =>
       answer (Raise (TracecatNotFoundError "Secret not found"));
     GitLabService.decrypt_keys := fun _ => Ok [] |}.

Definition filled_store : GitLabService.SecretsService unit :=
  {| GitLabService.get_org_secret_by_name := fun _ =>
       answer (Ok (GitLabService.mkSecret "ciphertext" (Some "2025-01-01T00:00:00")));
     GitLabService.decrypt_keys := fun _ =>
       Ok [("access_token", "glpat-token");
           ("gitlab_url", "https://gitlab.example.com")] |}.

(** An administrator whose writes succeed, but for the deletion. *)
Definition admin_writer (deleted : res unit) : GitLabAdmin.SecretsWriter unit :=
  {| GitLabAdmin.require_access_level := fun _ => answer (Ok tt);
     GitLabAdmin.create_org_secret := fun _ => answer (Ok tt);
     GitLabAdmin.update_org_secret := fun _ _ => answer (Ok tt);
     GitLabAdmin.delete_org_secret := fun _ => answer deleted |}.

End Scenario.

(** * Properties *)

Import Sync.

(** ** Inversion of computations *)

Section Inversion.
Context {W : Type}.

Lemma bind_Ok {A B} (m : Eff.M W A) (f : A -> Eff.M W B) st b st' :
  bind m f st = (Ok b, st') ->
  exists a st1, m st = (Ok a, st1) /\ f a st1 = (Ok b, st').
Proof.
  unfold bind. destruct (m st) as [[a|e] st1]; [eauto|discriminate].
Qed.

Lemma bind_Raise {A B} (m : Eff.M W A) (f : A -> Eff.M W B) st e st' :
  bind m f st = (Raise e, st') ->
  m st = (Raise e, st')
  \/ exists a st1, m st = (Ok a, st1) /\ f a st1 = (Raise e, st').
Proof.
  unfold bind. destruct (m st) as [[a|e0] st1]; [eauto|].
  intros [= <- <-]. now left.
Qed.

Lemma try_except_Ok {A} (m : Eff.M W A) (h : exn -> option (Eff.M W A))
    st a st' :
  try_except m h st = (Ok a, st') ->
  m st = (Ok a, st')
  \/ exists e st1 k, m st = (Raise e, st1) /\ h e = Some k /\ k st1 = (Ok a, st').
Proof.
  unfold try_except. destruct (m st) as [[a0|e] st1]; [now left|].
  destruct (h e) as [k|] eqn:Hh; [|discriminate].
  intros Hk. right. eauto 6.
Qed.

Lemma try_except_Raise {A} (m : Eff.M W A) (h : exn -> option (Eff.M W A))
    st e st' :
  try_except m h st = (Raise e, st') ->
  (m st = (Raise e, st') /\ h e = None)
  \/ exists e0 st1 k,
       m st = (Raise e0, st1) /\ h e0 = Some k /\ k st1 = (Raise e, st').
Proof.
  unfold try_except. destruct (m st) as [[a0|e0] st1]; [discriminate|].
  destruct (h e0) as [k|] eqn:Hh.
  - intros Hk. right. eauto 6.
  - intros [= <- <-]. now left.
Qed.

Lemma try_finally_inv {A} (m : Eff.M W A) (f : Eff.M W unit) st r st' :
  try_finally m f st = (r, st') ->
  exists st1, m st = (r, st1) /\ st' = snd (f st1).
Proof.
  unfold try_finally. destruct (m st) as [r0 st1]. intros [= <- <-]. eauto.
Qed.

Lemma call_inv {A} (name : string) (args : list string) (f : W -> res A * W)
    st r st' :
  call name args f st = (r, st') ->
  exists w', f (world st) = (r, w')
             /\ st' = Eff.mkState w' (trace st ++ [Call name args]).
Proof.
  unfold call. destruct (f (world st)) as [r0 w']. intros [= <- <-]. eauto.
Qed.
End Inversion.

(** ** The orchestrator's entry checks *)

Section EntryChecks.
Context {W R : Type} (C : Collaborators W R).

(** C9: [pull] without options, or with options whose [commit_sha] is
    missing or empty, returns at once: the world and the trace of calls
    are untouched, the result is a failure with no workflow found or
    imported and exactly one diagnostic, of type [validation]. *)
Theorem pull_without_commit_sha (url : GitUrl) (options : option PullOptions)
    (st : Eff.state W) :
  match options with
  | None => True
  | Some o => truthy (commit_sha o) = false
  end ->
  exists r d,
    pull C url options st = (Ok r, st)
    /\ success r = false
    /\ workflows_found r = 0
    /\ workflows_imported r = 0
    /\ diagnostics r = [d]
    /\ error_type d = validation.
Proof.
  intros H. exists commit_sha_required. eexists.
  unfold pull. destruct options as [o|].
  - rewrite H. cbn. repeat split; reflexivity.
  - cbn. repeat split; reflexivity.
Qed.

(** C10: [push] with no object or with more than one raises
    [ValueError] before the provider is detected and before any call
    (world and trace untouched); with exactly one object it goes on to
    detect the provider and to hand over to that adapter. *)
Theorem push_one_object_only (objects : list (PushObject R)) (url : GitUrl)
    (options : PushOptions) (st : Eff.state W) :
  (length objects <> 1 ->
     exists m, push C objects url options st = (Raise (ValueError m), st))
  /\ (length objects = 1 ->
        push C objects url options st
        = bind (_detect_provider url)
            (fun provider =>
               match provider with
               | GITLAB => _push_gitlab C objects url options
               | GITHUB => _push_github C objects url options
               end) st).
Proof.
  unfold push. split; intros H.
  - destruct (Nat.eqb_spec (length objects) 1) as [E|E]; [contradiction|].
    cbn. eexists. reflexivity.
  - rewrite H. reflexivity.
Qed.
End EntryChecks.

Lemma pull_without_commit_sha_witness :
  truthy (Some "") = false
  /\ exists r d,
       pull Scenario.plain Scenario.github_url
         (Some (mkPullOptions (Some "") false)) Scenario.start
       = (Ok r, Scenario.start)
       /\ success r = false
       /\ workflows_found r = 0
       /\ workflows_imported r = 0
       /\ diagnostics r = [d]
       /\ error_type d = validation.
Proof.
  split; [reflexivity|].
  apply (pull_without_commit_sha Scenario.plain Scenario.github_url
           (Some (mkPullOptions (Some "") false)) Scenario.start).
  reflexivity.
Defined.

Lemma push_one_object_only_witness :
  exists m,
    push Scenario.plain
      [mkPushObject "a" "workflows/a/definition.yml";
       mkPushObject "b" "workflows/b/definition.yml"]
      Scenario.github_url (mkPushOptions None "publish" true) Scenario.start
    = (Raise (ValueError m), Scenario.start).
Proof.
  apply (push_one_object_only Scenario.plain
           [mkPushObject "a" "workflows/a/definition.yml";
            mkPushObject "b" "workflows/b/definition.yml"]
           Scenario.github_url (mkPushOptions None "publish" true)
           Scenario.start).
  cbn. lia.
Defined.

(** ** Provider detection *)

Example detect_mixed_case :
  fst (_detect_provider (mkGitUrl "GitHub.Example.COM" "org" "repo" None SSH)
         Scenario.start) = Ok GITHUB.
Proof. reflexivity. Qed.

(** C7, as stated, fails: a host whose lowercased name contains
    [gitlab] is given to GitHub when it also contains [github]. *)
Lemma detect_provider_gitlab_and_github :
  let url := mkGitUrl "gitlab.github.example.com" "org" "repo" None HTTPS in
  contains "gitlab" (lower (host url)) = true
  /\ fst (_detect_provider url Scenario.start) <> Ok GITLAB.
Proof. cbv zeta. split; [reflexivity|]. vm_compute. discriminate. Qed.

Section Detection.
Context {W R : Type} (C : Collaborators W R).

(** C7, amended: the lowercased host is looked up for [github] first
    and for [gitlab] second.  It is GitHub when the host contains
    [github]; GitLab when it contains [gitlab] and not [github]; GitLab
    with one warning logged for every other host.  The three entry
    points hand over to the adapter of the detected provider. *)
Theorem detect_provider_rule (url : GitUrl) (st : Eff.state W) :
  let h := lower (host url) in
  (contains "github" h = true ->
     _detect_provider url st = (Ok GITHUB, st))
  /\ (contains "github" h = false -> contains "gitlab" h = true ->
        _detect_provider url st = (Ok GITLAB, st))
  /\ (contains "github" h = false -> contains "gitlab" h = false ->
        _detect_provider url st
        = (Ok GITLAB,
           Eff.mkState (world st)
             (trace st ++ [Log "warning" "Unknown VCS host, defaulting to GitLab"])))
  /\ (forall p st', _detect_provider url st = (Ok p, st') ->
        (forall sha_,
           _fetch_repository_content C url sha_ st
           = match p with
             | GITLAB => _fetch_repository_content_gitlab C url sha_ st'
             | GITHUB => _fetch_repository_content_github C url sha_ st'
             end)
        /\ (forall obj options,
              push C [obj] url options st
              = match p with
                | GITLAB => _push_gitlab C [obj] url options st'
                | GITHUB => _push_github C [obj] url options st'
                end)
        /\ (forall b limit,
              list_commits C url b limit st
              = match p with
                | GITLAB => _list_commits_gitlab C url b limit st'
                | GITHUB => _list_commits_github C url b limit st'
                end)).
Proof.
  cbv zeta. unfold _detect_provider.
  repeat split.
  - intros ->. reflexivity.
  - intros -> ->. reflexivity.
  - intros -> ->. reflexivity.
  - unfold _fetch_repository_content, bind. unfold _detect_provider.
    rewrite H. destruct p; reflexivity.
  - unfold push, bind. cbn [length Nat.eqb negb]. unfold _detect_provider.
    rewrite H. destruct p; reflexivity.
  - unfold list_commits, bind. unfold _detect_provider.
    rewrite H. destruct p; reflexivity.
Qed.

(** ** pull never raises *)

(** C4: whatever the adapters, the parser and the import service do,
    [pull] returns a result.  When the body of its [try] block raised
    [e], the result is a failure with exactly one diagnostic, of type
    [github] for a [GitHubAppError], [gitlab] for a [GitLabError] and
    [system] for everything else. *)
Theorem pull_never_raises (url : GitUrl) (options : option PullOptions)
    (st : Eff.state W) :
  exists r st',
    pull C url options st = (Ok r, st')
    /\ forall o e st1,
         options = Some o ->
         truthy (commit_sha o) = true ->
         pull_body C url o (default "" (commit_sha o)) st = (Raise e, st1) ->
         success r = false
         /\ workflows_imported r = 0
         /\ exists d,
              diagnostics r = [d]
              /\ error_type d
                 = if is_GitHubAppError e then github
                   else if is_GitLabError e then gitlab
                   else system.
Proof.
  unfold pull. destruct options as [o|].
  2:{ do 2 eexists. split; [reflexivity|]. intros; discriminate. }
  destruct (truthy (commit_sha o)) eqn:T; cbn [negb].
  2:{ do 2 eexists. split; [reflexivity|]. intros ? ? ? [= <-]. congruence. }
  unfold try_except.
  destruct (pull_body C url o (default "" (commit_sha o)) st) as [[r|e] st1] eqn:B.
  - do 2 eexists. split; [reflexivity|]. intros o' e st2 [= <-] _ B'. congruence.
  - unfold pull_handlers.
    destruct (is_GitHubAppError e) eqn:E1; [|destruct (is_GitLabError e) eqn:E2];
      cbn; do 2 eexists; (split; [reflexivity|]);
      intros o' e' st2 [= <-] _ B'; rewrite B in B'; injection B' as <- <-;
      rewrite ?E1, ?E2; cbn; eauto.
Qed.
End Detection.

(** *** The adapters hand provider-neutral errors to [pull] *)

Section Wrapping.
Context {W R : Type} (C : Collaborators W R).

(** An [except] clause that takes every exception of a class and raises
    one outside the class lets none of the class through. *)
Lemma try_except_wraps {A} (m : Eff.M W A) (h : exn -> option (Eff.M W A))
    (P : exn -> bool) (st st' : Eff.state W) (e : exn) :
  (forall e0, P e0 = true -> h e0 <> None) ->
  (forall e0 k, h e0 = Some k ->
     forall s e1 s1, k s = (Raise e1, s1) -> P e1 = false) ->
  try_except m h st = (Raise e, st') -> P e = false.
Proof.
  intros Hall Hout. unfold try_except.
  destruct (m st) as [[a|e0] st0]; [discriminate|].
  destruct (h e0) as [k|] eqn:Hh.
  - intros Hk. exact (Hout e0 k Hh _ _ _ Hk).
  - intros [= <- _]. destruct (P e0) eqn:HP; [|reflexivity].
    now destruct (Hall e0 HP).
Qed.

(** Once the GitHub client exists, no [GithubException] leaves the
    fetch: it is raised again as [GitHubAppError], which [pull] reports
    as a [github] diagnostic. *)
Lemma fetch_github_wraps (url : GitUrl) (sha_ : string)
    (st st' : Eff.state W) (e : exn) :
  _fetch_repository_content_github C url sha_ st = (Raise e, st') ->
  (exists w', get_github_client_for_repo C url (world st) = (Raise e, w'))
  \/ is_GithubException e = false.
Proof.
  unfold _fetch_repository_content_github, bind, call at 1.
  destruct (get_github_client_for_repo C url (world st)) as [[[]|e0] w1] eqn:Hc.
  2:{ intros [= <- _]. left. eauto. }
  unfold try_finally.
  destruct (try_except _ _ _) as [r st1] eqn:Ht. intros [= -> _]. right.
  eapply try_except_wraps; [| |exact Ht].
  - intros [] HP; discriminate.
  - intros [] k; try discriminate. intros [= <-] s e1 s1 [= <- _]. reflexivity.
Qed.

(** The same for GitLab: no [GitlabError] of the client library leaves
    the fetch. *)
Lemma fetch_gitlab_wraps (url : GitUrl) (sha_ : string)
    (st st' : Eff.state W) (e : exn) :
  _fetch_repository_content_gitlab C url sha_ st = (Raise e, st') ->
  (exists w', get_gitlab_client_for_repo C url (world st) = (Raise e, w'))
  \/ is_GitlabError e = false.
Proof.
  unfold _fetch_repository_content_gitlab, bind, call at 1.
  destruct (get_gitlab_client_for_repo C url (world st)) as [[[]|e0] w1] eqn:Hc.
  2:{ intros [= <- _]. left. eauto. }
  intros Ht. right.
  eapply try_except_wraps; [| |exact Ht].
  - intros [] HP; discriminate.
  - intros [] k; try discriminate. intros [= <-] s e1 s1 [= <- _]. reflexivity.
Qed.
End Wrapping.

Example pull_github_error :
  exists r st',
    pull Scenario.fetch_refused Scenario.github_url
      (Some (mkPullOptions (Some "0123abc") false)) Scenario.start = (Ok r, st')
    /\ success r = false
    /\ map error_type (diagnostics r) = [github].
Proof. do 2 eexists. split; [vm_compute; reflexivity|]. split; reflexivity. Qed.

(** ** Parsing of the fetched definitions *)

Section Parsing.
Context {W R : Type} (C : Collaborators W R).

Lemma parse_handlers_outcome (file_path : string) (y : option yaml)
    (wfs : list R) (diags : list PullDiagnostic) (e : exn) :
  (exists d, parse_handlers file_path y (wfs, diags) e = Ok (wfs, diags ++ [d])
             /\ workflow_path d = file_path)
  \/ (exists m, parse_handlers file_path y (wfs, diags) e = Raise (AttributeError m)).
Proof.
  unfold parse_handlers.
  destruct (is_YAMLError e); [left; eexists; split; reflexivity|].
  destruct (is_ValidationError e); [|left; eexists; split; reflexivity].
  unfold title_of.
  destruct y as [[| | | | |d]|]; try (left; eexists; split; reflexivity).
  destruct (default (YDict []) (dict_get "definition" d));
    try (right; eexists; reflexivity).
  left; eexists; split; reflexivity.
Qed.

Lemma parse_file_outcome (wfs : list R) (diags : list PullDiagnostic)
    (item : string * string) :
  (exists wf, parse_file C (wfs, diags) item = Ok (wfs ++ [wf], diags))
  \/ (exists d, parse_file C (wfs, diags) item = Ok (wfs, diags ++ [d])
                /\ workflow_path d = fst item)
  \/ (exists m, parse_file C (wfs, diags) item = Raise (AttributeError m)).
Proof.
  destruct item as [file_path content]. unfold parse_file.
  destruct (safe_load C content) as [y|e].
  - destruct (yaml_truthy y); cbn [negb].
    + destruct (model_validate C y) as [wf|e].
      * left. eauto.
      * right. apply parse_handlers_outcome.
    + right. left. eexists. split; reflexivity.
  - right. apply parse_handlers_outcome.
Qed.

(** What the parser does on every content map: either it returns, and
    then every file gave one definition or one diagnostic, the
    diagnostics in the order of the files; or it raises
    [AttributeError]. *)
Lemma parse_loop_outcome (cm : content_map) :
  forall (wfs : list R) (diags : list PullDiagnostic),
    (exists wfs' diags',
       parse_loop C (wfs, diags) cm = Ok (wfs ++ wfs', diags ++ diags')
       /\ length wfs' + length diags' = length cm
       /\ sublist (map workflow_path diags') (map fst cm))
    \/ (exists m, parse_loop C (wfs, diags) cm = Raise (AttributeError m)).
Proof.
  induction cm as [|item cm IH]; intros wfs diags.
  - left. exists [], []. rewrite !app_nil_r. repeat split. constructor.
  - cbn [parse_loop].
    destruct (parse_file_outcome wfs diags item)
      as [[wf ->]|[[d [-> Hd]]|[m ->]]].
    + destruct (IH (wfs ++ [wf]) diags) as [(wfs' & diags' & -> & Hl & Hs)|[m ->]].
      * left. exists (wf :: wfs'), diags'. rewrite <- app_assoc.
        repeat split; cbn; [lia|]. now apply sublist_cons.
      * right. eauto.
    + destruct (IH wfs (diags ++ [d])) as [(wfs' & diags' & -> & Hl & Hs)|[m ->]].
      * left. exists wfs', (d :: diags'). rewrite <- app_assoc.
        repeat split; cbn; [lia|]. rewrite Hd. now apply sublist_skip.
      * right. eauto.
    + right. eauto.
Qed.

(** C5 fails on the code: a file that loads as a dict whose
    [definition] is not a dict, and that the schema rejects, makes the
    [ValidationError] handler raise [AttributeError] while it looks for
    the title; the exception leaves [_parse_workflow_definitions], and
    the file gets neither a definition nor a diagnostic. *)
Theorem parse_definitions_raises (file_path content : string)
    (d : list (yaml * yaml)) (v : yaml) (m : string) :
  safe_load C content = Ok (YDict d) ->
  dict_get "definition" d = Some v ->
  match v with YDict _ => False | _ => True end ->
  model_validate C (YDict d) = Raise (ValidationError m) ->
  exists m', _parse_workflow_definitions C [(file_path, content)]
             = Raise (AttributeError m').
Proof.
  intros Hl Hd Hv Hm.
  unfold _parse_workflow_definitions. cbn [parse_loop]. unfold parse_file.
  rewrite Hl.
  assert (yaml_truthy (YDict d) = true) as ->.
  { destruct d; [discriminate Hd|reflexivity]. }
  cbn [negb]. rewrite Hm. unfold parse_handlers. cbn [is_YAMLError is_ValidationError].
  unfold title_of. rewrite Hd. cbn [default].
  destruct v; try contradiction; eexists; reflexivity.
Qed.
End Parsing.

Lemma parse_definitions_raises_witness :
  exists m', _parse_workflow_definitions Scenario.plain
               [("workflows/b/definition.yml", "definition: foo")]
             = Raise (AttributeError m').
Proof.
  apply (parse_definitions_raises Scenario.plain "workflows/b/definition.yml"
           "definition: foo" [(YStr "definition", YStr "foo")] (YStr "foo")
           "definition: Input should be a valid dictionary");
    [reflexivity | reflexivity | exact I | reflexivity].
Defined.

(** ** pull: all or nothing *)

Section Pull.
Context {W R : Type} (C : Collaborators W R).

(** X6: when the parser returns with at least one diagnostic, [pull] stops
    there: the result carries exactly the parser's diagnostics and
    imports nothing, and the state is the one the fetch left, so the
    import service was not called. *)
Lemma pull_aborts_on_diagnostics (url : GitUrl) (o : PullOptions)
    (st st1 : Eff.state W) (cm : content_map) (wfs : list R)
    (d : PullDiagnostic) (ds : list PullDiagnostic) :
  truthy (commit_sha o) = true ->
  _fetch_repository_content C url (default "" (commit_sha o)) st = (Ok cm, st1) ->
  _parse_workflow_definitions C cm = Ok (wfs, d :: ds) ->
  exists r,
    pull C url (Some o) st = (Ok r, st1)
    /\ success r = false
    /\ workflows_found r = length cm
    /\ workflows_imported r = 0
    /\ diagnostics r = d :: ds.
Proof.
  intros T F P. unfold pull. rewrite T. cbn [negb].
  unfold try_except, pull_body, bind. rewrite F. unfold lift. rewrite P.
  eexists. split; [reflexivity|]. repeat split.
Qed.
End Pull.

(** C2 fails on the code.  Two files are fetched and both are invalid:
    the first is empty, the second has a string as its [definition] and
    is rejected by the schema.  The claim has [pull] report two
    diagnostics; the parser raises on the second file, [pull] catches
    that, and the result has the single diagnostic of an unexpected
    error. *)
Theorem pull_two_bad_files :
  exists r st',
    pull Scenario.two_bad_files Scenario.github_url
      (Some (mkPullOptions (Some "0123abc") false)) Scenario.start
    = (Ok r, st')
    /\ success r = false
    /\ workflows_imported r = 0
    /\ map error_type (diagnostics r) = [system]
    /\ length (diagnostics r) <> length Scenario.two_files.
Proof.
  do 2 eexists. split; [vm_compute; reflexivity|].
  cbn. repeat split. discriminate.
Qed.

(** Each of the two files alone is a failing file. *)
Example first_file_fails :
  exists d, _parse_workflow_definitions Scenario.plain
              [("workflows/a/definition.yml", "")] = Ok ([], [d]).
Proof. eexists. reflexivity. Qed.

(** ** push: which errors reach the caller *)

(** C3 fails on the code for GitHub.  The file exists on the branch and
    its update is refused with status 409: [_push_github] catches the
    [GithubException], creates nothing because the status is not 404,
    and goes on to return the commit of the branch; nothing was
    written.  [_push_gitlab] re-raises in the same place. *)
Theorem push_github_swallows_update_error :
  fst (push Scenario.update_refused_github Scenario.one_object
         Scenario.github_url Scenario.publish Scenario.start)
  = Ok (mkCommitInfo "0123abc" "tracecat-sync/wf_1")
  /\ fst (push Scenario.update_refused_gitlab Scenario.one_object
            Scenario.gitlab_url Scenario.publish Scenario.start)
     = Raise (GitLabError "GitLab API error: 409: conflict").
Proof. split; vm_compute; reflexivity. Qed.

(** A failure while the pull or merge request is looked up is logged,
    and the push still returns the commit and the branch. *)
Example push_request_failure_swallowed :
  fst (push Scenario.requests_unavailable_github Scenario.one_object
         Scenario.github_url Scenario.publish_with_request Scenario.start)
  = Ok (mkCommitInfo "0123abc" "tracecat-sync/wf_1")
  /\ fst (push Scenario.requests_unavailable_gitlab Scenario.one_object
            Scenario.gitlab_url Scenario.publish_with_request Scenario.start)
     = Ok (mkCommitInfo "0123abc" "tracecat-sync/wf_1")
  /\ In (Log "error" "Failed to create/find PR via GitHub API")
       (trace (snd (push Scenario.requests_unavailable_github
                      Scenario.one_object Scenario.github_url
                      Scenario.publish_with_request Scenario.start))).
Proof. repeat split; vm_compute; auto 20. Qed.

(** The fetch of the two directories, and of a repository without a
    [workflows] directory. *)
Example fetch_two_files :
  fst (_fetch_repository_content Scenario.two_bad_files Scenario.github_url
         "0123abc" Scenario.start) = Ok Scenario.two_files.
Proof. vm_compute. reflexivity. Qed.

Example fetch_without_workflows :
  fst (_fetch_repository_content
         (Scenario.collaborators Scenario.load Scenario.reject
            (Raise (GithubException 404 "Not Found")) (Ok tt) (Ok []) [] [])
         Scenario.github_url "0123abc" Scenario.start) = Ok [].
Proof. vm_compute. reflexivity. Qed.

(** The calls of the failing push: the update is the last write that is
    tried. *)
Example push_github_calls :
  filter (fun ev => bool_decide (is_call ev = true))
    (trace (snd (push Scenario.update_refused_github Scenario.one_object
                   Scenario.github_url Scenario.publish Scenario.start)))
  = [Call "get_github_client_for_repo" ["git+ssh://git@github.com/org/repo.git"];
     Call "gh.get_repo" ["org/repo"];
     Call "repo.get_branch" ["main"];
     Call "repo.get_branch" ["tracecat-sync/wf_1"];
     Call "repo.get_contents" ["workflows/wf_1/definition.yml"; "tracecat-sync/wf_1"];
     Call "repo.update_file" ["workflows/wf_1/definition.yml"; "tracecat-sync/wf_1"];
     Call "repo.get_branch" ["tracecat-sync/wf_1"];
     Call "gh.close" []].
Proof. vm_compute. reflexivity. Qed.

(** ** GitLab credentials *)

Import GitLabService.

Section Credentials.
Context {W : Type} (svc : SecretsService W).

(** Every failure of the retrieval is turned into a [GitLabError]. *)
Lemma get_gitlab_credentials_error (st st' : Eff.state W) (e : exn) :
  get_gitlab_credentials svc st = (Raise e, st') -> is_GitLabError e = true.
Proof.
  unfold get_gitlab_credentials, try_except.
  destruct (bind _ _ st) as [[c|e0] st0]; [discriminate|].
  cbn. intros [= <- _]. reflexivity.
Qed.

(** When the retrieval fails, the status says that no credentials
    exist. *)
Lemma status_without_credentials (st st' : Eff.state W) (e : exn) :
  get_gitlab_credentials svc st = (Raise e, st') ->
  get_gitlab_credentials_status svc st = (Ok (mkStatus false None None), st').
Proof.
  intros H. pose proof (get_gitlab_credentials_error _ _ _ H) as G.
  unfold get_gitlab_credentials_status, try_except, bind. rewrite H, G.
  reflexivity.
Qed.

(** After a successful retrieval the status depends on the second
    lookup of the secret: its answer is reported, its exception is
    raised again unless it is a [GitLabError]. *)
Lemma status_with_credentials (st st1 : Eff.state W) (c : GitLabCredentials) :
  get_gitlab_credentials svc st = (Ok c, st1) ->
  match call "get_org_secret_by_name" [CREDENTIAL_SECRET_NAME]
          (get_org_secret_by_name svc CREDENTIAL_SECRET_NAME) st1 with
  | (Ok secret, st2) =>
      get_gitlab_credentials_status svc st
      = (Ok (mkStatus true (Some (gitlab_url c)) (created_at secret)), st2)
  | (Raise e, st2) =>
      get_gitlab_credentials_status svc st
      = if is_GitLabError e then (Ok (mkStatus false None None), st2)
        else (Raise e, st2)
  end.
Proof.
  intros H. unfold get_gitlab_credentials_status, try_except, bind. rewrite H.
  destruct (call _ _ _ st1) as [[secret|e] st2]; [reflexivity|].
  destruct (is_GitLabError e); reflexivity.
Qed.
End Credentials.

(** C8 fails on the code.  The status operation looks the secret up a
    second time, outside [get_gitlab_credentials]; when that lookup
    raises anything but a [GitLabError] the exception passes the
    [except GitLabError] clause and reaches the caller. *)
Theorem credentials_status_raises :
  fst (get_gitlab_credentials_status Scenario.flaky_store (Eff.mkState 0 []))
  = Raise (OtherError "connection lost")
  /\ fst (get_gitlab_credentials Scenario.flaky_store (Eff.mkState 0 []))
     = Ok (mkGitLabCredentials "glpat-token" "https://gitlab.example.com").
Proof. split; vm_compute; reflexivity. Qed.

(** ** list_commits *)

Section ListCommits.
Context {W R : Type} (C : Collaborators W R).

Lemma build_tag_mapping_from (ts : list Tag) :
  forall (m : gmap string (list string)) (s : string),
    default [] (foldl
      (fun (result_map : gmap string (list string)) tag =>
         let tag_sha := tag_commit tag in
         let result_map :=
           match result_map !! tag_sha with
           | None => <[tag_sha := []]> result_map
           | Some _ => result_map
           end in
         <[tag_sha := default [] (result_map !! tag_sha) ++ [tag_name tag]]>
           result_map) m ts !! s)
    = default [] (m !! s)
      ++ map tag_name (filter (fun t => tag_commit t = s) ts).
Proof.
  induction ts as [|t ts IH]; intros m s; cbn [foldl].
  - cbn. now rewrite app_nil_r.
  - rewrite IH. cbv zeta. rewrite filter_cons.
    destruct (decide (tag_commit t = s)) as [->|Hne].
    + rewrite lookup_insert_eq. simpl. rewrite <- app_assoc. f_equal.
      destruct (m !! s) eqn:E; rewrite ?lookup_insert_eq, ?E; reflexivity.
    + rewrite lookup_insert_ne by exact Hne.
      destruct (m !! tag_commit t) eqn:E; [reflexivity|].
      now rewrite lookup_insert_ne by exact Hne.
Qed.

(** The tags of a commit: the names of the tags recorded on its SHA, in
    the order of the tag list. *)
Lemma tags_of_commit (ts : list Tag) (s : string) :
  default [] (build_tag_mapping ts !! s)
  = map tag_name (filter (fun t => tag_commit t = s) ts).
Proof.
  unfold build_tag_mapping. rewrite build_tag_mapping_from.
  now rewrite lookup_empty.
Qed.

(** The GitHub loop takes commits while fewer than [limit] are taken. *)
Lemma collect_commits_take (m : gmap string (list string)) (limit : Z)
    (cs : list Commit) :
  forall (count : Z) (acc : list GitCommitInfo),
    (count <= limit)%Z ->
    collect_commits m limit count cs acc
    = acc ++ map (to_info m) (take (Z.to_nat (limit - count)) cs).
Proof.
  induction cs as [|c cs IH]; intros count acc Hc; cbn [collect_commits].
  - rewrite take_nil. cbn. now rewrite app_nil_r.
  - destruct (Z.geb_spec count limit) as [Hge|Hlt].
    + replace (limit - count)%Z with 0%Z by lia. cbn. now rewrite app_nil_r.
    + rewrite IH by lia.
      replace (Z.to_nat (limit - count)) with (S (Z.to_nat (limit - (count + 1))))
        by lia.
      cbn [take map]. now rewrite <- app_assoc.
Qed.

Lemma StronglySorted_take {A} (Rel : A -> A -> Prop) (l : list A) (n : nat) :
  StronglySorted Rel l -> StronglySorted Rel (take n l).
Proof.
  intros H. revert n. induction H as [|x l Hl IH Hx]; intros [|n]; cbn;
    try constructor.
  - apply IH.
  - now apply Forall_take.
Qed.

Lemma StronglySorted_to_info (m : gmap string (list string))
    (newer : string -> string -> Prop) (l : list Commit) :
  StronglySorted (fun a b => newer (c_date a) (c_date b)) l ->
  StronglySorted (fun a b => newer (date a) (date b)) (map (to_info m) l).
Proof.
  induction 1 as [|x l Hl IH Hx]; cbn [map]; constructor; [exact IH|].
  apply Forall_map. eapply Forall_impl; [exact Hx|]. cbn. auto.
Qed.
End ListCommits.


(** The GitLab adapter asks for one page of [limit] commits: of a
    branch with three commits it returns the two newest. *)
Example list_commits_gitlab_page :
  exists l st',
    list_commits Scenario.with_history Scenario.gitlab_url "main" 2
      Scenario.start = (Ok l, st')
    /\ map info_sha l = ["c3"; "c2"].
Proof. do 2 eexists. split; [vm_compute; reflexivity|]. reflexivity. Qed.

Section ListCommitsResult.
Context {W R : Type} (C : Collaborators W R).

Lemma list_commits_dispatch (url : GitUrl) (b : string) (limit : Z)
    (st : Eff.state W) :
  exists st0,
    world st0 = world st
    /\ list_commits C url b limit st
       = if contains "github" (lower (host url))
         then _list_commits_github C url b limit st0
         else _list_commits_gitlab C url b limit st0.
Proof.
  unfold list_commits, _detect_provider. cbv zeta.
  destruct (contains "github" _); [exists st; now split|].
  destruct (contains "gitlab" _); [exists st; now split|].
  eexists (Eff.mkState (world st) _). split; reflexivity.
Qed.

Lemma list_commits_github_inv (url : GitUrl) (b : string) (limit : Z)
    (st st' : Eff.state W) (l : list GitCommitInfo) :
  _list_commits_github C url b limit st = (Ok l, st') ->
  exists listing ts w2 w3 w4,
    gh_get_commits C b w2 = (Ok listing, w3)
    /\ gh_get_tags C w3 = (Ok ts, w4)
    /\ l = collect_commits (build_tag_mapping ts) limit 0 listing [].
Proof.
  unfold _list_commits_github. intros H.
  apply try_except_Ok in H. destruct H as [H|(e & st1 & k & _ & Hh & Hk)].
  2:{ destruct e; try discriminate. injection Hh as <-. discriminate Hk. }
  apply bind_Ok in H. destruct H as (u & st1 & _ & H).
  apply try_finally_inv in H. destruct H as (st2 & H & _).
  apply bind_Ok in H. destruct H as (db & st3 & _ & H).
  apply bind_Ok in H. destruct H as (listing & st4 & Hc & H).
  apply bind_Ok in H. destruct H as (ts & st5 & Ht & H).
  injection H as <- _.
  apply call_inv in Hc. destruct Hc as (w3 & Hc & ->).
  apply call_inv in Ht. destruct Ht as (w4 & Ht & _).
  exists listing, ts, (world st3), w3, w4. auto.
Qed.

Lemma list_commits_gitlab_inv (url : GitUrl) (b : string) (limit : Z)
    (st st' : Eff.state W) (l : list GitCommitInfo) :
  _list_commits_gitlab C url b limit st = (Ok l, st') ->
  exists listing ts w2 w3 w4,
    gl_commits_list C b limit w2 = (Ok listing, w3)
    /\ gl_tags_list C w3 = (Ok ts, w4)
    /\ l = map (to_info (build_tag_mapping ts)) (take (Z.to_nat limit) listing).
Proof.
  unfold _list_commits_gitlab. intros H.
  apply try_except_Ok in H. destruct H as [H|(e & st1 & k & _ & Hh & Hk)].
  2:{ destruct e; try discriminate. injection Hh as <-. discriminate Hk. }
  apply bind_Ok in H. destruct H as (u & st1 & _ & H).
  apply bind_Ok in H. destruct H as (db & st3 & _ & H).
  apply bind_Ok in H. destruct H as (page & st4 & Hc & H).
  apply bind_Ok in H. destruct H as (ts & st5 & Ht & H).
  injection H as <- _.
  apply call_inv in Hc. destruct Hc as (w3 & Hc & ->).
  apply call_inv in Ht. destruct Ht as (w4 & Ht & _).
  unfold one_page in Hc.
  destruct (gl_commits_list C b limit (world st3)) as [[listing|e] w] eqn:Hl;
    [|discriminate].
  injection Hc as <- <-.
  exists listing, ts, (world st3), w, w4. auto.
Qed.

Lemma take_length_take {A} (n : nat) (l : list A) :
  take (length (take n l)) l = take n l.
Proof.
  revert n. induction l as [|x l IH]; intros [|n]; cbn; [reflexivity..|].
  now rewrite IH.
Qed.

Lemma Forall2_map_same {A B} (P : A -> B -> Prop) (f : A -> B) (l : list A) :
  (forall x, P x (f x)) -> Forall2 P l (map f l).
Proof. intros H. induction l; cbn; constructor; auto. Qed.

End ListCommitsResult.


Example list_commits_tags :
  map (fun i => (info_sha i, author i, tags i))
    (map (to_info (build_tag_mapping Scenario.release_tags)) Scenario.history)
  = [("c3", "Ada", ["v2.0"; "latest"]);
     ("c2", "Unknown", []);
     ("c1", "Unknown", ["v1.0"])].
Proof. vm_compute. reflexivity. Qed.

(** ** The Git URL round trip *)

(** A reference with a slash, such as a branch [feature/x], is written
    by [to_url] and accepted by neither pattern: C1 does not hold for
    every [GitUrl]. *)
Lemma round_trip_ref_with_slash :
  let u := mkGitUrl "github.com" "org" "repo" (Some "feature/x") SSH in
  re_match GIT_SSH_URL_REGEX (to_url u) = None
  /\ re_match GIT_HTTPS_URL_REGEX (to_url u) = None
  /\ parse_git_url (to_url u) <> Some u.
Proof. cbv zeta. repeat split; vm_compute; congruence. Qed.

(** Neither does an empty reference come back: [to_url] leaves it out. *)
Example round_trip_empty_ref :
  parse_git_url (to_url (mkGitUrl "github.com" "org" "repo" (Some "") HTTPS))
  = Some (mkGitUrl "github.com" "org" "repo" None HTTPS).
Proof. vm_compute. reflexivity. Qed.

(** A repository of two segments does not come back either: the parser
    keeps the last segment only and gives the first to the
    organisation. *)
Example round_trip_repo_with_slash :
  parse_git_url (to_url (mkGitUrl "github.com" "org" "team/repo" None HTTPS))
  = Some (mkGitUrl "github.com" "org/team" "repo" None HTTPS).
Proof. vm_compute. reflexivity. Qed.

Lemma chars_app (a b : string) : chars (a +:+ b) = chars a ++ chars b.
Proof. induction a as [|c a IH]; simpl; [reflexivity|]. f_equal. exact IH. Qed.

Lemma strip_prefix_app (p s : list ascii) : strip_prefix p (p ++ s) = Some s.
Proof.
  induction p as [|c p IH]; cbn; [reflexivity|].
  now rewrite Ascii.eqb_refl.
Qed.

Lemma strip_prefix_inv (p s s' : list ascii) :
  strip_prefix p s = Some s' -> s = p ++ s'.
Proof.
  revert s. induction p as [|c p IH]; intros [|x s]; cbn; try congruence.
  destruct (Ascii.eqb_spec c x) as [->|]; [|discriminate].
  intros H. now rewrite (IH _ H).
Qed.

Lemma plus_greedy_unfold step n s e k :
  plus_greedy step n s e k
  = step s e (fun s' e' =>
      orelse (again n s s' (fun n' => plus_greedy step n' s' e' k)) (k s' e')).
Proof. destruct n; reflexivity. Qed.

Lemma plus_lazy_unfold step n s e k :
  plus_lazy step n s e k
  = step s e (fun s' e' =>
      orelse (k s' e') (again n s s' (fun n' => plus_lazy step n' s' e' k))).
Proof. destruct n; reflexivity. Qed.

(** Repetition of an expression that takes one character of a class. *)
Section OneCharacter.
Variable step : list ascii -> env -> cont -> option env.
Variable p : ascii -> bool.
Hypothesis step_char : forall s e k,
  step s e k = match s with
               | c :: s' => if p c then k s' e else None
               | [] => None
               end.

Lemma step_stops rest e k : stops p rest -> step rest e k = None.
Proof.
  rewrite step_char. destruct rest as [|c rest]; cbn; [reflexivity|].
  now intros ->.
Qed.

(** Greedy: the whole run is taken when the rest of the pattern matches
    after it. *)
Lemma plus_greedy_run (h rest : list ascii) (e : env) (k : cont) (x : env) :
  forallb p h = true -> h <> [] -> stops p rest ->
  k rest e = Some x ->
  forall n, length (h ++ rest) <= n ->
  plus_greedy step n (h ++ rest) e k = Some x.
Proof.
  intros Hp Hne Hstop Hk. induction h as [|c h IH]; [contradiction|].
  intros n Hn. cbn in Hp. apply andb_prop in Hp as [Hc Hp].
  rewrite plus_greedy_unfold, step_char. cbn [app]. rewrite Hc.
  destruct n as [|n]; [cbn in Hn; lia|].
  unfold again. cbn [length app]. rewrite (proj2 (Nat.ltb_lt _ _)) by lia.
  destruct h as [|c' h'].
  - cbn [app]. rewrite plus_greedy_unfold, step_stops by exact Hstop.
    exact Hk.
  - rewrite IH; [reflexivity|exact Hp|discriminate|]. cbn in Hn |- *. lia.
Qed.

(** Lazy: the run ends at the first place after which the rest of the
    pattern matches. *)
Lemma plus_lazy_run (h rest : list ascii) (e : env) (k : cont) (x : env) :
  forallb p h = true -> h <> [] ->
  k rest e = Some x ->
  (forall a b, h = a ++ b -> a <> [] -> b <> [] -> k (b ++ rest) e = None) ->
  forall n, length (h ++ rest) <= n ->
  plus_lazy step n (h ++ rest) e k = Some x.
Proof.
  intros Hp Hne Hk. induction h as [|c h IH]; [contradiction|].
  intros Hfail n Hn. cbn in Hp. apply andb_prop in Hp as [Hc Hp].
  rewrite plus_lazy_unfold, step_char. cbn [app]. rewrite Hc.
  destruct h as [|c' h'].
  - cbn [app]. now rewrite Hk.
  - rewrite (Hfail [c] (c' :: h')) by (reflexivity || discriminate).
    cbn [orelse]. destruct n as [|n]; [cbn in Hn; lia|].
    unfold again. cbn [length app]. rewrite (proj2 (Nat.ltb_lt _ _)) by lia.
    apply IH; [exact Hp|discriminate| |cbn in Hn |- *; lia].
    intros a b E Ha Hb. apply (Hfail (c :: a) b); [now rewrite E|discriminate|exact Hb].
Qed.
End OneCharacter.

Lemma mtch_NotIn (cs : list ascii) s e k :
  mtch (NotIn cs) s e k
  = match s with
    | c :: s' => if negb (mem c cs) then k s' e else None
    | [] => None
    end.
Proof. destruct s as [|c s]; cbn; [reflexivity|]. now destruct (mem c cs). Qed.

Lemma mtch_Digit s e k :
  mtch Digit s e k
  = match s with
    | c :: s' => if is_digit c then k s' e else None
    | [] => None
    end.
Proof. reflexivity. Qed.

Lemma wf_segment_inv (g : list ascii) :
  wf_segment g = true -> g <> [] /\ forallb segment_char g = true.
Proof.
  unfold wf_segment. intros H. apply andb_prop in H as [H1 H2].
  split; [|exact H2]. now destruct g.
Qed.

Lemma segment_char_slash (c : ascii) (g : list ascii) :
  forallb segment_char (c :: g) = true -> Ascii.eqb "/" c = false.
Proof.
  intros H.
  change (segment_char c && forallb segment_char g = true) in H.
  apply andb_prop in H as [H _].
  destruct (Ascii.eqb_spec "/"%char c) as [<-|]; [|reflexivity].
  vm_compute in H. discriminate H.
Qed.

Lemma forallb_app_r {A} (f : A -> bool) (a b : list A) :
  forallb f (a ++ b) = true -> forallb f b = true.
Proof. rewrite forallb_app. intros H. now apply andb_prop in H. Qed.

(** *** The path: lazy, so the shortest that lets the rest match *)

Section Path.
Local Abbreviation more segs := (concat (map (cons "/"%char) segs)).
Local Abbreviation slash_segment := (Seq (Lit "/") segment_pattern).

Lemma mtch_slash_segment (s : list ascii) (e : env) (k : cont) :
  mtch slash_segment s e k
  = match s with
    | c :: s' => if Ascii.eqb "/" c then mtch segment_pattern s' e k else None
    | [] => None
    end.
Proof.
  destruct s as [|c s]; [reflexivity|].
  change (mtch slash_segment (c :: s) e k)
    with (match (if Ascii.eqb "/" c then Some s else None) with
          | Some s' => mtch segment_pattern s' e k
          | None => None
          end).
  now destruct (Ascii.eqb "/" c).
Qed.

Lemma mtch_segment (s : list ascii) (e : env) (k : cont) :
  mtch segment_pattern s e k
  = plus_lazy (mtch (NotIn ["/"; "@"]%char)) (length s) s e k.
Proof. reflexivity. Qed.

Lemma mtch_path (s : list ascii) (e : env) (k : cont) :
  mtch path_pattern s e k
  = mtch segment_pattern s e
      (fun s' e' => plus_lazy (mtch slash_segment) (length s') s' e' k).
Proof. reflexivity. Qed.

Ltac len :=
  cbn [concat map app length] in *; rewrite ?length_app in *;
  cbn [length] in *; rewrite ?length_app in *; cbn [length] in *; lia.

Lemma slash_segment_no_slash (c : ascii) (g rest : list ascii) (e : env) (k : cont) n :
  forallb segment_char (c :: g) = true ->
  plus_lazy (mtch slash_segment) n ((c :: g) ++ rest) e k = None.
Proof.
  intros H. rewrite plus_lazy_unfold, mtch_slash_segment. cbn [app].
  now rewrite (segment_char_slash _ _ H).
Qed.

Lemma path_more (segs : list (list ascii)) :
  segs <> [] ->
  Forall (fun g => wf_segment g = true) segs ->
  forall (rest : list ascii) (e : env) (k : cont) (x : env),
    k rest e = Some x ->
    (forall a b, more segs = a ++ b -> a <> [] -> b <> [] ->
                 k (b ++ rest) e = None) ->
    forall n, length (more segs ++ rest) <= n ->
    plus_lazy (mtch slash_segment) n (more segs ++ rest) e k = Some x.
Proof.
  induction segs as [|g segs IH]; [contradiction|].
  intros _ Hwf rest e k x Hk Hfail n Hn.
  apply Forall_cons in Hwf as [Hg Hwf].
  apply wf_segment_inv in Hg as [Hne Hok].
  rewrite plus_lazy_unfold, mtch_slash_segment. cbn [concat map app].
  rewrite Ascii.eqb_refl, mtch_segment, <- app_assoc.
  apply (plus_lazy_run _ segment_char (mtch_NotIn _));
    [exact Hok|exact Hne| | |lia].
  - cbv beta. destruct segs as [|g' segs'].
    + cbn [concat map app]. now rewrite Hk.
    + rewrite (Hfail ("/"%char :: g) (more (g' :: segs')))
        by (reflexivity || discriminate).
      cbn [orelse]. destruct n as [|n]; [exfalso; len|].
      unfold again. rewrite (proj2 (Nat.ltb_lt _ _)) by len.
      apply IH; [discriminate|exact Hwf|exact Hk| |len].
      intros a b E Ha Hb. apply (Hfail (("/"%char :: g) ++ a) b);
        [|discriminate|exact Hb].
      change (("/"%char :: g) ++ more (g' :: segs') = (("/"%char :: g) ++ a) ++ b).
      now rewrite E, app_assoc.
  - intros a b E Ha Hb. cbv beta. rewrite (app_assoc b).
    rewrite (Hfail ("/"%char :: a) (b ++ more segs)), <- app_assoc.
    + cbn [orelse]. unfold again. destruct n as [|n]; [reflexivity|].
      destruct (_ <? _)%nat; [|reflexivity].
      destruct b as [|c b]; [contradiction|].
      apply slash_segment_no_slash.
      rewrite E in Hok. apply (forallb_app_r _ _ _ Hok).
    + cbn. now rewrite E, <- app_assoc.
    + discriminate.
    + destruct b; [contradiction|discriminate].
Qed.

Lemma path_first_match (g0 : list ascii) (segs : list (list ascii))
    (rest : list ascii) (e : env) (k : cont) (x : env) :
  wf_segment g0 = true ->
  segs <> [] ->
  Forall (fun g => wf_segment g = true) segs ->
  k rest e = Some x ->
  (forall a b, g0 ++ more segs = a ++ b -> a <> [] -> b <> [] ->
               k (b ++ rest) e = None) ->
  mtch path_pattern ((g0 ++ more segs) ++ rest) e k = Some x.
Proof.
  intros Hg0 Hne Hwf Hk Hfail.
  apply wf_segment_inv in Hg0 as [Hne0 Hok0].
  rewrite mtch_path, mtch_segment, <- app_assoc.
  apply (plus_lazy_run _ segment_char (mtch_NotIn _));
    [exact Hok0|exact Hne0| | |lia].
  - apply path_more; [exact Hne|exact Hwf|exact Hk| |lia].
    intros a b E Ha Hb. apply (Hfail (g0 ++ a) b);
      [now rewrite E, <- app_assoc|now destruct g0|exact Hb].
  - intros a b E Ha Hb. cbv beta. destruct b as [|c b]; [contradiction|].
    apply slash_segment_no_slash.
    rewrite E in Hok0. apply (forallb_app_r _ _ _ Hok0).
Qed.
End Path.

(** *** The suffix: [.git], the reference, the end *)

Lemma mtch_Seq r1 r2 s e k :
  mtch (Seq r1 r2) s e k = mtch r1 s e (fun s' e' => mtch r2 s' e' k).
Proof. reflexivity. Qed.

Lemma mtch_Opt r s e k : mtch (Opt r) s e k = orelse (mtch r s e k) (k s e).
Proof. reflexivity. Qed.

Lemma mtch_Lit l s e k :
  mtch (Lit l) s e k
  = match strip_prefix (chars l) s with Some s' => k s' e | None => None end.
Proof. reflexivity. Qed.

Lemma mtch_Lit_app l s e k : mtch (Lit l) (chars l ++ s) e k = k s e.
Proof. now rewrite mtch_Lit, strip_prefix_app. Qed.

Lemma mtch_Group_Plus g r s e k :
  mtch (Group g (Plus r)) s e k
  = plus_greedy (mtch r) (length s) s e
      (fun s' e' => k s' ((g, take (length s - length s') s) :: e')).
Proof. reflexivity. Qed.

Lemma take_consumed (h rest : list ascii) :
  take (length (h ++ rest) - length rest) (h ++ rest) = h.
Proof.
  rewrite length_app, Nat.add_sub. apply take_app_length.
Qed.

(** What is left after the reference: nothing but the end. *)
Lemma reference_and_end_fail (c : ascii) (w : list ascii) (e : env) :
  Ascii.eqb "@" c = false ->
  w <> [] \/ Ascii.eqb c newline = false ->
  mtch (Seq reference_pattern Eol) (c :: w) e accept = None.
Proof.
  intros Hat Hend. unfold reference_pattern.
  rewrite mtch_Seq, mtch_Opt, mtch_Seq, mtch_Lit.
  change (strip_prefix (chars "@") (c :: w))
    with (if Ascii.eqb "@" c then Some w else None).
  rewrite Hat. cbn [orelse]. cbn [mtch].
  destruct w as [|c' w]; [|reflexivity].
  destruct Hend as [H|H]; [contradiction|]. now rewrite H.
Qed.

(** After a path that stops too early the suffix does not match: what
    is left of the path is in the way. *)
Lemma suffix_fail (b : list ascii) (r : option (list ascii)) (e : env) :
  b <> [] ->
  forallb not_at b = true ->
  mtch suffix_pattern
    (b ++ chars ".git" ++ match r with Some g => "@"%char :: g | None => [] end)
    e accept = None.
Proof.
  intros Hne Hb. unfold suffix_pattern. rewrite mtch_Seq, mtch_Opt, mtch_Lit.
  set (tl := match r with Some g => "@"%char :: g | None => [] end).
  assert (Hdirect : mtch (Seq reference_pattern Eol) (b ++ chars ".git" ++ tl) e accept
                    = None).
  { destruct b as [|c b]; [contradiction|]. cbn [app].
    apply reference_and_end_fail.
    - cbn in Hb. apply andb_prop in Hb as [Hc _]. unfold not_at in Hc.
      now destruct (Ascii.eqb "@" c).
    - left. now destruct b. }
  rewrite Hdirect.
  destruct (strip_prefix (chars ".git") (b ++ chars ".git" ++ tl)) as [s1|] eqn:E;
    [|reflexivity].
  apply strip_prefix_inv in E. cbn [orelse].
  replace (orelse (mtch (Seq reference_pattern Eol) s1 e accept) None)
    with (mtch (Seq reference_pattern Eol) s1 e accept)
    by now destruct (mtch _ s1 e accept).
  cbn [chars String.list_ascii_of_string app] in E.
  destruct b as [|b0 [|b1 [|b2 [|b3 b4]]]]; [contradiction|..];
    cbn [app] in E; try (injection E as; congruence).
  injection E as -> -> -> -> <-.
  destruct b4 as [|c b4]; cbn [app].
  - apply reference_and_end_fail; [reflexivity|left; discriminate].
  - apply reference_and_end_fail.
    + change (forallb not_at (chars ".git" ++ c :: b4) = true) in Hb.
      apply forallb_app_r in Hb. cbn [forallb] in Hb.
      apply andb_prop in Hb as [Hc _]. unfold not_at in Hc.
      now destruct (Ascii.eqb "@" c).
    + left. now destruct b4.
Qed.

(** After the whole path the suffix matches, and the reference is the
    text after [@]. *)
Lemma suffix_match (r : option (list ascii)) (e : env) :
  match r with Some g => wf_segment g = true | None => True end ->
  mtch suffix_pattern
    (chars ".git" ++ match r with Some g => "@"%char :: g | None => [] end)
    e accept
  = Some (match r with Some g => ("ref", g) :: e | None => e end).
Proof.
  intros Hr. unfold suffix_pattern.
  rewrite mtch_Seq, mtch_Opt, mtch_Lit_app, mtch_Seq.
  unfold reference_pattern. rewrite mtch_Opt, mtch_Seq.
  destruct r as [g|].
  - apply wf_segment_inv in Hr as [Hne Hok].
    change ("@"%char :: g) with (chars "@" ++ g).
    rewrite mtch_Lit_app, mtch_Group_Plus.
    rewrite <- (app_nil_r g) at 2.
    rewrite (plus_greedy_run _ segment_char (mtch_NotIn _) g [] e _
               (("ref", g) :: e)); [reflexivity|exact Hok|exact Hne|exact I| |].
    + cbn [mtch accept length]. now rewrite Nat.sub_0_r, firstn_all.
    + now rewrite app_nil_r.
  - reflexivity.
Qed.

(** *** The whole pattern on a canonical URL *)

Lemma mtch_Group g r s e k :
  mtch (Group g r) s e k
  = mtch r s e (fun s' e' => k s' ((g, take (length s - length s') s) :: e')).
Proof. reflexivity. Qed.

Lemma segment_char_not_at (g : list ascii) :
  forallb segment_char g = true -> forallb not_at g = true.
Proof.
  induction g as [|c g IH]; [reflexivity|]. cbn [forallb]. intros H.
  apply andb_prop in H as [Hc Hg]. rewrite (IH Hg), andb_true_r.
  unfold not_at. destruct (Ascii.eqb_spec "@"%char c) as [<-|]; [|reflexivity].
  vm_compute in Hc. discriminate Hc.
Qed.

Section WholePattern.
Local Abbreviation more segs := (concat (map (cons "/"%char) segs)).
Local Abbreviation ref_text r :=
  (match r with Some g => "@"%char :: g | None => [] end).
Local Abbreviation ref_group r :=
  (match r with Some g => [("ref", g)] | None => [] end).
Local Abbreviation port_text port :=
  (match port with Some ds => ":"%char :: ds | None => [] end).
Local Abbreviation port_group port :=
  (match port with Some ds => [("port", ds)] | None => [] end).

Lemma path_not_at (g0 : list ascii) (segs : list (list ascii)) :
  wf_segment g0 = true ->
  Forall (fun g => wf_segment g = true) segs ->
  forallb not_at (g0 ++ more segs) = true.
Proof.
  intros Hg0 Hwf. apply wf_segment_inv in Hg0 as [_ Hg0].
  rewrite forallb_app, (segment_char_not_at _ Hg0). cbn [andb].
  induction Hwf as [|g segs Hg Hwf IH]; [reflexivity|].
  apply wf_segment_inv in Hg as [_ Hg].
  cbn [map concat app forallb]. rewrite forallb_app.
  now rewrite (segment_char_not_at _ Hg), IH.
Qed.

Lemma path_and_suffix_match (g0 : list ascii) (segs : list (list ascii))
    (r : option (list ascii)) (e : env) :
  wf_segment g0 = true ->
  segs <> [] ->
  Forall (fun g => wf_segment g = true) segs ->
  match r with Some g => wf_segment g = true | None => True end ->
  mtch (Seq (Lit "/") (Seq (Group "path" path_pattern) suffix_pattern))
    ("/"%char :: (g0 ++ more segs) ++ chars ".git" ++ ref_text r) e accept
  = Some (ref_group r ++ ("path", g0 ++ more segs) :: e).
Proof.
  intros Hg0 Hne Hwf Hr.
  change ("/"%char :: (g0 ++ more segs) ++ chars ".git" ++ ref_text r)
    with (chars "/" ++ (g0 ++ more segs) ++ chars ".git" ++ ref_text r).
  rewrite mtch_Seq, mtch_Lit_app, mtch_Seq, mtch_Group.
  apply path_first_match; [exact Hg0|exact Hne|exact Hwf| |].
  - cbv beta. rewrite take_consumed, suffix_match by exact Hr.
    now destruct r.
  - intros a b E Ha Hb. cbv beta. apply suffix_fail; [exact Hb|].
    pose proof (path_not_at g0 segs Hg0 Hwf) as H. rewrite E in H.
    apply (forallb_app_r _ _ _ H).
Qed.

Lemma port_path_and_suffix_match (port : option (list ascii)) (g0 : list ascii)
    (segs : list (list ascii)) (r : option (list ascii)) (e : env) :
  match port with Some ds => wf_port ds = true | None => True end ->
  wf_segment g0 = true ->
  segs <> [] ->
  Forall (fun g => wf_segment g = true) segs ->
  match r with Some g => wf_segment g = true | None => True end ->
  mtch (Seq port_pattern
          (Seq (Lit "/") (Seq (Group "path" path_pattern) suffix_pattern)))
    (port_text port
     ++ "/"%char :: (g0 ++ more segs) ++ chars ".git" ++ ref_text r) e accept
  = Some (ref_group r ++ ("path", g0 ++ more segs) :: port_group port ++ e).
Proof.
  intros Hport Hg0 Hne Hwf Hr.
  rewrite mtch_Seq. unfold port_pattern. rewrite mtch_Opt, mtch_Seq.
  destruct port as [ds|].
  - unfold wf_port in Hport. apply andb_prop in Hport as [Hds Hdig].
    change ((":"%char :: ds) ++ ?t) with (chars ":" ++ ds ++ t).
    rewrite mtch_Lit_app, mtch_Group_Plus.
    rewrite (plus_greedy_run _ is_digit mtch_Digit ds _ e _
               (ref_group r ++ ("path", g0 ++ more segs) :: ("port", ds) :: e));
      [reflexivity|exact Hdig|now destruct ds|reflexivity| |lia].
    rewrite take_consumed. now apply path_and_suffix_match.
  - cbn [app]. rewrite mtch_Lit.
    change (strip_prefix (chars ":") ("/"%char :: ?t)) with (@None (list ascii)).
    cbn [orelse]. now apply path_and_suffix_match.
Qed.

Lemma git_url_match (prefix : string) (name : list ascii)
    (port : option (list ascii)) (g0 : list ascii) (segs : list (list ascii))
    (r : option (list ascii)) :
  wf_host_name name = true ->
  match port with Some ds => wf_port ds = true | None => True end ->
  wf_segment g0 = true ->
  segs <> [] ->
  Forall (fun g => wf_segment g = true) segs ->
  match r with Some g => wf_segment g = true | None => True end ->
  mtch (git_url_regex prefix)
    (chars prefix ++ name ++ port_text port
     ++ "/"%char :: (g0 ++ more segs) ++ chars ".git" ++ ref_text r) [] accept
  = Some (ref_group r ++ ("path", g0 ++ more segs)
          :: port_group port ++ [("host", name)]).
Proof.
  intros Hname Hport Hg0 Hne Hwf Hr.
  unfold wf_host_name in Hname. apply andb_prop in Hname as [Hn Hchars].
  unfold git_url_regex. rewrite mtch_Seq, mtch_Lit_app, mtch_Seq.
  unfold host_pattern. rewrite mtch_Group_Plus.
  apply (plus_greedy_run _ host_char (mtch_NotIn _));
    [exact Hchars|now destruct name|now destruct port| |lia].
  rewrite take_consumed. now apply port_path_and_suffix_match.
Qed.
End WholePattern.

(** *** From well-formed fields to the canonical text and back *)

Lemma text_chars (s : string) : text (chars s) = s.
Proof. apply String.string_of_list_ascii_of_string. Qed.

Lemma text_app (a b : list ascii) : text (a ++ b) = text a +:+ text b.
Proof. induction a as [|c a IH]; simpl; [reflexivity|]. now rewrite IH. Qed.

Lemma split_on_spec (c : ascii) (s : list ascii) :
  exists g gs,
    split_on c s = g :: gs /\ s = g ++ concat (map (cons c) gs).
Proof.
  induction s as [|x s (g & gs & E & Hs)].
  - exists [], []. split; reflexivity.
  - cbn [split_on]. destruct (Ascii.eqb_spec x c) as [->|Hne].
    + exists [], (g :: gs). rewrite E. split; [reflexivity|].
      cbn [map concat app]. now rewrite <- Hs.
    + rewrite E. exists (x :: g), gs. split; [reflexivity|].
      cbn [app]. now rewrite <- Hs.
Qed.

Lemma rsplit_none (c : ascii) (r : list ascii) :
  forallb (fun x => negb (Ascii.eqb x c)) r = true -> rsplit c r = None.
Proof.
  induction r as [|x r IH]; [reflexivity|]. cbn [forallb rsplit]. intros H.
  apply andb_prop in H as [Hx Hr]. rewrite (IH Hr).
  now destruct (Ascii.eqb x c).
Qed.

Lemma rsplit_app (c : ascii) (o r : list ascii) :
  forallb (fun x => negb (Ascii.eqb x c)) r = true ->
  rsplit c (o ++ c :: r) = Some (o, r).
Proof.
  intros Hr. induction o as [|x o IH]; cbn [app rsplit].
  - now rewrite (rsplit_none _ _ Hr), Ascii.eqb_refl.
  - now rewrite IH.
Qed.

Lemma segment_char_no_slash (g : list ascii) :
  forallb segment_char g = true ->
  forallb (fun x => negb (Ascii.eqb x "/")) g = true.
Proof.
  induction g as [|c g IH]; [reflexivity|]. cbn [forallb]. intros H.
  apply andb_prop in H as [Hc Hg]. rewrite (IH Hg), andb_true_r.
  destruct (Ascii.eqb_spec c "/"%char) as [->|]; [|reflexivity].
  vm_compute in Hc. discriminate Hc.
Qed.

Lemma wf_host_inv (h : list ascii) :
  wf_host h = true ->
  exists name port,
    h = name ++ match port with Some ds => ":"%char :: ds | None => [] end
    /\ wf_host_name name = true
    /\ match port with Some ds => wf_port ds = true | None => True end.
Proof.
  unfold wf_host. destruct (split_on_spec ":" h) as (g & gs & -> & Hs).
  destruct gs as [|ds [|? ?]]; [| |discriminate].
  - intros H. exists g, None. cbn [map concat] in Hs.
    rewrite Hs. auto.
  - intros H. apply andb_prop in H as [Hg Hds]. exists g, (Some ds).
    cbn [map concat] in Hs. rewrite app_nil_r in Hs. auto.
Qed.

Lemma wf_org_inv (o : list ascii) :
  forallb wf_segment (split_on "/" o) = true ->
  exists g0 segs,
    o = g0 ++ concat (map (cons "/"%char) segs)
    /\ wf_segment g0 = true
    /\ Forall (fun g => wf_segment g = true) segs.
Proof.
  destruct (split_on_spec "/" o) as (g & gs & -> & Hs).
  cbn [forallb]. intros H. apply andb_prop in H as [Hg Hgs].
  exists g, gs. repeat split; [exact Hs|exact Hg|].
  apply Forall_forall. intros x Hx. rewrite forallb_forall in Hgs.
  apply Hgs. now apply list_elem_of_In.
Qed.

(** The canonical text of a well-formed URL, character by character. *)
Lemma to_url_chars (u : GitUrl) :
  match ref u with Some r => wf_segment (chars r) = true | None => True end ->
  chars (to_url u)
  = chars (match scheme u with SSH => "git+ssh://git@" | HTTPS => "https://" end)
    ++ chars (host u)
    ++ "/"%char :: (chars (org u) ++ "/"%char :: chars (repo u))
    ++ chars ".git"
    ++ match ref u with Some r => "@"%char :: chars r | None => [] end.
Proof.
  destruct u as [h o r rf sch]. cbn [ref scheme host org repo]. intros Hrf.
  unfold to_url. cbn [ref scheme host org repo].
  destruct rf as [rf|].
  - apply wf_segment_inv in Hrf as [Hne _].
    destruct rf as [|c rf]; [now contradiction Hne|]. cbn [truthy].
    destruct sch; rewrite !chars_app, <- !app_assoc; reflexivity.
  - destruct sch; rewrite !chars_app, <- ?app_assoc, ?app_nil_r; reflexivity.
Qed.

Lemma group_host (r port : list (string * list ascii)) (p name : list ascii) :
  (forall g v, In (g, v) r -> g = "ref") ->
  (forall g v, In (g, v) port -> g = "port") ->
  group "host" (r ++ ("path", p) :: port ++ [("host", name)]) = Some name
  /\ group "path" (r ++ ("path", p) :: port ++ [("host", name)]) = Some p.
Proof.
  intros Hr Hport. split.
  - induction r as [|[g v] r IH].
    + cbn [app]. change (group "host" (("path", p) :: port ++ [("host", name)]))
        with (group "host" (port ++ [("host", name)])).
      clear Hr. induction port as [|[g v] port IH]; [reflexivity|].
      rewrite (Hport g v) by (left; reflexivity). cbn [app].
      change (group "host" (("port", v) :: port ++ [("host", name)]))
        with (group "host" (port ++ [("host", name)])).
      apply IH. intros g' v' Hin. apply (Hport g' v'). now right.
    + rewrite (Hr g v) by (left; reflexivity). cbn [app].
      change (group "host" (("ref", v) :: r ++ ("path", p) :: port ++ [("host", name)]))
        with (group "host" (r ++ ("path", p) :: port ++ [("host", name)])).
      apply IH. intros g' v' Hin. apply (Hr g' v'). now right.
  - induction r as [|[g v] r IH]; [reflexivity|].
    rewrite (Hr g v) by (left; reflexivity). cbn [app].
    change (group "path" (("ref", v) :: r ++ ("path", p) :: port ++ [("host", name)]))
      with (group "path" (r ++ ("path", p) :: port ++ [("host", name)])).
    apply IH. intros g' v' Hin. apply (Hr g' v'). now right.
Qed.

(** C1, amended: a [GitUrl] whose fields are well formed comes back
    from its canonical text: parsing [to_url u] gives [u], for both
    schemes, with or without a port in the host, with or without a
    reference, and for an organisation of any number of segments. *)
Theorem git_url_round_trip (u : GitUrl) :
  wf_git_url u = true -> parse_git_url (to_url u) = Some u.
Proof.
  intros H. unfold wf_git_url in H.
  apply andb_prop in H as [H Hrf]. apply andb_prop in H as [H Hr].
  apply andb_prop in H as [Hh Ho].
  assert (Hrf' : match ref u with
                 | Some r => wf_segment (chars r) = true
                 | None => True
                 end) by (destruct (ref u); auto).
  pose proof (to_url_chars u Hrf') as Hc.
  destruct (wf_host_inv _ Hh) as (name & port & Eh & Hname & Hport).
  destruct (wf_org_inv _ Ho) as (g0 & segs & Eo & Hg0 & Hsegs).
  assert (Ep : chars (org u) ++ "/"%char :: chars (repo u)
               = g0 ++ concat (map (cons "/"%char) (segs ++ [chars (repo u)]))).
  { rewrite Eo, map_app, concat_app. cbn [map concat].
    now rewrite app_nil_r, <- app_assoc. }
  assert (Hsegs' : Forall (fun g => wf_segment g = true) (segs ++ [chars (repo u)])).
  { apply Forall_app. split; [exact Hsegs|]. now constructor. }
  assert (Hm : forall prefix,
    mtch (git_url_regex prefix)
      (chars prefix ++ chars (host u)
       ++ "/"%char :: (chars (org u) ++ "/"%char :: chars (repo u))
       ++ chars ".git"
       ++ match ref u with Some r => "@"%char :: chars r | None => [] end)
      [] accept
    = Some (match ref u with Some r => [("ref", chars r)] | None => [] end
            ++ ("path", chars (org u) ++ "/"%char :: chars (repo u))
            :: match port with Some ds => [("port", ds)] | None => [] end
            ++ [("host", name)])).
  { intros prefix. rewrite Ep, Eh, <- app_assoc.
    destruct (ref u) as [rf|].
    - apply (git_url_match prefix name port g0 _ (Some (chars rf)));
        auto. now destruct segs.
    - apply (git_url_match prefix name port g0 _ None); auto. now destruct segs. }
  assert (Hg : git_url_of_match (scheme u)
                 (match ref u with Some r => [("ref", chars r)] | None => [] end
                  ++ ("path", chars (org u) ++ "/"%char :: chars (repo u))
                  :: match port with Some ds => [("port", ds)] | None => [] end
                  ++ [("host", name)])
               = Some u).
  { unfold git_url_of_match.
    destruct (group_host
                (match ref u with Some r => [("ref", chars r)] | None => [] end)
                (match port with Some ds => [("port", ds)] | None => [] end)
                (chars (org u) ++ "/"%char :: chars (repo u)) name) as [-> ->].
    { destruct (ref u); [intros g v [[= <- _]|[]]; reflexivity|intros g v []]. }
    { destruct port; [intros g v [[= <- _]|[]]; reflexivity|intros g v []]. }
    apply wf_segment_inv in Hr as [_ Hr].
    rewrite (rsplit_app _ _ _ (segment_char_no_slash _ Hr)).
    rewrite !text_chars.
    assert (Ehost : match group "port"
                            (match ref u with Some r => [("ref", chars r)] | None => [] end
                             ++ ("path", chars (org u) ++ "/"%char :: chars (repo u))
                             :: match port with Some ds => [("port", ds)] | None => [] end
                             ++ [("host", name)])
                    with
                    | Some n => text name +:+ ":" +:+ text n
                    | None => text name
                    end = host u).
    { rewrite <- (text_chars (host u)), Eh.
      destruct (ref u), port; cbn [app]; rewrite ?app_nil_r;
        try reflexivity; now rewrite text_app. }
    rewrite Ehost.
    assert (Eref : option_map text
                     (group "ref"
                        (match ref u with Some r => [("ref", chars r)] | None => [] end
                         ++ ("path", chars (org u) ++ "/"%char :: chars (repo u))
                         :: match port with Some ds => [("port", ds)] | None => [] end
                         ++ [("host", name)]))
                   = ref u).
    { destruct (ref u) as [rf|], port; cbn [app]; try reflexivity;
        change (option_map text (Some (chars rf)) = Some rf);
        cbn [option_map]; now rewrite text_chars. }
    rewrite Eref. now destruct u. }
  unfold parse_git_url, re_match, GIT_SSH_URL_REGEX, GIT_HTTPS_URL_REGEX.
  rewrite Hc. destruct (scheme u) eqn:Es.
  - rewrite Hm. exact Hg.
  - unfold git_url_regex at 1. rewrite mtch_Seq, mtch_Lit.
    change (strip_prefix (chars "git+ssh://git@") (chars "https://" ++ ?t))
      with (@None (list ascii)).
    rewrite Hm. exact Hg.
Qed.

Lemma git_url_round_trip_witness :
  let u := mkGitUrl "gitlab.example.com:2222" "group/subgroup" "repo.git"
             (Some "v1.0") SSH in
  wf_git_url u = true /\ parse_git_url (to_url u) = Some u.
Proof.
  cbv zeta. split; [reflexivity|].
  apply (git_url_round_trip
           (mkGitUrl "gitlab.example.com:2222" "group/subgroup" "repo.git"
              (Some "v1.0") SSH)).
  reflexivity.
Defined.
Example parse_ssh :
  parse_git_url "git+ssh://git@gitlab.example.com:2222/grp/sub/repo.git@main"
  = Some (mkGitUrl "gitlab.example.com:2222" "grp/sub" "repo" (Some "main") SSH).
Proof. vm_compute. reflexivity. Qed.

Example parse_https :
  parse_git_url "https://github.com/org/repo"
  = Some (mkGitUrl "github.com" "org" "repo" None HTTPS).
Proof. vm_compute. reflexivity. Qed.

Example parse_git_git :
  parse_git_url "https://github.com/org/a.git.git"
  = Some (mkGitUrl "github.com" "org" "a.git" None HTTPS).
Proof. vm_compute. reflexivity. Qed.

(** * Further properties of the code *)

(** ** The parser of definitions *)

Section ParserProperties.
Context {W R : Type} (C : Collaborators W R).

Lemma parse_handlers_acc (file_path : string) (y : option yaml)
    (wfs : list R) (diags : list PullDiagnostic) (e : exn) :
  parse_handlers file_path y (wfs, diags) e
  = match parse_handlers file_path y ([], []) e with
    | Ok (wfs', diags') => Ok (wfs ++ wfs', diags ++ diags')
    | Raise e' => Raise e'
    end.
Proof.
  unfold parse_handlers.
  destruct (is_YAMLError e); [now rewrite app_nil_r|].
  destruct (is_ValidationError e); [|now rewrite app_nil_r].
  destruct (title_of y); [now rewrite app_nil_r|reflexivity].
Qed.

Lemma parse_file_acc (wfs : list R) (diags : list PullDiagnostic)
    (item : string * string) :
  parse_file C (wfs, diags) item
  = match parse_file C ([], []) item with
    | Ok (wfs', diags') => Ok (wfs ++ wfs', diags ++ diags')
    | Raise e => Raise e
    end.
Proof.
  destruct item as [file_path content]. unfold parse_file.
  destruct (safe_load C content) as [y|e]; [|apply parse_handlers_acc].
  destruct (yaml_truthy y); cbn [negb]; [|now rewrite app_nil_r].
  destruct (Sync.model_validate C y) as [wf|e]; [now rewrite app_nil_r|].
  apply parse_handlers_acc.
Qed.

Lemma parse_loop_acc (cm : content_map) :
  forall (wfs : list R) (diags : list PullDiagnostic),
    parse_loop C (wfs, diags) cm
    = match parse_loop C ([], []) cm with
      | Ok (wfs', diags') => Ok (wfs ++ wfs', diags ++ diags')
      | Raise e => Raise e
      end.
Proof.
  induction cm as [|item cm IH]; intros wfs diags; cbn [parse_loop].
  - now rewrite !app_nil_r.
  - rewrite (parse_file_acc wfs diags).
    destruct (parse_file C ([], []) item) as [[w1 d1]|e]; [|reflexivity].
    rewrite (IH (wfs ++ w1) (diags ++ d1)), (IH w1 d1).
    destruct (parse_loop C ([], []) cm) as [[w2 d2]|e]; [|reflexivity].
    now rewrite !app_assoc.
Qed.

Lemma parse_loop_app (cm1 cm2 : content_map) :
  forall acc : parse_state,
    parse_loop C acc (cm1 ++ cm2)
    = match parse_loop C acc cm1 with
      | Ok acc' => parse_loop C acc' cm2
      | Raise e => Raise e
      end.
Proof.
  induction cm1 as [|item cm1 IH]; intros acc; cbn [app parse_loop];
    [reflexivity|].
  destruct (parse_file C acc item); [apply IH|reflexivity].
Qed.

(** X1: on every content map the parser either returns, and then every
    file gave exactly one definition or one diagnostic, the diagnostics
    in the order of the files; or it raises [AttributeError].  It
    raises nothing else. *)
Theorem parse_definitions_outcome (cm : content_map) :
  (exists wfs diags,
     _parse_workflow_definitions C cm = Ok (wfs, diags)
     /\ length wfs + length diags = length cm
     /\ sublist (map workflow_path diags) (map fst cm))
  \/ (exists m, _parse_workflow_definitions C cm = Raise (AttributeError m)).
Proof.
  unfold _parse_workflow_definitions.
  destruct (parse_loop_outcome C cm [] []) as [(wfs & diags & H)|H];
    [left; exists wfs, diags; exact H|right; exact H].
Qed.

(** X2: the files are parsed independently of each other: parsing two
    content maps one after the other gives the definitions and the
    diagnostics of the first followed by those of the second, and
    raises what the first of them to raise raises. *)
Theorem parse_definitions_app (cm1 cm2 : content_map) :
  _parse_workflow_definitions C (cm1 ++ cm2)
  = match _parse_workflow_definitions C cm1 with
    | Raise e => Raise e
    | Ok (wfs1, diags1) =>
        match _parse_workflow_definitions C cm2 with
        | Raise e => Raise e
        | Ok (wfs2, diags2) => Ok (wfs1 ++ wfs2, diags1 ++ diags2)
        end
    end.
Proof.
  unfold _parse_workflow_definitions. rewrite parse_loop_app.
  destruct (parse_loop C ([], []) cm1) as [[w1 d1]|e]; [|reflexivity].
  apply parse_loop_acc.
Qed.

(** X3: the parser does not raise when no file loads as a mapping whose
    [definition] entry is something else than a mapping. *)
Theorem parse_definitions_total (cm : content_map) :
  (forall file_path content d v,
     In (file_path, content) cm ->
     safe_load C content = Ok (YDict d) ->
     dict_get "definition" d = Some v ->
     exists d', v = YDict d') ->
  exists wfs diags,
    _parse_workflow_definitions C cm = Ok (wfs, diags)
    /\ length wfs + length diags = length cm.
Proof.
  intros Hsafe.
  assert (Hfile : forall item, In item cm ->
            exists acc, parse_file C ([], []) item = Ok acc).
  { intros [file_path content] Hin. unfold parse_file.
    assert (Hh : forall y e,
              (y = None \/ safe_load C content = Ok (default YNull y)) ->
              exists acc,
                parse_handlers file_path y (@nil R, @nil PullDiagnostic) e
                = Ok acc).
    { intros y e Hy. unfold parse_handlers.
      destruct (is_YAMLError e); [eauto|].
      destruct (is_ValidationError e); [|eauto].
      destruct Hy as [->|Hy]; [cbn; eauto|].
      destruct y as [[| | | | |d]|]; cbn [title_of]; eauto.
      cbn [default] in Hy.
      destruct (dict_get "definition" d) as [v|] eqn:Hd; cbn [default]; [|eauto].
      destruct (Hsafe _ _ _ _ Hin Hy Hd) as [d' ->]. eauto. }
    destruct (safe_load C content) as [y|e] eqn:Hl; [|apply Hh; now left].
    destruct (yaml_truthy y); cbn [negb]; [|eauto].
    destruct (Sync.model_validate C y); [eauto|]. apply (Hh (Some y)). now right. }
  unfold _parse_workflow_definitions.
  destruct (parse_loop_outcome C cm [] []) as [(wfs & diags & H & Hl & _)|[m H]];
    [eauto|].
  exfalso.
  assert (Hno : forall (acc : parse_state) e, parse_loop C acc cm <> Raise e).
  { clear H Hsafe. induction cm as [|item cm IH]; intros [w d] e;
      cbn [parse_loop]; [discriminate|].
    rewrite parse_file_acc.
    destruct (Hfile item (or_introl eq_refl)) as [[w1 d1] ->].
    apply IH. intros item' Hin. apply Hfile. now right. }
  exact (Hno _ _ H).
Qed.
End ParserProperties.

Lemma parse_definitions_total_witness :
  exists wfs diags,
    _parse_workflow_definitions Scenario.plain
      [("workflows/a/definition.yml", ""); ("workflows/c/definition.yml", "{")]
    = Ok (wfs, diags)
    /\ length wfs + length diags = 2.
Proof.
  apply (parse_definitions_total Scenario.plain
           [("workflows/a/definition.yml", ""); ("workflows/c/definition.yml", "{")]).
  intros file_path content d v [[= <- <-]|[[= <- <-]|[]]] Hl; discriminate Hl.
Defined.

(** ** pull after the parser *)

Section PullProperties.
Context {W R : Type} (C : Collaborators W R).

Lemma parse_without_diagnostics (cm : content_map) (wfs : list R) :
  _parse_workflow_definitions C cm = Ok (wfs, []) -> length wfs = length cm.
Proof.
  intros H.
  unfold _parse_workflow_definitions in H.
  destruct (parse_loop_outcome C cm [] []) as [(w & d & E & Hl & _)|[m E]];
    rewrite E in H; [|discriminate].
  injection H as -> ->. cbn in Hl. lia.
Qed.

(** X4: a dry run of a repository whose files are all valid reports
    success, counts every fetched file as found, imports nothing, and
    stops in the state the fetch left: the import service is not
    called. *)
Theorem pull_dry_run (url : GitUrl) (o : PullOptions) (st st1 : Eff.state W)
    (cm : content_map) (wfs : list R) :
  truthy (commit_sha o) = true ->
  dry_run o = true ->
  _fetch_repository_content C url (default "" (commit_sha o)) st = (Ok cm, st1) ->
  _parse_workflow_definitions C cm = Ok (wfs, []) ->
  exists r,
    pull C url (Some o) st = (Ok r, st1)
    /\ success r = true
    /\ result_commit_sha r = default "" (commit_sha o)
    /\ workflows_found r = length cm
    /\ workflows_imported r = 0
    /\ diagnostics r = [].
Proof.
  intros T D F P. unfold pull. rewrite T. cbn [negb].
  unfold try_except, pull_body, bind. rewrite F. unfold lift. rewrite P, D.
  eexists. split; [reflexivity|]. cbn.
  rewrite (parse_without_diagnostics _ _ P). repeat split.
Qed.

(** X5: when every fetched file is valid and the run is not a dry run,
    the import service is called once, after the fetch, with all the
    parsed definitions and the commit, and what it returns is the
    result of [pull], unchanged. *)
Theorem pull_returns_import_result (url : GitUrl) (o : PullOptions)
    (st st1 st2 : Eff.state W) (cm : content_map) (wfs : list R)
    (r : PullResult) :
  truthy (commit_sha o) = true ->
  dry_run o = false ->
  _fetch_repository_content C url (default "" (commit_sha o)) st = (Ok cm, st1) ->
  _parse_workflow_definitions C cm = Ok (wfs, []) ->
  call "import_workflows_atomic" [default "" (commit_sha o)]
    (import_workflows_atomic C wfs (default "" (commit_sha o))) st1 = (Ok r, st2) ->
  pull C url (Some o) st = (Ok r, st2)
  /\ length wfs = length cm
  /\ trace st2 = trace st1 ++ [Call "import_workflows_atomic" [default "" (commit_sha o)]].
Proof.
  intros T D F P I. unfold pull. rewrite T. cbn [negb].
  unfold try_except, pull_body, bind. rewrite F. unfold lift. rewrite P, D, I.
  split; [reflexivity|]. split; [exact (parse_without_diagnostics _ _ P)|].
  unfold call in I. destruct (import_workflows_atomic C wfs _ (world st1)).
  now injection I as _ <-.
Qed.
End PullProperties.

Lemma pull_dry_run_witness :
  exists r,
    pull Scenario.two_valid_files Scenario.github_url Scenario.dry_run_at_commit
      Scenario.start
    = (Ok r,
       snd (_fetch_repository_content Scenario.two_valid_files
              Scenario.github_url "0123abc" Scenario.start))
    /\ success r = true
    /\ result_commit_sha r = "0123abc"
    /\ workflows_found r = 2
    /\ workflows_imported r = 0
    /\ diagnostics r = [].
Proof.
  apply (pull_dry_run Scenario.two_valid_files Scenario.github_url
           (mkPullOptions (Some "0123abc") true) Scenario.start _
           [("workflows/a/definition.yml", ""); ("workflows/b/definition.yml", "definition: foo")]
           [""; "definition: foo"]);
    reflexivity.
Defined.

Lemma pull_returns_import_result_witness :
  pull Scenario.two_valid_files Scenario.github_url Scenario.at_commit
    Scenario.start
  = (Ok (mkPullResult true "0123abc" 2 2 [] "imported"),
     snd (pull Scenario.two_valid_files Scenario.github_url Scenario.at_commit
            Scenario.start))
  /\ length [""; "definition: foo"] = 2.
Proof.
  refine (let H := pull_returns_import_result Scenario.two_valid_files
                     Scenario.github_url (mkPullOptions (Some "0123abc") false)
                     Scenario.start _ _
                     [("workflows/a/definition.yml", "");
                      ("workflows/b/definition.yml", "definition: foo")]
                     [""; "definition: foo"]
                     (mkPullResult true "0123abc" 2 2 [] "imported")
                     eq_refl eq_refl eq_refl eq_refl eq_refl in
          conj (proj1 H) (proj1 (proj2 H))).
Defined.

Lemma pull_aborts_on_diagnostics_witness :
  exists r,
    pull Scenario.one_empty_file Scenario.github_url Scenario.at_commit
      Scenario.start
    = (Ok r,
       snd (_fetch_repository_content Scenario.one_empty_file
              Scenario.github_url "0123abc" Scenario.start))
    /\ success r = false
    /\ workflows_found r = 1
    /\ workflows_imported r = 0
    /\ diagnostics r
       = [mkPullDiagnostic "workflows/a/definition.yml" None parse
            "Empty or invalid YAML file" []].
Proof.
  apply (pull_aborts_on_diagnostics Scenario.one_empty_file Scenario.github_url
           (mkPullOptions (Some "0123abc") false) Scenario.start _
           [("workflows/a/definition.yml", "")] []);
    reflexivity.
Defined.

(** ** The fetch of the definitions *)

Lemma dict_set_keys (k v : string) (d : content_map) (k' : string) :
  In k' (map fst (dict_set k v d)) <-> k' = k \/ In k' (map fst d).
Proof.
  induction d as [|[k0 v0] d IH]; cbn [dict_set map fst In].
  - intuition congruence.
  - destruct (String.eqb_spec k k0) as [->|Hne]; cbn [map fst In].
    + intuition congruence.
    + rewrite IH. intuition congruence.
Qed.

Lemma dict_set_NoDup (k v : string) (d : content_map) :
  List.NoDup (map fst d) -> List.NoDup (map fst (dict_set k v d)).
Proof.
  induction d as [|[k0 v0] d IH]; cbn [dict_set map fst]; intros H.
  - constructor; [intros []|constructor].
  - inversion H as [|? ? Hnot Hd]; subst.
    destruct (String.eqb_spec k k0) as [->|Hne]; cbn [map fst].
    + now constructor.
    + constructor; [|now apply IH].
      rewrite dict_set_keys. intros [E|Hin]; [congruence|contradiction].
Qed.

Lemma dict_set_lookup (k v : string) (d : content_map) :
  In (k, v) (dict_set k v d).
Proof.
  induction d as [|[k0 v0] d IH]; cbn [dict_set]; [now left|].
  destruct (String.eqb k k0); [now left|now right].
Qed.

(** *** The two loops *)

Section FetchProperties.
Context {W R : Type} (C : Collaborators W R).

Lemma definition_paths_step (kind path : string)
    (items : list (string * string)) (before cm1 cm' : content_map) :
  List.NoDup (map fst before) ->
  (cm1 = before \/ exists content,
      cm1 = dict_set (path +:+ "/definition.yml") content before) ->
  (List.NoDup (map fst cm1) -> definition_paths kind items cm1 cm') ->
  definition_paths kind ((kind, path) :: items) before cm'.
Proof.
  intros Hnd Hcm1 Hrest.
  assert (Hnd1 : List.NoDup (map fst cm1)).
  { destruct Hcm1 as [->|[content ->]]; [exact Hnd|now apply dict_set_NoDup]. }
  destruct (Hrest Hnd1) as [Hnd' Hkeys]. split; [exact Hnd'|].
  intros k Hk. destruct (Hkeys k Hk) as [Hin|(p & Hp & ->)].
  - destruct Hcm1 as [->|[content ->]]; [now left|].
    apply dict_set_keys in Hin. destruct Hin as [->|Hin]; [|now left].
    right. exists path. split; [now left|reflexivity].
  - right. exists p. split; [now right|reflexivity].
Qed.

Lemma definition_paths_skip (kind : string) (item : string * string)
    (items : list (string * string)) (before cm' : content_map) :
  definition_paths kind items before cm' ->
  definition_paths kind (item :: items) before cm'.
Proof.
  intros [Hnd Hkeys]. split; [exact Hnd|].
  intros k Hk. destruct (Hkeys k Hk) as [Hin|(p & Hp & ->)]; [now left|].
  right. exists p. split; [now right|reflexivity].
Qed.

Lemma fetch_items_github_paths (sha_ : string) (items : list (string * string)) :
  forall cm st cm' st', List.NoDup (map fst cm) ->
    fetch_items_github C sha_ items cm st = (Ok cm', st') ->
    definition_paths "dir" items cm cm'.
Proof.
  induction items as [|[item_type item_path] items IH]; intros cm st cm' st' Hnd;
    cbn [fetch_items_github].
  - intros [= <- _]. split; [exact Hnd|]. intros k Hk. now left.
  - destruct (String.eqb_spec item_type "dir") as [->|Hne].
    2:{ intros H. apply definition_paths_skip. exact (IH _ _ _ _ Hnd H). }
    intros H. apply bind_Ok in H. destruct H as (cm1 & st1 & H1 & H2).
    apply (definition_paths_step "dir" item_path items cm cm1 cm' Hnd).
    2:{ intros Hnd1. exact (IH _ _ _ _ Hnd1 H2). }
    apply try_except_Ok in H1.
    destruct H1 as [H1|(e & st0 & k & _ & Hh & Hk)].
    + apply bind_Ok in H1. destruct H1 as (file & st0 & _ & H1).
      destruct file as [p b encoded|l].
      * apply bind_Ok in H1. destruct H1 as (content & st0' & _ & H1).
        injection H1 as <- _. right. eauto.
      * injection H1 as <- _. now left.
    + destruct e; try discriminate. injection Hh as <-.
      destruct (negb _) in Hk; cbn in Hk; injection Hk as <- _; now left.
Qed.

Lemma fetch_items_gitlab_paths (sha_ : string) (items : list (string * string)) :
  forall cm st cm' st', List.NoDup (map fst cm) ->
    fetch_items_gitlab C sha_ items cm st = (Ok cm', st') ->
    definition_paths "tree" items cm cm'.
Proof.
  induction items as [|[item_type item_path] items IH]; intros cm st cm' st' Hnd;
    cbn [fetch_items_gitlab].
  - intros [= <- _]. split; [exact Hnd|]. intros k Hk. now left.
  - destruct (String.eqb_spec item_type "tree") as [->|Hne].
    2:{ intros H. apply definition_paths_skip. exact (IH _ _ _ _ Hnd H). }
    intros H. apply bind_Ok in H. destruct H as (cm1 & st1 & H1 & H2).
    apply (definition_paths_step "tree" item_path items cm cm1 cm' Hnd).
    2:{ intros Hnd1. exact (IH _ _ _ _ Hnd1 H2). }
    apply try_except_Ok in H1.
    destruct H1 as [H1|(e & st0 & k & _ & Hh & Hk)].
    + apply bind_Ok in H1. destruct H1 as (encoded & st0 & _ & H1).
      apply bind_Ok in H1. destruct H1 as (content & st0' & _ & H1).
      injection H1 as <- _. right. eauto.
    + destruct (is_GitlabError e); [|discriminate]. injection Hh as <-.
      destruct (negb _) in Hk; cbn in Hk; injection Hk as <- _; now left.
Qed.
End FetchProperties.

(** *** The adapters and their dispatch *)

Section FetchTheorems.
Context {W R : Type} (C : Collaborators W R).

Lemma bind_call_Ok {A B} (name : string) (args : list string)
    (f : W -> res A * W) (k : A -> Eff.M W B) (w : W) (t : list event)
    (a : A) (w1 : W) :
  f w = (Ok a, w1) ->
  bind (call name args f) k (Eff.mkState w t)
  = k a (Eff.mkState w1 (t ++ [Call name args])).
Proof. intros H. unfold bind, call. cbn [world trace]. now rewrite H. Qed.

Lemma bind_call_Raise {A B} (name : string) (args : list string)
    (f : W -> res A * W) (k : A -> Eff.M W B) (w : W) (t : list event)
    (e : exn) (w1 : W) :
  f w = (Raise e, w1) ->
  bind (call name args f) k (Eff.mkState w t)
  = (Raise e, Eff.mkState w1 (t ++ [Call name args])).
Proof. intros H. unfold bind, call. cbn [world trace]. now rewrite H. Qed.

(** Provider detection returns, touches nothing of the world and only
    adds to the trace. *)
Lemma detect_provider_inv (url : GitUrl) (st : Eff.state W) :
  exists t,
    _detect_provider (W := W) url st
    = (Ok (if contains "github" (lower (host url)) then GITHUB else GITLAB),
       Eff.mkState (world st) (trace st ++ t)).
Proof.
  unfold _detect_provider.
  destruct (contains "github" _).
  - exists []. rewrite app_nil_r. now destruct st.
  - destruct (contains "gitlab" _).
    + exists []. rewrite app_nil_r. now destruct st.
    + eexists. reflexivity.
Qed.

Lemma fetch_github_keys (url : GitUrl) (sha_ : string)
    (st st' : Eff.state W) (cm : content_map) :
  _fetch_repository_content_github C url sha_ st = (Ok cm, st') ->
  cm = []
  \/ exists items w w',
       gh_get_contents C "workflows" sha_ w = (Ok (ContentList items), w')
       /\ definition_paths "dir" items [] cm.
Proof.
  unfold _fetch_repository_content_github. intros H.
  apply bind_Ok in H. destruct H as (u & st1 & _ & H).
  apply try_finally_inv in H. destruct H as (st2 & H & _).
  apply try_except_Ok in H. destruct H as [H|(e & st3 & k & _ & Hh & Hk)].
  2:{ destruct e; try discriminate. injection Hh as <-. discriminate Hk. }
  apply bind_Ok in H. destruct H as (b & st3 & _ & H).
  apply try_except_Ok in H. destruct H as [H|(e & st4 & k & _ & Hh & Hk)].
  - apply bind_Ok in H. destruct H as (contents & st4 & Hc & H).
    destruct contents as [p bl c|items].
    + injection H as <- _. now left.
    + right. apply call_inv in Hc. destruct Hc as (w' & Hc & _).
      exists items, (world st3), w'. split; [exact Hc|].
      eapply fetch_items_github_paths; [constructor|exact H].
  - destruct e; try discriminate. injection Hh as <-.
    destruct (_ =? _)%Z in Hk; [injection Hk as <- _; now left|discriminate Hk].
Qed.

Lemma fetch_gitlab_keys (url : GitUrl) (sha_ : string)
    (st st' : Eff.state W) (cm : content_map) :
  _fetch_repository_content_gitlab C url sha_ st = (Ok cm, st') ->
  cm = []
  \/ exists items w w',
       gl_repository_tree C "workflows" sha_ w = (Ok items, w')
       /\ definition_paths "tree" items [] cm.
Proof.
  unfold _fetch_repository_content_gitlab. intros H.
  apply bind_Ok in H. destruct H as (u & st1 & _ & H).
  apply try_except_Ok in H. destruct H as [H|(e & st3 & k & _ & Hh & Hk)].
  2:{ destruct (is_GitlabError e); [|discriminate]. injection Hh as <-.
      discriminate Hk. }
  apply bind_Ok in H. destruct H as (b & st3 & _ & H).
  apply try_except_Ok in H. destruct H as [H|(e & st4 & k & _ & Hh & Hk)].
  - apply bind_Ok in H. destruct H as (items & st4 & Hc & H).
    right. apply call_inv in Hc. destruct Hc as (w' & Hc & _).
    exists items, (world st3), w'. split; [exact Hc|].
    eapply fetch_items_gitlab_paths; [constructor|exact H].
  - destruct (is_GitlabError e); [|discriminate]. injection Hh as <-.
    destruct (contains _ _) in Hk; [injection Hk as <- _; now left|discriminate Hk].
Qed.

(** X7: what a fetch returns has one entry per key, and every key is
    the [definition.yml] of a directory that the provider listed under
    [workflows] for the requested commit. *)
Theorem fetch_definition_files (url : GitUrl) (sha_ : string)
    (st st' : Eff.state W) (cm : content_map) :
  _fetch_repository_content C url sha_ st = (Ok cm, st') ->
  List.NoDup (map fst cm)
  /\ forall k, In k (map fst cm) ->
       exists path,
         k = path +:+ "/definition.yml"
         /\ ((exists items w w',
                gh_get_contents C "workflows" sha_ w = (Ok (ContentList items), w')
                /\ In ("dir", path) items)
             \/ (exists items w w',
                   gl_repository_tree C "workflows" sha_ w = (Ok items, w')
                   /\ In ("tree", path) items)).
Proof.
  unfold _fetch_repository_content. intros H.
  apply bind_Ok in H. destruct H as (provider & st1 & _ & H).
  destruct provider.
  - apply fetch_github_keys in H.
    destruct H as [->|(items & w & w' & Hc & Hnd & Hk)].
    { split; [constructor|intros k []]. }
    split; [exact Hnd|]. intros k Hin.
    destruct (Hk k Hin) as [[]|(path & Hp & ->)].
    exists path. split; [reflexivity|]. left. eauto.
  - apply fetch_gitlab_keys in H.
    destruct H as [->|(items & w & w' & Hc & Hnd & Hk)].
    { split; [constructor|intros k []]. }
    split; [exact Hnd|]. intros k Hin.
    destruct (Hk k Hin) as [[]|(path & Hp & ->)].
    exists path. split; [reflexivity|]. right. eauto.
Qed.

(** X8: on GitHub a repository without a [workflows] directory, or with
    a file of that name, is an empty repository and not an error: the
    fetch returns the empty map after three calls and closes the
    client. *)
Theorem fetch_github_without_directory (url : GitUrl) (sha_ : string)
    (st : Eff.state W) (w1 w2 w3 : W) (default_branch : string)
    (r : res Contents) :
  get_github_client_for_repo C url (world st) = (Ok tt, w1) ->
  gh_get_repo C (org url +:+ "/" +:+ repo url) w1 = (Ok default_branch, w2) ->
  gh_get_contents C "workflows" sha_ w2 = (r, w3) ->
  (exists d, r = Raise (GithubException 404 d))
  \/ (exists p b c, r = Ok (ContentFile p b c)) ->
  _fetch_repository_content_github C url sha_ st
  = (Ok [],
     Eff.mkState w3
       (trace st ++ [Call "get_github_client_for_repo" [to_url url];
                     Call "gh.get_repo" [org url +:+ "/" +:+ repo url];
                     Call "repo.get_contents" ["workflows"; sha_];
                     Call "gh.close" []])).
Proof.
  destruct st as [w0 t0]. cbn [world trace].
  intros H1 H2 H3 Hr. unfold _fetch_repository_content_github.
  rewrite (bind_call_Ok _ _ _ _ _ _ _ _ H1).
  unfold try_finally, try_except at 1.
  rewrite (bind_call_Ok _ _ _ _ _ _ _ _ H2).
  unfold try_except.
  destruct Hr as [[d ->]|(p & b & c & ->)].
  - rewrite (bind_call_Raise _ _ _ _ _ _ _ _ H3). cbn.
    now rewrite <- !app_assoc.
  - rewrite (bind_call_Ok _ _ _ _ _ _ _ _ H3). cbn.
    now rewrite <- !app_assoc.
Qed.

(** X9: on GitLab the tree of [workflows] is missing when the client
    library's error text contains [404], whatever else it says: the
    fetch then returns the empty map. *)
Theorem fetch_gitlab_without_directory (url : GitUrl) (sha_ : string)
    (st : Eff.state W) (w1 w2 w3 : W) (default_branch : string)
    (m : string) :
  get_gitlab_client_for_repo C url (world st) = (Ok tt, w1) ->
  gl_projects_get C (org url +:+ "/" +:+ repo url) w1 = (Ok default_branch, w2) ->
  gl_repository_tree C "workflows" sha_ w2 = (Raise (GitlabError m), w3) ->
  contains "404" m = true ->
  _fetch_repository_content_gitlab C url sha_ st
  = (Ok [],
     Eff.mkState w3
       (trace st ++ [Call "get_gitlab_client_for_repo" [to_url url];
                     Call "gl.projects.get" [org url +:+ "/" +:+ repo url];
                     Call "project.repository_tree" ["workflows"; sha_]])).
Proof.
  destruct st as [w0 t0]. cbn [world trace].
  intros H1 H2 H3 Hm. unfold _fetch_repository_content_gitlab.
  rewrite (bind_call_Ok _ _ _ _ _ _ _ _ H1).
  unfold try_except at 1.
  rewrite (bind_call_Ok _ _ _ _ _ _ _ _ H2).
  unfold try_except.
  rewrite (bind_call_Raise _ _ _ _ _ _ _ _ H3).
  cbn [is_GitlabError exn_str]. rewrite Hm. cbn.
  now rewrite <- !app_assoc.
Qed.

(** X10: no exception of a provider's client library leaves the fetch
    once the client exists: a [GithubException] on GitHub and a
    [GitlabError] on GitLab are raised again as the service's own
    error. *)
Theorem fetch_raises_no_provider_exception (url : GitUrl) (sha_ : string)
    (st st' : Eff.state W) (e : exn) :
  _fetch_repository_content C url sha_ st = (Raise e, st') ->
  (exists w', get_github_client_for_repo C url (world st) = (Raise e, w'))
  \/ (exists w', get_gitlab_client_for_repo C url (world st) = (Raise e, w'))
  \/ (if contains "github" (lower (host url))
      then is_GithubException e = false
      else is_GitlabError e = false).
Proof.
  unfold _fetch_repository_content, bind at 1.
  destruct (detect_provider_inv url st) as [t ->].
  destruct (contains "github" _); intros H.
  - apply fetch_github_wraps in H. cbn [world] in H. tauto.
  - apply fetch_gitlab_wraps in H. cbn [world] in H. tauto.
Qed.
End FetchTheorems.

Lemma fetch_definition_files_witness :
  List.NoDup (map fst Scenario.two_files)
  /\ forall k, In k (map fst Scenario.two_files) ->
       exists path,
         k = path +:+ "/definition.yml"
         /\ ((exists items w w',
                gh_get_contents Scenario.two_valid_files "workflows" "0123abc" w
                = (Ok (ContentList items), w')
                /\ In ("dir", path) items)
             \/ (exists items w w',
                   gl_repository_tree Scenario.two_valid_files "workflows" "0123abc" w
                   = (Ok items, w')
                   /\ In ("tree", path) items)).
Proof.
  apply (fetch_definition_files Scenario.two_valid_files Scenario.github_url
           "0123abc" Scenario.start
           (snd (_fetch_repository_content Scenario.two_valid_files
                   Scenario.github_url "0123abc" Scenario.start))
           Scenario.two_files).
  reflexivity.
Defined.

Lemma fetch_github_without_directory_witness :
  _fetch_repository_content_github Scenario.no_workflows_github
    Scenario.github_url "0123abc" Scenario.start
  = (Ok [],
     Eff.mkState tt
       [Call "get_github_client_for_repo" ["git+ssh://git@github.com/org/repo.git"];
        Call "gh.get_repo" ["org/repo"];
        Call "repo.get_contents" ["workflows"; "0123abc"];
        Call "gh.close" []]).
Proof.
  apply (fetch_github_without_directory Scenario.no_workflows_github
           Scenario.github_url "0123abc" Scenario.start tt tt tt "main"
           (Raise (GithubException 404 "Not Found")));
    [reflexivity|reflexivity|reflexivity|left; exists "Not Found"; reflexivity].
Defined.

Lemma fetch_gitlab_without_directory_witness :
  _fetch_repository_content_gitlab Scenario.no_workflows_gitlab
    Scenario.gitlab_url "0123abc" Scenario.start
  = (Ok [],
     Eff.mkState tt
       [Call "get_gitlab_client_for_repo" ["https://gitlab.com/org/repo.git"];
        Call "gl.projects.get" ["org/repo"];
        Call "project.repository_tree" ["workflows"; "0123abc"]]).
Proof.
  apply (fetch_gitlab_without_directory Scenario.no_workflows_gitlab
           Scenario.gitlab_url "0123abc" Scenario.start tt tt tt "main"
           "404: 404 Tree Not Found");
    reflexivity.
Defined.

Lemma fetch_raises_no_provider_exception_witness :
  (exists w', get_github_client_for_repo Scenario.fetch_refused
                Scenario.github_url tt
              = (Raise (GitHubAppError "GitHub API error: 401 - Bad credentials"), w'))
  \/ (exists w', get_gitlab_client_for_repo Scenario.fetch_refused
                   Scenario.github_url tt
                 = (Raise (GitHubAppError "GitHub API error: 401 - Bad credentials"), w'))
  \/ is_GithubException (GitHubAppError "GitHub API error: 401 - Bad credentials")
     = false.
Proof.
  apply (fetch_raises_no_provider_exception Scenario.fetch_refused
           Scenario.github_url "0123abc" Scenario.start
           (snd (_fetch_repository_content Scenario.fetch_refused
                   Scenario.github_url "0123abc" Scenario.start))
           (GitHubAppError "GitHub API error: 401 - Bad credentials")).
  reflexivity.
Defined.

(** *** The GitHub client is closed *)

Section ClientClosed.
Context {W R : Type} (C : Collaborators W R).

(** X11: once the GitHub client exists it is closed on every path, the
    failing ones included: closing is the last event of a fetch and of
    a push, and has happened when the listing of commits ends, where
    the error is logged after it. *)
Theorem github_client_closed (url : GitUrl) (st : Eff.state W) (w1 : W) :
  get_github_client_for_repo C url (world st) = (Ok tt, w1) ->
  (forall sha_, exists t,
      trace (snd (_fetch_repository_content_github C url sha_ st))
      = t ++ [Call "gh.close" []])
  /\ (forall obj options, exists t,
        trace (snd (_push_github C [obj] url options st))
        = t ++ [Call "gh.close" []])
  /\ (forall branch_ limit,
        In (Call "gh.close" [])
          (trace (snd (_list_commits_github C url branch_ limit st)))).
Proof.
  destruct st as [w0 t0]. cbn [world]. intros H. repeat split.
  - intros sha_. unfold _fetch_repository_content_github.
    rewrite (bind_call_Ok _ _ _ _ _ _ _ _ H). unfold try_finally.
    destruct (try_except _ _ _) as [r st2]. cbn. eauto.
  - intros obj options. unfold _push_github.
    rewrite (bind_call_Ok _ _ _ _ _ _ _ _ H). unfold try_finally.
    destruct (try_except _ _ _) as [r st2]. cbn. eauto.
  - intros branch_ limit. unfold _list_commits_github, try_except.
    rewrite (bind_call_Ok _ _ _ _ _ _ _ _ H). unfold try_finally.
    destruct (bind _ _ _) as [[a|e] st2]; cbn [snd gh_close call].
    + cbn. apply in_app_iff. right. now left.
    + destruct e; cbn; rewrite ?in_app_iff; cbn; tauto.
Qed.
End ClientClosed.

Lemma github_client_closed_witness :
  (forall sha_, exists t,
      trace (snd (_fetch_repository_content_github Scenario.plain
                    Scenario.github_url sha_ Scenario.start))
      = t ++ [Call "gh.close" []])
  /\ (forall obj options, exists t,
        trace (snd (_push_github Scenario.plain [obj] Scenario.github_url
                      options Scenario.start))
        = t ++ [Call "gh.close" []])
  /\ (forall branch_ limit,
        In (Call "gh.close" [])
          (trace (snd (_list_commits_github Scenario.plain Scenario.github_url
                         branch_ limit Scenario.start)))).
Proof.
  apply (github_client_closed Scenario.plain Scenario.github_url Scenario.start tt).
  reflexivity.
Defined.

(** ** push and list_commits: results and errors *)

Section PushProperties.
Context {W R : Type} (C : Collaborators W R).

Ltac next H := apply bind_Ok in H; destruct H as (? & ? & _ & H); cbv beta in H.

Lemma push_github_result (obj : PushObject R) (url : GitUrl)
    (options : PushOptions) (st st' : Eff.state W) (ci : CommitInfo) :
  _push_github C [obj] url options st = (Ok ci, st') ->
  commit_ref ci = "tracecat-sync/" +:+ workflow_id C (data obj)
  /\ exists w w', gh_get_branch C (commit_ref ci) w = (Ok (sha ci), w').
Proof.
  unfold _push_github. intros H. next H.
  apply try_finally_inv in H. destruct H as (st2 & H & _).
  apply try_except_Ok in H. destruct H as [H|(e & st3 & k & _ & Hh & Hk)].
  2:{ destruct e; try discriminate. injection Hh as <-. discriminate Hk. }
  cbv zeta in H. next H. next H. next H. next H.
  apply bind_Ok in H. destruct H as (commit & st3 & Hc & H). cbv beta in H.
  next H. next H. injection H as <- _. cbn [commit_ref sha].
  split; [reflexivity|].
  apply call_inv in Hc. destruct Hc as (w' & Hc & _). eauto.
Qed.

Lemma push_gitlab_result (obj : PushObject R) (url : GitUrl)
    (options : PushOptions) (st st' : Eff.state W) (ci : CommitInfo) :
  _push_gitlab C [obj] url options st = (Ok ci, st') ->
  commit_ref ci = "tracecat-sync/" +:+ workflow_id C (data obj)
  /\ exists w w', gl_branches_get C (commit_ref ci) w = (Ok (sha ci), w').
Proof.
  unfold _push_gitlab. intros H. next H.
  apply try_except_Ok in H. destruct H as [H|(e & st3 & k & _ & Hh & Hk)].
  2:{ destruct (is_GitlabError e); [|discriminate]. injection Hh as <-.
      discriminate Hk. }
  cbv zeta in H. next H. next H. next H.
  apply bind_Ok in H. destruct H as (commit & st3 & Hc & H). cbv beta in H.
  next H. next H. injection H as <- _. cbn [commit_ref sha].
  split; [reflexivity|].
  apply call_inv in Hc. destruct Hc as (w' & Hc & _). eauto.
Qed.


Lemma push_github_wraps (objects : list (PushObject R)) (url : GitUrl)
    (options : PushOptions) (st st' : Eff.state W) (e : exn) :
  _push_github C objects url options st = (Raise e, st') ->
  (exists w', get_github_client_for_repo C url (world st) = (Raise e, w'))
  \/ is_GithubException e = false.
Proof.
  unfold _push_github.
  destruct objects as [|obj [|obj' objects]];
    try (intros [= <- _]; right; reflexivity).
  unfold bind at 1, call at 1.
  destruct (get_github_client_for_repo C url (world st)) as [[[]|e0] w1] eqn:Hc.
  2:{ intros [= <- _]. left. eauto. }
  unfold try_finally.
  destruct (try_except _ _ _) as [r st1] eqn:Ht. intros [= -> _]. right.
  eapply try_except_wraps; [| |exact Ht].
  - intros [] HP; discriminate.
  - intros [] k; try discriminate. intros [= <-] s e1 s1 [= <- _]. reflexivity.
Qed.

Lemma push_gitlab_wraps (objects : list (PushObject R)) (url : GitUrl)
    (options : PushOptions) (st st' : Eff.state W) (e : exn) :
  _push_gitlab C objects url options st = (Raise e, st') ->
  (exists w', get_gitlab_client_for_repo C url (world st) = (Raise e, w'))
  \/ is_GitlabError e = false.
Proof.
  unfold _push_gitlab.
  destruct objects as [|obj [|obj' objects]];
    try (intros [= <- _]; right; reflexivity).
  unfold bind at 1, call at 1.
  destruct (get_gitlab_client_for_repo C url (world st)) as [[[]|e0] w1] eqn:Hc.
  2:{ intros [= <- _]. left. eauto. }
  intros Ht. right.
  eapply try_except_wraps; [| |exact Ht].
  - intros [] HP; discriminate.
  - intros [] k; try discriminate. intros [= <-] s e1 s1 [= <- _]. reflexivity.
Qed.

(** X13: no exception of a provider's client library leaves a push once
    the client exists: it reaches the caller as [GitHubAppError] or
    [GitLabError]. *)
Theorem push_raises_no_provider_exception (objects : list (PushObject R))
    (url : GitUrl) (options : PushOptions) (st st' : Eff.state W) (e : exn) :
  push C objects url options st = (Raise e, st') ->
  (exists w', get_github_client_for_repo C url (world st) = (Raise e, w'))
  \/ (exists w', get_gitlab_client_for_repo C url (world st) = (Raise e, w'))
  \/ (if contains "github" (lower (host url))
      then is_GithubException e = false
      else is_GitlabError e = false).
Proof.
  unfold push. destruct (negb _).
  { intros [= <- _]. right. right. now destruct (contains _ _). }
  unfold bind at 1.
  destruct (detect_provider_inv url st) as [t ->].
  destruct (contains "github" _); intros H.
  - apply push_github_wraps in H. cbn [world] in H. tauto.
  - apply push_gitlab_wraps in H. cbn [world] in H. tauto.
Qed.

(** X14: the listing of commits lets no exception of a provider's client
    library through at all, the creation of the client included. *)
Theorem list_commits_raises_no_provider_exception (url : GitUrl)
    (branch_ : string) (limit : Z) (st st' : Eff.state W) (e : exn) :
  list_commits C url branch_ limit st = (Raise e, st') ->
  if contains "github" (lower (host url))
  then is_GithubException e = false
  else is_GitlabError e = false.
Proof.
  unfold list_commits, bind at 1.
  destruct (detect_provider_inv url st) as [t ->].
  destruct (contains "github" _); intros H.
  - eapply try_except_wraps; [| |exact H].
    + intros [] HP; discriminate.
    + intros [] k; try discriminate. intros [= <-] s e1 s1 [= <- _]. reflexivity.
  - eapply try_except_wraps; [| |exact H].
    + intros [] HP; discriminate.
    + intros [] k; try discriminate. intros [= <-] s e1 s1 [= <- _]. reflexivity.
Qed.

(** X15: with a workspace, the texts of a new pull or merge request are
    always produced: a title that cannot be read gives the two
    placeholders, and a failing or empty lookup of the current user
    gives the publisher [<unknown>]. *)
Theorem request_texts_robust (obj : PushObject R) (options : PushOptions)
    (st : Eff.state W) (ws : string) (w1 : W) :
  get_workspace C (world st) = (Ok (Some ws), w1) ->
  (forall e, definition_title C (data obj) = Raise e -> is_ValueError e = true) ->
  exists td,
    (definition_title C (data obj) = Ok td
     \/ td = ("<An error occurred while determining the title>",
              "<An error occurred while determining the description>"))
    /\ request_texts C obj options st
       = (Ok (request_title (fst td) options,
              request_body ws
                match fst (session_get_user C w1) with
                | Ok (Some email) => email
                | _ => "<unknown>"
                end
                (workflow_id C (data obj)) (fst td) (snd td)),
          Eff.mkState (snd (session_get_user C w1))
            (trace st ++ [Call "get_workspace" []; Call "session.get" []])).
Proof.
  destruct st as [w0 t0]. cbn [world trace]. intros Hw Ht.
  unfold request_texts. rewrite (bind_call_Ok _ _ _ _ _ _ _ _ Hw).
  cbv [bind try_except lift call ret world trace fst snd].
  destruct (definition_title C (data obj)) as [td|e] eqn:Hd.
  - exists td. split; [now left|].
    destruct (session_get_user C w1) as [[[u|]|e] w2];
      now rewrite <- app_assoc.
  - rewrite (Ht e eq_refl). eexists. split; [now right|].
    destruct (session_get_user C w1) as [[[u|]|e'] w2];
      now rewrite <- app_assoc.
Qed.
End PushProperties.


Lemma push_raises_no_provider_exception_witness :
  (exists w', get_github_client_for_repo Scenario.update_refused_gitlab
                Scenario.gitlab_url tt
              = (Raise (GitLabError "GitLab API error: 409: conflict"), w'))
  \/ (exists w', get_gitlab_client_for_repo Scenario.update_refused_gitlab
                   Scenario.gitlab_url tt
                 = (Raise (GitLabError "GitLab API error: 409: conflict"), w'))
  \/ is_GitlabError (GitLabError "GitLab API error: 409: conflict") = false.
Proof.
  apply (push_raises_no_provider_exception Scenario.update_refused_gitlab
           Scenario.one_object Scenario.gitlab_url Scenario.publish Scenario.start
           (snd (push Scenario.update_refused_gitlab Scenario.one_object
                   Scenario.gitlab_url Scenario.publish Scenario.start))
           (GitLabError "GitLab API error: 409: conflict")).
  reflexivity.
Defined.

Lemma list_commits_raises_no_provider_exception_witness :
  is_GithubException (GitHubAppError "GitHub API error: 403 - rate limit exceeded")
  = false.
Proof.
  apply (list_commits_raises_no_provider_exception Scenario.commits_unavailable
           Scenario.github_url "main" 10 Scenario.start
           (snd (list_commits Scenario.commits_unavailable Scenario.github_url
                   "main" 10 Scenario.start))
           (GitHubAppError "GitHub API error: 403 - rate limit exceeded")).
  reflexivity.
Defined.

Lemma request_texts_robust_witness :
  exists td,
    (definition_title Scenario.plain "wf_1" = Ok td
     \/ td = ("<An error occurred while determining the title>",
              "<An error occurred while determining the description>"))
    /\ request_texts Scenario.plain
         (mkPushObject "wf_1" "workflows/wf_1/definition.yml")
         Scenario.publish Scenario.start
       = (Ok (request_title (fst td) Scenario.publish,
              request_body "workspace" "<unknown>" "wf_1" (fst td) (snd td)),
          Eff.mkState tt [Call "get_workspace" []; Call "session.get" []]).
Proof.
  apply (request_texts_robust Scenario.plain
           (mkPushObject "wf_1" "workflows/wf_1/definition.yml")
           Scenario.publish Scenario.start "workspace" tt);
    [reflexivity|discriminate].
Defined.

(** ** The events of pull, push and list_commits *)

Section Adds.
Context {W : Type} (P : event -> Prop).

Lemma adds_ret {A} (a : A) : adds (W := W) P (ret a).
Proof. intros st. exists []. now rewrite app_nil_r. Qed.

Lemma adds_raise {A} (e : exn) : adds (W := W) (A := A) P (raise e).
Proof. intros st. exists []. now rewrite app_nil_r. Qed.

Lemma adds_lift {A} (r : res A) : adds (W := W) P (lift r).
Proof. intros st. exists []. now rewrite app_nil_r. Qed.

Lemma adds_emit (ev : event) : P ev -> adds (W := W) P (emit ev).
Proof. intros H st. exists [ev]. split; [reflexivity|]. now constructor. Qed.

Lemma adds_call {A} (name : string) (args : list string) (f : W -> res A * W) :
  P (Call name args) -> adds P (call name args f).
Proof.
  intros H st. exists [Call name args]. unfold call.
  destruct (f (world st)) as [r w']. split; [reflexivity|]. now constructor.
Qed.

Lemma adds_bind {A B} (m : Eff.M W A) (f : A -> Eff.M W B) :
  adds P m -> (forall a, adds P (f a)) -> adds P (bind m f).
Proof.
  intros Hm Hf st. unfold bind. destruct (Hm st) as (t1 & E1 & F1).
  destruct (m st) as [[a|e] st1]; cbn [snd] in E1; [|eauto].
  destruct (Hf a st1) as (t2 & E2 & F2). exists (t1 ++ t2).
  rewrite E2, E1, app_assoc. split; [reflexivity|]. now apply Forall_app.
Qed.

Lemma adds_try_except {A} (m : Eff.M W A) (h : exn -> option (Eff.M W A)) :
  adds P m -> (forall e k, h e = Some k -> adds P k) ->
  adds P (try_except m h).
Proof.
  intros Hm Hh st. unfold try_except. destruct (Hm st) as (t1 & E1 & F1).
  destruct (m st) as [[a|e] st1]; cbn [snd] in E1; [eauto|].
  destruct (h e) as [k|] eqn:Hk; [|eauto].
  destruct (Hh e k Hk st1) as (t2 & E2 & F2). exists (t1 ++ t2).
  rewrite E2, E1, app_assoc. split; [reflexivity|]. now apply Forall_app.
Qed.

Lemma adds_try_finally {A} (m : Eff.M W A) (f : Eff.M W unit) :
  adds P m -> adds P f -> adds P (try_finally m f).
Proof.
  intros Hm Hf st. unfold try_finally. destruct (Hm st) as (t1 & E1 & F1).
  destruct (m st) as [r st1]; cbn [snd] in *.
  destruct (Hf st1) as (t2 & E2 & F2). exists (t1 ++ t2).
  rewrite E2, E1, app_assoc. split; [reflexivity|]. now apply Forall_app.
Qed.
End Adds.

Section Events.
Context {W R : Type} (C : Collaborators W R).

Lemma adds_detect (P : event -> Prop) {A} (url : GitUrl)
    (f : VCSProvider -> Eff.M W A) :
  P (Log "warning" "Unknown VCS host, defaulting to GitLab") ->
  adds P (f (if contains "github" (lower (host url)) then GITHUB else GITLAB)) ->
  adds P (bind (_detect_provider url) f).
Proof.
  intros Hl Hf. unfold _detect_provider. cbv zeta.
  destruct (contains "github" _); [exact Hf|].
  destruct (contains "gitlab" _); [exact Hf|].
  intros st. destruct (Hf (Eff.mkState (world st) (trace st ++ [Log "warning" "Unknown VCS host, defaulting to GitLab"])))
    as (t & E & F).
  exists (Log "warning" "Unknown VCS host, defaulting to GitLab" :: t).
  split; [|now constructor].
  cbn [trace] in E. rewrite <- app_assoc in E. exact E.
Qed.

(** The [except] clause that was taken. *)
Ltac clause Hk :=
  cbv beta iota delta
    [is_GithubException is_GitlabError is_ValueError is_GitHubAppError
     is_GitLabError github_error gitlab_error pull_handlers] in Hk;
  try discriminate Hk; injection Hk as <-.

Ltac adds_step event :=
  lazymatch goal with
  | |- adds _ (bind (_detect_provider _) _) =>
      apply adds_detect; [event|cbv beta iota]
  | |- adds _ (bind _ _) => apply adds_bind; [|intros ?]
  | |- adds _ (try_except _ _) =>
      apply adds_try_except;
      [|let e := fresh "e" in
        let k := fresh "k" in
        let Hk := fresh "Hk" in
        intros e k Hk; destruct e; clause Hk]
  | |- adds _ (try_finally _ _) => apply adds_try_finally
  | |- adds _ (ret _) => apply adds_ret
  | |- adds _ (raise _) => apply adds_raise
  | |- adds _ (lift _) => apply adds_lift
  | |- adds _ (emit _) => apply adds_emit; event
  | |- adds _ (call _ _ _) => apply adds_call; event
  | |- adds _ gh_close => apply adds_call; event
  | |- adds _ (if ?b then _ else _) =>
      lazymatch b with
      | (if ?c then _ else _) => destruct c; cbv iota
      | _ => destruct b
      end
  | |- adds _ (let (_, _) := ?x in _) => destruct x
  | |- adds _ (match ?x with ContentFile _ _ _ => _ | ContentList _ => _ end) =>
      destruct x
  | |- adds _ (match ?x with [] => _ | _ :: _ => _ end) => destruct x
  | |- adds _ (match ?x with Some _ => _ | None => _ end) => destruct x
  | |- adds _ (match ?x with GITHUB => _ | GITLAB => _ end) => destruct x
  end.

Ltac events event := cbv zeta; repeat adds_step event.

Lemma fetch_items_github_adds (P : event -> Prop) (sha_ : string)
    (items : list (string * string)) :
  (forall p, P (Call "repo.get_contents" [p; sha_])) ->
  (forall m, P (Log "warning" m)) ->
  forall cm, adds P (fetch_items_github C sha_ items cm).
Proof.
  intros Hc Hl. induction items as [|[ty p] items IH]; intros cm;
    cbn [fetch_items_github]; [apply adds_ret|].
  destruct (String.eqb ty "dir"); [|apply IH].
  cbv zeta. apply adds_bind; [|intros cm'; apply IH].
  events ltac:(first [apply Hc|apply Hl]).
Qed.

Lemma fetch_items_gitlab_adds (P : event -> Prop) (sha_ : string)
    (items : list (string * string)) :
  (forall p, P (Call "project.files.get" [p; sha_])) ->
  (forall m, P (Log "warning" m)) ->
  forall cm, adds P (fetch_items_gitlab C sha_ items cm).
Proof.
  intros Hc Hl. induction items as [|[ty p] items IH]; intros cm;
    cbn [fetch_items_gitlab]; [apply adds_ret|].
  destruct (String.eqb ty "tree"); [|apply IH].
  cbv zeta. apply adds_bind; [|intros cm'; apply IH].
  events ltac:(first [apply Hc|apply Hl]).
Qed.

Ltac all_events event :=
  cbv zeta;
  repeat first [adds_step event
               |apply fetch_items_github_adds; intros; event
               |apply fetch_items_gitlab_adds; intros; event].

(** X16: a push that is not asked for a pull or merge request looks for
    none and opens none, and reads neither the workspace nor the
    current user, on any path. *)
Theorem push_without_request (objects : list (PushObject R)) (url : GitUrl)
    (options : PushOptions) :
  create_pr options = false ->
  adds (no_call_to request_calls) (push C objects url options).
Proof.
  intros Hpr. unfold push, _detect_provider, _push_github, _push_gitlab.
  rewrite Hpr. events ltac:(idtac; reflexivity).
Qed.
(** X18: a pull and a listing of commits change nothing at the
    provider: on every path no call that writes is made. *)
Theorem pull_and_list_commits_read_only (url : GitUrl)
    (options : option PullOptions) (branch_ : string) (limit : Z) :
  adds (no_call_to write_calls) (pull C url options)
  /\ adds (no_call_to write_calls) (list_commits C url branch_ limit).
Proof.
  split.
  - unfold pull, commit_sha_required, pull_body, _fetch_repository_content,
      _detect_provider, _fetch_repository_content_github,
      _fetch_repository_content_gitlab.
    all_events ltac:(idtac; reflexivity).
  - unfold list_commits, _detect_provider, _list_commits_github,
      _list_commits_gitlab.
    events ltac:(idtac; reflexivity).
Qed.

(** X19: a dry run never reaches the import service, whatever the
    repository holds and whatever fails. *)
Theorem pull_dry_run_never_imports (url : GitUrl) (o : PullOptions) :
  dry_run o = true ->
  adds (no_call_to ["import_workflows_atomic"]) (pull C url (Some o)).
Proof.
  intros Hd.
  unfold pull, commit_sha_required, pull_body, _fetch_repository_content,
    _detect_provider, _fetch_repository_content_github,
    _fetch_repository_content_gitlab.
  rewrite Hd.
  all_events ltac:(idtac; reflexivity).
Qed.

(** X20: the three operations talk to one provider only: for a host
    whose lowercased name contains [github] no GitLab collaborator is
    called, for every other host no GitHub collaborator. *)
Theorem one_provider_per_operation (url : GitUrl)
    (pull_options : option PullOptions) (objects : list (PushObject R))
    (push_options : PushOptions) (branch_ : string) (limit : Z) :
  let other :=
    if contains "github" (lower (host url)) then gitlab_calls else github_calls in
  adds (no_call_to other) (pull C url pull_options)
  /\ adds (no_call_to other) (push C objects url push_options)
  /\ adds (no_call_to other) (list_commits C url branch_ limit).
Proof.
  cbv zeta. repeat split.
  - unfold pull, commit_sha_required, pull_body, _fetch_repository_content,
      _fetch_repository_content_github, _fetch_repository_content_gitlab.
    all_events ltac:(idtac; first [reflexivity
                                  |destruct (contains "github" _); reflexivity]).
  - unfold push, _push_github, _push_gitlab, request_texts.
    events ltac:(idtac; first [reflexivity
                              |destruct (contains "github" _); reflexivity]).
  - unfold list_commits, _list_commits_github, _list_commits_gitlab.
    events ltac:(idtac; first [reflexivity
                              |destruct (contains "github" _); reflexivity]).
Qed.
End Events.

Lemma push_without_request_witness :
  adds (no_call_to request_calls)
    (push Scenario.plain Scenario.one_object Scenario.github_url Scenario.publish).
Proof.
  apply (push_without_request Scenario.plain Scenario.one_object
           Scenario.github_url Scenario.publish).
  reflexivity.
Defined.

Lemma pull_dry_run_never_imports_witness :
  adds (no_call_to ["import_workflows_atomic"])
    (pull Scenario.two_valid_files Scenario.github_url Scenario.dry_run_at_commit).
Proof.
  apply (pull_dry_run_never_imports Scenario.two_valid_files Scenario.github_url
           (mkPullOptions (Some "0123abc") true)).
  reflexivity.
Defined.

(** ** GitLab credentials: writing and reading them *)

Import GitLabAdmin.

Lemma contains_prefix (needle rest : string) :
  contains needle (needle +:+ rest) = true.
Proof.
  assert (H : forall a b, String.prefix a (a +:+ b) = true).
  { induction a as [|c a IH]; intros b; [now destruct b|].
    change (String.prefix (String c a) (String c (a +:+ b)) = true).
    simpl. destruct (ascii_dec c c); [apply IH|contradiction]. }
  destruct (needle +:+ rest) eqn:E; cbn [contains]; rewrite <- E, H; reflexivity.
Qed.

Lemma retrieval_error_text (m : string) :
  contains "Failed to retrieve GitLab credentials"
    ("Failed to retrieve GitLab credentials: " +:+ m) = true.
Proof.
  exact (contains_prefix "Failed to retrieve GitLab credentials" (": " +:+ m)).
Qed.

Section CredentialsAdmin.
Context {W : Type} (svc : SecretsService W) (writer : SecretsWriter W).

Lemma get_gitlab_credentials_raises (st st' : Eff.state W) (e : exn) :
  get_gitlab_credentials svc st = (Raise e, st') ->
  exists e0,
    e = GitLabError ("Failed to retrieve GitLab credentials: " +:+ exn_str e0).
Proof.
  unfold get_gitlab_credentials, try_except.
  destruct (bind _ _ st) as [[c|e0] st0]; [discriminate|].
  cbn. intros [= <- _]. eauto.
Qed.

(** X21: credentials stored under the two keys that
    [register_credentials] and [update_gitlab_credentials] write are
    read back unchanged by [get_gitlab_credentials], after one lookup of
    the secret. *)
Theorem stored_credentials_read_back (c : GitLabCredentials) (secret : Secret)
    (st : Eff.state W) (w1 : W) :
  get_org_secret_by_name svc CREDENTIAL_SECRET_NAME (world st) = (Ok secret, w1) ->
  decrypt_keys svc (encrypted_keys secret)
  = Ok [("access_token", access_token c); ("gitlab_url", gitlab_url c)] ->
  get_gitlab_credentials svc st
  = (Ok c,
     Eff.mkState w1
       (trace st ++ [Call "get_org_secret_by_name" [CREDENTIAL_SECRET_NAME];
                     Log "debug" "Retrieved GitLab credentials from organization secret"])).
Proof.
  destruct st as [w0 t0]. destruct c as [t u]. cbn [world trace access_token gitlab_url].
  intros Hs Hd. unfold get_gitlab_credentials, try_except.
  rewrite (bind_call_Ok _ _ _ _ _ _ _ _ Hs).
  unfold bind, lift. rewrite Hd. cbn [foldl fst snd].
  unfold GitLabService.model_validate.
  rewrite lookup_insert_ne by discriminate. rewrite lookup_insert_eq.
  rewrite lookup_insert_eq. cbn. now rewrite <- app_assoc.
Qed.

(** X22: [save_gitlab_credentials] takes every failure of the retrieval,
    not only a missing secret, for the absence of credentials: it
    registers the given ones, and the outcome of [create_org_secret] is
    its own, an exception of the store reaching the caller as it is. *)
Theorem save_registers_after_failed_retrieval (token url : string)
    (st st2 : Eff.state W) (w1 w3 w4 : W) (e : exn) (r : res unit) :
  require_access_level writer "ADMIN" (world st) = (Ok tt, w1) ->
  get_gitlab_credentials svc
    (Eff.mkState w1 (trace st ++ [Call "require_access_level" ["ADMIN"]]))
  = (Raise e, st2) ->
  require_access_level writer "ADMIN" (world st2) = (Ok tt, w3) ->
  create_org_secret writer
    (mkSecretCreate CREDENTIAL_SECRET_NAME GITLAB_TOKEN
       "GitLab credentials for workflow synchronization"
       [("access_token", token); ("gitlab_url", url)]
       [("purpose", "gitlab-vcs"); ("provider", "gitlab")]) w3
  = (r, w4) ->
  save_gitlab_credentials svc writer token url st
  = match r with
    | Ok _ =>
        (Ok (mkGitLabConfig url true, true),
         Eff.mkState w4
           (trace st2 ++ [Call "require_access_level" ["ADMIN"];
                          Call "create_org_secret" [CREDENTIAL_SECRET_NAME];
                          Log "info" "Registered GitLab credentials as organization secret";
                          Log "info" "Created new GitLab credentials"]))
    | Raise e' =>
        (Raise e',
         Eff.mkState w4
           (trace st2 ++ [Call "require_access_level" ["ADMIN"];
                          Call "create_org_secret" [CREDENTIAL_SECRET_NAME]]))
    end.
Proof.
  destruct st as [w0 t0]. cbn [world trace]. intros Ha Hg Ha' Hc.
  destruct (get_gitlab_credentials_raises _ _ _ Hg) as [e0 ->].
  unfold save_gitlab_credentials, admin_only.
  rewrite (bind_call_Ok _ _ _ _ _ _ _ _ Ha).
  unfold try_except, bind at 1. rewrite Hg.
  cbv beta iota delta [is_GitLabError exn_str]. rewrite retrieval_error_text.
  unfold register_credentials, admin_only. destruct st2 as [w2 t2].
  cbn [world trace] in *. unfold bind at 1.
  rewrite (bind_call_Ok _ _ _ _ _ _ _ _ Ha'). cbv zeta.
  cbn [access_token gitlab_url].
  destruct r as [[]|e'].
  - rewrite (bind_call_Ok _ _ _ _ _ _ _ _ Hc). cbn. now rewrite <- !app_assoc.
  - rewrite (bind_call_Raise _ _ _ _ _ _ _ _ Hc). cbn. now rewrite <- !app_assoc.
Qed.

(** X23: an update that leaves a field unset writes the stored value of
    that field again: the keys given to [update_org_secret] are the new
    values where there are some and the existing ones elsewhere. *)
Theorem update_keeps_unset_fields (token url : option string)
    (st st2 : Eff.state W) (w1 w3 w4 : W) (c : GitLabCredentials)
    (secret : Secret) :
  require_access_level writer "ADMIN" (world st) = (Ok tt, w1) ->
  get_gitlab_credentials svc
    (Eff.mkState w1 (trace st ++ [Call "require_access_level" ["ADMIN"]]))
  = (Ok c, st2) ->
  get_org_secret_by_name svc CREDENTIAL_SECRET_NAME (world st2) = (Ok secret, w3) ->
  update_org_secret writer secret
    [("access_token", default (access_token c) token);
     ("gitlab_url", default (gitlab_url c) url)] w3
  = (Ok tt, w4) ->
  update_gitlab_credentials svc writer token url st
  = (Ok (mkGitLabConfig (default (gitlab_url c) url) true),
     Eff.mkState w4
       (trace st2 ++ [Call "get_org_secret_by_name" [CREDENTIAL_SECRET_NAME];
                      Call "update_org_secret" [CREDENTIAL_SECRET_NAME];
                      Log "info" "Updated GitLab credentials"])).
Proof.
  destruct st as [w0 t0]. cbn [world trace]. intros Ha Hg Hs Hu.
  unfold update_gitlab_credentials, admin_only.
  rewrite (bind_call_Ok _ _ _ _ _ _ _ _ Ha).
  unfold try_except, bind at 1. rewrite Hg. cbv zeta.
  destruct st2 as [w2 t2]. cbn [world trace] in *.
  rewrite (bind_call_Ok _ _ _ _ _ _ _ _ Hs).
  cbn [access_token gitlab_url].
  change (match token with Some t => t | None => access_token c end)
    with (default (access_token c) token).
  change (match url with Some u => u | None => gitlab_url c end)
    with (default (gitlab_url c) url).
  rewrite (bind_call_Ok _ _ _ _ _ _ _ _ Hu). cbn.
  now rewrite <- !app_assoc.
Qed.

(** X24: without credentials that can be read an update raises
    [GitLabError] and stops where the retrieval stopped: the secret is
    not looked up again and nothing is written. *)
Theorem update_without_credentials (token url : option string)
    (st st2 : Eff.state W) (w1 : W) (e : exn) :
  require_access_level writer "ADMIN" (world st) = (Ok tt, w1) ->
  get_gitlab_credentials svc
    (Eff.mkState w1 (trace st ++ [Call "require_access_level" ["ADMIN"]]))
  = (Raise e, st2) ->
  update_gitlab_credentials svc writer token url st
  = (Raise (GitLabError
              "No existing GitLab credentials found. Use register_credentials() first."),
     st2).
Proof.
  destruct st as [w0 t0]. cbn [world trace]. intros Ha Hg.
  destruct (get_gitlab_credentials_raises _ _ _ Hg) as [e0 ->].
  unfold update_gitlab_credentials, admin_only.
  rewrite (bind_call_Ok _ _ _ _ _ _ _ _ Ha).
  unfold try_except, bind at 1. now rewrite Hg.
Qed.

Lemma delete_raises (st st' : Eff.state W) (e : exn) :
  delete_gitlab_credentials svc writer st = (Raise e, st') ->
  (exists w', require_access_level writer "ADMIN" (world st) = (Raise e, w'))
  \/ exists e0,
       e = GitLabError ("Failed to delete GitLab credentials: " +:+ exn_str e0).
Proof.
  unfold delete_gitlab_credentials, admin_only. intros H.
  apply bind_Raise in H. destruct H as [H|(u & st1 & _ & H)].
  - left. apply call_inv in H. destruct H as (w' & H & _). eauto.
  - right. apply try_except_Raise in H.
    destruct H as [[_ H]|(e0 & st2 & k & _ & Hk & H)]; [discriminate|].
    injection Hk as <-. cbn in H. injection H as <- _. eauto.
Qed.


(** X26: the endpoint that deletes the credentials answers a failure of
    the store with status 400, never 500, once the access check has
    passed; the detail carries the prefix twice, the service's and the
    endpoint's. *)
Theorem delete_endpoint_bad_request (st : Eff.state W) (w1 : W) :
  require_access_level writer "ADMIN" (world st) = (Ok tt, w1) ->
  exists st',
    Router.delete_gitlab_credentials svc writer st = (Ok (Router.Returns tt), st')
    \/ exists e0,
         Router.delete_gitlab_credentials svc writer st
         = (Ok (Router.HTTPException 400
                  ("Failed to delete GitLab credentials: "
                   +:+ "Failed to delete GitLab credentials: " +:+ exn_str e0)),
            st').
Proof.
  intros Ha. unfold Router.delete_gitlab_credentials, try_except, bind.
  destruct (delete_gitlab_credentials svc writer st) as [[[]|e] st1] eqn:Hd.
  - eexists. left. reflexivity.
  - destruct (delete_raises _ _ _ Hd) as [[w' Hr]|[e0 ->]].
    + rewrite Ha in Hr. discriminate.
    + eexists. right. exists e0. reflexivity.
Qed.

(** X27: the endpoint of the status never raises anything but its own
    [HTTPException]: it returns [exists = false] when the credentials
    cannot be read, the stored values when the second lookup of the
    secret answers, and status 500 when that lookup raises anything but
    a [GitLabError]. *)
Theorem status_endpoint_outcome (st : Eff.state W) :
  exists o st',
    Router.get_gitlab_credentials_status svc st = (Ok o, st')
    /\ match get_gitlab_credentials svc st with
       | (Raise _, _) => o = Router.Returns (mkStatus false None None)
       | (Ok c, st1) =>
           match get_org_secret_by_name svc CREDENTIAL_SECRET_NAME (world st1) with
           | (Ok secret, _) =>
               o = Router.Returns
                     (mkStatus true (Some (gitlab_url c)) (created_at secret))
           | (Raise e, _) =>
               o = if is_GitLabError e
                   then Router.Returns (mkStatus false None None)
                   else Router.HTTPException 500
                          "Internal server error while getting credentials status"
           end
       end.
Proof.
  unfold Router.get_gitlab_credentials_status, get_gitlab_credentials_status,
    try_except, bind.
  destruct (get_gitlab_credentials svc st) as [[c|e] st1] eqn:Hg.
  - unfold call.
    destruct (get_org_secret_by_name svc CREDENTIAL_SECRET_NAME (world st1))
      as [[secret|e] w2].
    + do 2 eexists. split; reflexivity.
    + destruct (is_GitLabError e); do 2 eexists; split; reflexivity.
  - rewrite (get_gitlab_credentials_error _ _ _ _ Hg).
    do 2 eexists. split; reflexivity.
Qed.
End CredentialsAdmin.

Lemma stored_credentials_read_back_witness :
  get_gitlab_credentials Scenario.filled_store Scenario.start
  = (Ok (mkGitLabCredentials "glpat-token" "https://gitlab.example.com"),
     Eff.mkState tt
       [Call "get_org_secret_by_name" [CREDENTIAL_SECRET_NAME];
        Log "debug" "Retrieved GitLab credentials from organization secret"]).
Proof.
  apply (stored_credentials_read_back Scenario.filled_store
           (mkGitLabCredentials "glpat-token" "https://gitlab.example.com")
           (mkSecret "ciphertext" (Some "2025-01-01T00:00:00"))
           Scenario.start tt);
    reflexivity.
Defined.

Lemma save_registers_after_failed_retrieval_witness :
  save_gitlab_credentials Scenario.empty_store (Scenario.admin_writer (Ok tt))
    "glpat-token" "https://gitlab.example.com" Scenario.start
  = (Ok (mkGitLabConfig "https://gitlab.example.com" true, true),
     Eff.mkState tt
       [Call "require_access_level" ["ADMIN"];
        Call "get_org_secret_by_name" [CREDENTIAL_SECRET_NAME];
        Log "debug" "Failed to retrieve GitLab credentials";
        Call "require_access_level" ["ADMIN"];
        Call "create_org_secret" [CREDENTIAL_SECRET_NAME];
        Log "info" "Registered GitLab credentials as organization secret";
        Log "info" "Created new GitLab credentials"]).
Proof.
  apply (save_registers_after_failed_retrieval Scenario.empty_store
           (Scenario.admin_writer (Ok tt))
           "glpat-token" "https://gitlab.example.com" Scenario.start
           (Eff.mkState tt
              [Call "require_access_level" ["ADMIN"];
               Call "get_org_secret_by_name" [CREDENTIAL_SECRET_NAME];
               Log "debug" "Failed to retrieve GitLab credentials"])
           tt tt tt
           (GitLabError "Failed to retrieve GitLab credentials: Secret not found")
           (Ok tt));
    reflexivity.
Defined.

Lemma update_keeps_unset_fields_witness :
  update_gitlab_credentials Scenario.filled_store (Scenario.admin_writer (Ok tt))
    (Some "glpat-new") None Scenario.start
  = (Ok (mkGitLabConfig "https://gitlab.example.com" true),
     Eff.mkState tt
       [Call "require_access_level" ["ADMIN"];
        Call "get_org_secret_by_name" [CREDENTIAL_SECRET_NAME];
        Log "debug" "Retrieved GitLab credentials from organization secret";
        Call "get_org_secret_by_name" [CREDENTIAL_SECRET_NAME];
        Call "update_org_secret" [CREDENTIAL_SECRET_NAME];
        Log "info" "Updated GitLab credentials"]).
Proof.
  apply (update_keeps_unset_fields Scenario.filled_store
           (Scenario.admin_writer (Ok tt)) (Some "glpat-new") None
           Scenario.start
           (Eff.mkState tt
              [Call "require_access_level" ["ADMIN"];
               Call "get_org_secret_by_name" [CREDENTIAL_SECRET_NAME];
               Log "debug" "Retrieved GitLab credentials from organization secret"])
           tt tt tt
           (mkGitLabCredentials "glpat-token" "https://gitlab.example.com")
           (mkSecret "ciphertext" (Some "2025-01-01T00:00:00")));
    reflexivity.
Defined.

Lemma update_without_credentials_witness :
  update_gitlab_credentials Scenario.empty_store (Scenario.admin_writer (Ok tt))
    (Some "glpat-new") None Scenario.start
  = (Raise (GitLabError
              "No existing GitLab credentials found. Use register_credentials() first."),
     Eff.mkState tt
       [Call "require_access_level" ["ADMIN"];
        Call "get_org_secret_by_name" [CREDENTIAL_SECRET_NAME];
        Log "debug" "Failed to retrieve GitLab credentials"]).
Proof.
  apply (update_without_credentials Scenario.empty_store
           (Scenario.admin_writer (Ok tt)) (Some "glpat-new") None
           Scenario.start
           (Eff.mkState tt
              [Call "require_access_level" ["ADMIN"];
               Call "get_org_secret_by_name" [CREDENTIAL_SECRET_NAME];
               Log "debug" "Failed to retrieve GitLab credentials"])
           tt
           (GitLabError "Failed to retrieve GitLab credentials: Secret not found"));
    reflexivity.
Defined.


Lemma delete_endpoint_bad_request_witness :
  exists st',
    Router.delete_gitlab_credentials Scenario.filled_store
      (Scenario.admin_writer (Raise (OtherError "database is locked")))
      Scenario.start
    = (Ok (Router.Returns tt), st')
    \/ exists e0,
         Router.delete_gitlab_credentials Scenario.filled_store
           (Scenario.admin_writer (Raise (OtherError "database is locked")))
           Scenario.start
         = (Ok (Router.HTTPException 400
                  ("Failed to delete GitLab credentials: "
                   +:+ "Failed to delete GitLab credentials: " +:+ exn_str e0)),
            st').
Proof.
  apply (delete_endpoint_bad_request Scenario.filled_store
           (Scenario.admin_writer (Raise (OtherError "database is locked")))
           Scenario.start tt).
  reflexivity.
Defined.

(** ** The two URL patterns: what they accept *)

Section Soundness.

(** Whatever the matcher finds is a match of the expression: the input
    splits into what the expression took and the rest, on which the
    continuation succeeded. *)
Lemma plus_greedy_sound (r : regex) :
  (forall s e k res, mtch r s e k = Some res ->
     exists a rest g, s = a ++ rest /\ matches r a rest g
                      /\ k rest (g ++ e) = Some res) ->
  forall n s e k res, plus_greedy (mtch r) n s e k = Some res ->
    exists a rest g, s = a ++ rest /\ matches (Plus r) a rest g
                     /\ k rest (g ++ e) = Some res.
Proof.
  intros Hr. induction n as [|n IHn]; intros s e k res H;
    rewrite plus_greedy_unfold in H; apply Hr in H;
    destruct H as (a & rest1 & g1 & -> & M1 & H); cbn [again orelse] in H.
  - exists a, rest1, g1. repeat split; [now constructor|exact H].
  - unfold orelse in H.
    destruct (length rest1 <? length (a ++ rest1))%nat.
    + destruct (plus_greedy (mtch r) n rest1 (g1 ++ e) k) as [x|] eqn:Hp.
      * injection H as ->. apply IHn in Hp.
        destruct Hp as (b & rest & g2 & -> & M2 & Hk).
        exists (a ++ b), rest, (g2 ++ g1). rewrite <- !app_assoc.
        repeat split; [now apply matches_Plus_more|exact Hk].
      * exists a, rest1, g1. repeat split; [now constructor|exact H].
    + exists a, rest1, g1. repeat split; [now constructor|exact H].
Qed.

Lemma plus_lazy_sound (r : regex) :
  (forall s e k res, mtch r s e k = Some res ->
     exists a rest g, s = a ++ rest /\ matches r a rest g
                      /\ k rest (g ++ e) = Some res) ->
  forall n s e k res, plus_lazy (mtch r) n s e k = Some res ->
    exists a rest g, s = a ++ rest /\ matches (PlusLazy r) a rest g
                     /\ k rest (g ++ e) = Some res.
Proof.
  intros Hr. induction n as [|n IHn]; intros s e k res H;
    rewrite plus_lazy_unfold in H; apply Hr in H;
    destruct H as (a & rest1 & g1 & -> & M1 & H); unfold orelse in H;
    destruct (k rest1 (g1 ++ e)) as [x|] eqn:Hk;
    try (injection H as ->; exists a, rest1, g1;
         repeat split; [now constructor|exact Hk]).
  - discriminate H.
  - cbn [again] in H.
    destruct (length rest1 <? length (a ++ rest1))%nat; [|discriminate].
    apply IHn in H. destruct H as (b & rest & g2 & -> & M2 & H).
    exists (a ++ b), rest, (g2 ++ g1). rewrite <- !app_assoc.
    repeat split; [now apply matches_PlusLazy_more|exact H].
Qed.

Lemma mtch_sound (r : regex) :
  forall s e k res, mtch r s e k = Some res ->
    exists a rest g, s = a ++ rest /\ matches r a rest g
                     /\ k rest (g ++ e) = Some res.
Proof.
  induction r as [l|cs| |r1 IH1 r2 IH2|r IH|r IH|r IH|g r IH| ];
    intros s e k res H; cbn [mtch] in H.
  - destruct (strip_prefix (chars l) s) as [s'|] eqn:Hs; [|discriminate].
    apply strip_prefix_inv in Hs. exists (chars l), s', [].
    repeat split; [exact Hs|constructor|exact H].
  - destruct s as [|c s']; [discriminate|].
    destruct (mem c cs) eqn:Hm; [discriminate|].
    exists [c], s', []. repeat split; [now constructor|exact H].
  - destruct s as [|c s']; [discriminate|].
    destruct (is_digit c) eqn:Hm; [|discriminate].
    exists [c], s', []. repeat split; [now constructor|exact H].
  - apply IH1 in H. destruct H as (a & rest1 & g1 & -> & M1 & H).
    apply IH2 in H. destruct H as (b & rest & g2 & -> & M2 & H).
    exists (a ++ b), rest, (g2 ++ g1). rewrite <- !app_assoc.
    repeat split; [now constructor|exact H].
  - unfold orelse in H. destruct (mtch r s e k) as [x|] eqn:Hm.
    + injection H as ->. apply IH in Hm.
      destruct Hm as (a & rest & g & -> & M & Hk).
      exists a, rest, g. repeat split; [now constructor|exact Hk].
    + exists [], s, []. repeat split; [apply matches_Opt_none|exact H].
  - exact (plus_greedy_sound r IH _ _ _ _ _ H).
  - exact (plus_lazy_sound r IH _ _ _ _ _ H).
  - apply IH in H. destruct H as (a & rest & g1 & -> & M & H).
    cbv beta in H. rewrite take_consumed in H.
    exists a, rest, ((g, a) :: g1). repeat split; [now constructor|exact H].
  - destruct s as [|c [|c' s']].
    + exists [], [], []. repeat split; [constructor; now left|exact H].
    + destruct (Ascii.eqb_spec c newline) as [->|]; [|discriminate].
      exists [], [newline], []. repeat split; [constructor; now right|exact H].
    + discriminate.
Qed.

(** Repetitions of one character of a class. *)
Lemma matches_class_Plus (p : regex) (P : ascii -> bool) :
  (forall a rest g, matches p a rest g -> exists c, a = [c] /\ P c = true /\ g = []) ->
  forall r a rest g, matches r a rest g -> r = Plus p \/ r = PlusLazy p ->
    a <> [] /\ forallb P a = true /\ g = [].
Proof.
  intros Hp r a rest g M.
  induction M as [| | | | | |r a rest e M _|r a b rest e1 e2 M1 _ M2 IH2
                 |r a rest e M _|r a b rest e1 e2 M1 _ M2 IH2| |];
    intros [E|E]; try discriminate E; injection E as ->.
  - apply Hp in M. destruct M as (c & -> & Hc & ->). cbn. now rewrite Hc.
  - apply Hp in M1. destruct M1 as (c & -> & Hc & ->).
    destruct (IH2 (or_introl eq_refl)) as (_ & Hb & ->).
    cbn. now rewrite Hc, Hb.
  - apply Hp in M. destruct M as (c & -> & Hc & ->). cbn. now rewrite Hc.
  - apply Hp in M1. destruct M1 as (c & -> & Hc & ->).
    destruct (IH2 (or_intror eq_refl)) as (_ & Hb & ->).
    cbn. now rewrite Hc, Hb.
Qed.

Lemma matches_NotIn_inv (cs : list ascii) (a rest : list ascii) (g : env) :
  matches (NotIn cs) a rest g ->
  exists c, a = [c] /\ negb (mem c cs) = true /\ g = [].
Proof.
  intros M. inversion M as [|cs' c rest' Hm| | | | | | | | | |]; subst.
  exists c. now rewrite Hm.
Qed.

Lemma matches_Digit_inv (a rest : list ascii) (g : env) :
  matches Digit a rest g -> exists c, a = [c] /\ is_digit c = true /\ g = [].
Proof.
  intros M. inversion M as [| |c rest' Hm| | | | | | | | |]; subst. eauto.
Qed.

Lemma matches_segment (a rest : list ascii) (g : env) :
  matches segment_pattern a rest g -> wf_segment a = true /\ g = [].
Proof.
  intros M.
  destruct (matches_class_Plus _ segment_char (matches_NotIn_inv _) _ _ _ _ M
              (or_intror eq_refl)) as (Ha & Hf & ->).
  split; [|reflexivity]. unfold wf_segment. rewrite Hf.
  now destruct a.
Qed.

Lemma matches_host (a rest : list ascii) (g : env) :
  matches host_pattern a rest g ->
  wf_host_name a = true /\ g = [("host", a)].
Proof.
  intros M. inversion M as [| | | | | | | | | |? ? ? ? ? M'|]; subst.
  destruct (matches_class_Plus _ host_char (matches_NotIn_inv _) _ _ _ _ M'
              (or_introl eq_refl)) as (Ha & Hf & ->).
  split; [|reflexivity]. unfold wf_host_name. rewrite Hf.
  now destruct a.
Qed.
Lemma matches_Lit_inv (l : string) (a rest : list ascii) (g : env) :
  matches (Lit l) a rest g -> a = chars l /\ g = [].
Proof. intros M. inversion M; subst. now split. Qed.

Lemma matches_Seq_inv (r1 r2 : regex) (a rest : list ascii) (g : env) :
  matches (Seq r1 r2) a rest g ->
  exists a1 a2 g1 g2,
    a = a1 ++ a2 /\ g = g2 ++ g1
    /\ matches r1 a1 (a2 ++ rest) g1 /\ matches r2 a2 rest g2.
Proof. intros M. inversion M; subst. eauto 10. Qed.

Lemma matches_Opt_inv (r : regex) (a rest : list ascii) (g : env) :
  matches (Opt r) a rest g -> matches r a rest g \/ (a = [] /\ g = []).
Proof. intros M. inversion M; subst; auto. Qed.

Lemma matches_Group_inv (n : string) (r : regex) (a rest : list ascii) (g : env) :
  matches (Group n r) a rest g ->
  exists g', g = (n, a) :: g' /\ matches r a rest g'.
Proof. intros M. inversion M; subst. eauto. Qed.

Lemma matches_Eol_inv (a rest : list ascii) (g : env) :
  matches Eol a rest g -> a = [] /\ g = [] /\ (rest = [] \/ rest = [newline]).
Proof. intros M. inversion M; subst. auto. Qed.

Local Abbreviation more segs := (concat (map (cons "/"%char) segs)).
Local Abbreviation ref_text r :=
  (match r with Some g => "@"%char :: g | None => [] end).
Local Abbreviation ref_group r :=
  (match r with Some g => [("ref", g)] | None => [] end).
Local Abbreviation port_text port :=
  (match port with Some ds => ":"%char :: ds | None => [] end).
Local Abbreviation port_group port :=
  (match port with Some ds => [("port", ds)] | None => [] end).

Lemma matches_port (a rest : list ascii) (g : env) :
  matches port_pattern a rest g ->
  exists port,
    a = port_text port /\ g = port_group port
    /\ match port with Some ds => wf_port ds = true | None => True end.
Proof.
  intros M. apply matches_Opt_inv in M. destruct M as [M|[-> ->]].
  2:{ exists None. auto. }
  apply matches_Seq_inv in M.
  destruct M as (a1 & a2 & g1 & g2 & -> & -> & M1 & M2).
  apply matches_Lit_inv in M1. destruct M1 as [-> ->].
  apply matches_Group_inv in M2. destruct M2 as (g' & -> & M2).
  destruct (matches_class_Plus _ is_digit matches_Digit_inv _ _ _ _ M2
              (or_introl eq_refl)) as (Ha & Hf & ->).
  exists (Some a2). repeat split. unfold wf_port. rewrite Hf. now destruct a2.
Qed.

Lemma matches_reference (a rest : list ascii) (g : env) :
  matches reference_pattern a rest g ->
  exists r,
    a = ref_text r /\ g = ref_group r
    /\ match r with Some x => wf_segment x = true | None => True end.
Proof.
  intros M. apply matches_Opt_inv in M. destruct M as [M|[-> ->]].
  2:{ exists None. auto. }
  apply matches_Seq_inv in M.
  destruct M as (a1 & a2 & g1 & g2 & -> & -> & M1 & M2).
  apply matches_Lit_inv in M1. destruct M1 as [-> ->].
  apply matches_Group_inv in M2. destruct M2 as (g' & -> & M2).
  destruct (matches_class_Plus _ segment_char (matches_NotIn_inv _) _ _ _ _ M2
              (or_introl eq_refl)) as (Ha & Hf & ->).
  exists (Some a2). repeat split. unfold wf_segment. rewrite Hf. now destruct a2.
Qed.

Lemma matches_more_segments (r : regex) (a rest : list ascii) (g : env) :
  matches r a rest g -> r = PlusLazy (Seq (Lit "/") segment_pattern) ->
  exists segs,
    a = more segs /\ segs <> []
    /\ Forall (fun x => wf_segment x = true) segs /\ g = [].
Proof.
  intros M.
  induction M as [| | | | | | | |r a rest e M _|r a b rest e1 e2 M1 _ M2 IH2| |];
    intros E; try discriminate E; injection E as ->.
  - apply matches_Seq_inv in M.
    destruct M as (a1 & a2 & g1 & g2 & -> & -> & M1 & M2).
    apply matches_Lit_inv in M1. destruct M1 as [-> ->].
    apply matches_segment in M2. destruct M2 as [Hw ->].
    exists [a2]. cbn. rewrite app_nil_r. repeat split; [discriminate|].
    now constructor.
  - apply matches_Seq_inv in M1.
    destruct M1 as (a1 & a2 & g1 & g2 & -> & -> & M1 & M1').
    apply matches_Lit_inv in M1. destruct M1 as [-> ->].
    apply matches_segment in M1'. destruct M1' as [Hw ->].
    destruct (IH2 eq_refl) as (segs & -> & _ & Hf & ->).
    exists (a2 :: segs). cbn. rewrite <- ?app_assoc.
    repeat split; [discriminate|]. now constructor.
Qed.

Lemma matches_path (a rest : list ascii) (g : env) :
  matches path_pattern a rest g ->
  exists g0 segs,
    a = g0 ++ more segs /\ wf_segment g0 = true /\ segs <> []
    /\ Forall (fun x => wf_segment x = true) segs /\ g = [].
Proof.
  intros M. apply matches_Seq_inv in M.
  destruct M as (a1 & a2 & g1 & g2 & -> & -> & M1 & M2).
  apply matches_segment in M1. destruct M1 as [Hw ->].
  destruct (matches_more_segments _ _ _ _ M2 eq_refl) as (segs & -> & Hn & Hf & ->).
  exists a1, segs. auto.
Qed.

Lemma matches_suffix (a rest : list ascii) (g : env) :
  matches suffix_pattern a rest g ->
  exists (dot_git : bool) r,
    a = (if dot_git then chars ".git" else []) ++ ref_text r
    /\ g = ref_group r
    /\ match r with Some x => wf_segment x = true | None => True end
    /\ (rest = [] \/ rest = [newline]).
Proof.
  intros M. apply matches_Seq_inv in M.
  destruct M as (a1 & a2 & g1 & g2 & -> & -> & M1 & M2).
  apply matches_Seq_inv in M2.
  destruct M2 as (a3 & a4 & g3 & g4 & -> & -> & M3 & M4).
  apply matches_Eol_inv in M4. destruct M4 as (-> & -> & Hrest).
  apply matches_reference in M3. destruct M3 as (r & -> & -> & Hr).
  rewrite !app_nil_r.
  apply matches_Opt_inv in M1. destruct M1 as [M1|[-> ->]].
  - apply matches_Lit_inv in M1. destruct M1 as [-> ->].
    exists true, r. rewrite app_nil_r. auto.
  - exists false, r. rewrite app_nil_r. auto.
Qed.

Lemma matches_git_url (prefix : string) (a rest : list ascii) (g : env) :
  matches (git_url_regex prefix) a rest g ->
  exists name port g0 segs (dot_git : bool) r,
    a = chars prefix ++ name ++ port_text port
        ++ "/"%char :: (g0 ++ more segs)
        ++ (if dot_git then chars ".git" else []) ++ ref_text r
    /\ g = ref_group r ++ ("path", g0 ++ more segs)
            :: port_group port ++ [("host", name)]
    /\ wf_host_name name = true
    /\ match port with Some ds => wf_port ds = true | None => True end
    /\ wf_segment g0 = true /\ segs <> []
    /\ Forall (fun x => wf_segment x = true) segs
    /\ match r with Some x => wf_segment x = true | None => True end
    /\ (rest = [] \/ rest = [newline]).
Proof.
  intros M. unfold git_url_regex in M.
  apply matches_Seq_inv in M.
  destruct M as (a1 & a2 & g1 & g2 & -> & -> & M1 & M).
  apply matches_Lit_inv in M1. destruct M1 as [-> ->].
  apply matches_Seq_inv in M.
  destruct M as (name & a3 & g3 & g4 & -> & -> & Mh & M).
  apply matches_host in Mh. destruct Mh as [Hname ->].
  apply matches_Seq_inv in M.
  destruct M as (a4 & a5 & g5 & g6 & -> & -> & Mp & M).
  apply matches_port in Mp. destruct Mp as (port & -> & -> & Hport).
  apply matches_Seq_inv in M.
  destruct M as (a6 & a7 & g7 & g8 & -> & -> & Ms & M).
  apply matches_Lit_inv in Ms. destruct Ms as [-> ->].
  apply matches_Seq_inv in M.
  destruct M as (p & a8 & g9 & g10 & -> & -> & Mpath & M).
  apply matches_Group_inv in Mpath. destruct Mpath as (g' & -> & Mpath).
  apply matches_path in Mpath.
  destruct Mpath as (g0 & segs & -> & Hg0 & Hn & Hsegs & ->).
  apply matches_suffix in M. destruct M as (dot_git & r & -> & -> & Hr & Hrest).
  exists name, port, g0, segs, dot_git, r.
  rewrite !app_nil_r. split.
  { cbn [chars String.list_ascii_of_string app].
    now rewrite <- ?app_assoc. }
  split; [now rewrite <- ?app_assoc|]. auto 10.
Qed.

(** X28: a text of ASCII characters that one of the two URL patterns
    matches has the shape the patterns are written for: the scheme
    prefix, a host name without [/] and [:], an optional port of the
    digits [0] to [9], a path of two or more segments without [/] and
    [@], an optional [.git], an optional ref of one segment, and at
    most a final newline; the groups [host], [port], [path] and [ref]
    are exactly these pieces.  Texts with other characters are left
    out: there [\d] takes more than the model's [Digit]. *)
Theorem git_url_regex_sound (prefix url : string) (e : env) :
  ascii_text url = true ->
  re_match (git_url_regex prefix) url = Some e ->
  exists name port g0 segs (dot_git : bool) r (final_newline : bool),
    chars url
    = chars prefix ++ name ++ port_text port
      ++ "/"%char :: (g0 ++ more segs)
      ++ (if dot_git then chars ".git" else []) ++ ref_text r
      ++ (if final_newline then [newline] else [])
    /\ wf_host_name name = true
    /\ match port with Some ds => wf_port ds = true | None => True end
    /\ wf_segment g0 = true /\ segs <> []
    /\ Forall (fun x => wf_segment x = true) segs
    /\ match r with Some x => wf_segment x = true | None => True end
    /\ group "host" e = Some name
    /\ group "port" e = port
    /\ group "path" e = Some (g0 ++ more segs)
    /\ group "ref" e = r.
Proof.
  unfold re_match. intros _ H. apply mtch_sound in H.
  destruct H as (a & rest & g & Hs & M & H).
  rewrite app_nil_r in H. injection H as <-.
  apply matches_git_url in M.
  destruct M as (name & port & g0 & segs & dot_git & r
                 & -> & -> & Hname & Hport & Hg0 & Hn & Hsegs & Hr & Hrest).
  exists name, port, g0, segs, dot_git, r,
    (match rest with [] => false | _ => true end).
  split.
  { rewrite Hs, <- !app_assoc. cbn [app].
    destruct Hrest as [->| ->]; now rewrite <- ?app_assoc. }
  repeat (split; [assumption|]).
  destruct port, r; repeat split; reflexivity.
Qed.

(** X29: no text is matched by both patterns, so the scheme of a URL
    does not depend on the order in which they are tried. *)
Theorem git_url_regexes_disjoint (url : string) :
  re_match GIT_SSH_URL_REGEX url = None
  \/ re_match GIT_HTTPS_URL_REGEX url = None.
Proof.
  unfold re_match, GIT_SSH_URL_REGEX, GIT_HTTPS_URL_REGEX, git_url_regex.
  cbn [mtch]. destruct (chars url) as [|c s]; [now left|].
  destruct (Ascii.eqb_spec "g" c) as [<-|Hne].
  - right. reflexivity.
  - left. cbn [chars String.list_ascii_of_string strip_prefix].
    destruct (Ascii.eqb_spec "g" c); [contradiction|reflexivity].
Qed.
End Soundness.

Lemma git_url_regex_sound_witness :
  exists name port g0 segs (dot_git : bool) r (final_newline : bool),
    chars "https://gitlab.example.com:8443/group/sub/repo.git@main"
    = chars "https://" ++ name
      ++ match port with Some ds => ":"%char :: ds | None => [] end
      ++ "/"%char :: (g0 ++ concat (map (cons "/"%char) segs))
      ++ (if dot_git then chars ".git" else [])
      ++ match r with Some g => "@"%char :: g | None => [] end
      ++ (if final_newline then [newline] else [])
    /\ wf_host_name name = true
    /\ match port with Some ds => wf_port ds = true | None => True end
    /\ wf_segment g0 = true /\ segs <> []
    /\ Forall (fun x => wf_segment x = true) segs
    /\ match r with Some x => wf_segment x = true | None => True end
    /\ group "host"
         [("ref", chars "main"); ("path", chars "group/sub/repo");
          ("port", chars "8443"); ("host", chars "gitlab.example.com")]
       = Some name
    /\ group "port"
         [("ref", chars "main"); ("path", chars "group/sub/repo");
          ("port", chars "8443"); ("host", chars "gitlab.example.com")]
       = port
    /\ group "path"
         [("ref", chars "main"); ("path", chars "group/sub/repo");
          ("port", chars "8443"); ("host", chars "gitlab.example.com")]
       = Some (g0 ++ concat (map (cons "/"%char) segs))
    /\ group "ref"
         [("ref", chars "main"); ("path", chars "group/sub/repo");
          ("port", chars "8443"); ("host", chars "gitlab.example.com")]
       = r.
Proof.
  apply (git_url_regex_sound "https://"
           "https://gitlab.example.com:8443/group/sub/repo.git@main"
           [("ref", chars "main"); ("path", chars "group/sub/repo");
            ("port", chars "8443"); ("host", chars "gitlab.example.com")]);
    vm_compute; reflexivity.
Defined.

(** ** GitLab credentials: saving over existing ones *)

Section SaveExisting.
Context {W : Type} (svc : SecretsService W) (writer : SecretsWriter W).

(** X30: when the credentials can be read, [save_gitlab_credentials]
    hands both new values to [update_gitlab_credentials] and passes on
    what that gives: its configuration with [was_created = false], or
    its exception, unless that is a [GitLabError] about a failed
    retrieval. *)
Theorem save_updates_existing (token url : string) (st st2 st3 : Eff.state W)
    (w1 : W) (c : GitLabCredentials) (r : res GitLabConfig) :
  require_access_level writer "ADMIN" (world st) = (Ok tt, w1) ->
  get_gitlab_credentials svc
    (Eff.mkState w1 (trace st ++ [Call "require_access_level" ["ADMIN"]]))
  = (Ok c, st2) ->
  update_gitlab_credentials svc writer (Some token) (Some url) st2 = (r, st3) ->
  match r with
  | Ok config =>
      save_gitlab_credentials svc writer token url st
      = (Ok (config, false),
         Eff.mkState (world st3)
           (trace st3 ++ [Log "info" "Updated existing GitLab credentials"]))
  | Raise e =>
      is_GitLabError e
      && contains "Failed to retrieve GitLab credentials" (exn_str e) = false ->
      save_gitlab_credentials svc writer token url st = (Raise e, st3)
  end.
Proof.
  destruct st as [w0 t0]. cbn [world trace]. intros Ha Hg Hu.
  unfold save_gitlab_credentials, admin_only.
  rewrite (bind_call_Ok _ _ _ _ _ _ _ _ Ha).
  unfold try_except, bind. rewrite Hg, Hu.
  destruct r as [config|e]; [reflexivity|].
  intros He. destruct (is_GitLabError e); [|reflexivity].
  cbn [andb] in He. now rewrite He.
Qed.
End SaveExisting.

Lemma save_updates_existing_witness :
  save_gitlab_credentials Scenario.filled_store (Scenario.admin_writer (Ok tt))
    "glpat-new" "https://gitlab.com" Scenario.start
  = (Ok (mkGitLabConfig "https://gitlab.com" true, false),
     Eff.mkState tt
       [Call "require_access_level" ["ADMIN"];
        Call "get_org_secret_by_name" [CREDENTIAL_SECRET_NAME];
        Log "debug" "Retrieved GitLab credentials from organization secret";
        Call "require_access_level" ["ADMIN"];
        Call "get_org_secret_by_name" [CREDENTIAL_SECRET_NAME];
        Log "debug" "Retrieved GitLab credentials from organization secret";
        Call "get_org_secret_by_name" [CREDENTIAL_SECRET_NAME];
        Call "update_org_secret" [CREDENTIAL_SECRET_NAME];
        Log "info" "Updated GitLab credentials";
        Log "info" "Updated existing GitLab credentials"]).
Proof.
  apply (save_updates_existing Scenario.filled_store
           (Scenario.admin_writer (Ok tt)) "glpat-new" "https://gitlab.com"
           Scenario.start
           (Eff.mkState tt
              [Call "require_access_level" ["ADMIN"];
               Call "get_org_secret_by_name" [CREDENTIAL_SECRET_NAME];
               Log "debug" "Retrieved GitLab credentials from organization secret"])
           (Eff.mkState tt
              [Call "require_access_level" ["ADMIN"];
               Call "get_org_secret_by_name" [CREDENTIAL_SECRET_NAME];
               Log "debug" "Retrieved GitLab credentials from organization secret";
               Call "require_access_level" ["ADMIN"];
               Call "get_org_secret_by_name" [CREDENTIAL_SECRET_NAME];
               Log "debug" "Retrieved GitLab credentials from organization secret";
               Call "get_org_secret_by_name" [CREDENTIAL_SECRET_NAME];
               Call "update_org_secret" [CREDENTIAL_SECRET_NAME];
               Log "info" "Updated GitLab credentials"])
           tt
           (mkGitLabCredentials "glpat-token" "https://gitlab.example.com")
           (Ok (mkGitLabConfig "https://gitlab.com" true)));
    reflexivity.
Defined.

(** ** push: where it writes *)

Section Records.
Context {W : Type} (P : event -> Prop).

Lemma records_ret {A} (a : A) : records (W := W) P (ret a).
Proof. intros st. exists []. now rewrite app_nil_r. Qed.

Lemma records_raise {A} (e : exn) : records (W := W) (A := A) P (raise e).
Proof. intros st. exists []. now rewrite app_nil_r. Qed.

Lemma records_lift {A} (r : res A) : records (W := W) P (lift r).
Proof. intros st. exists []. now rewrite app_nil_r. Qed.

Lemma records_emit (ev : event) : records (W := W) P (emit ev).
Proof. intros st. exists []. now rewrite app_nil_r. Qed.

(** A call to a recording collaborator adds the call as the
    collaborator received it, whatever the trace says. *)
Lemma records_call {A} (name : string) (args : list string)
    (n : string) (a : list string) (f : W -> res A * W) :
  P (Call n a) -> records P (call name args (record_call n a f)).
Proof.
  intros H st. exists [Call n a]. unfold call, record_call.
  destruct (f (fst (world st))) as [r w']. split; [reflexivity|].
  now constructor.
Qed.

Lemma records_close : records (W := W) P gh_close.
Proof. intros st. exists []. now rewrite app_nil_r. Qed.

Lemma records_bind {A B} (m : Eff.M (W * list event) A)
    (f : A -> Eff.M (W * list event) B) :
  records P m -> (forall a, records P (f a)) -> records P (bind m f).
Proof.
  intros Hm Hf st. unfold bind. destruct (Hm st) as (t1 & E1 & F1).
  destruct (m st) as [[a|e] st1]; cbn [snd] in E1; [|eauto].
  destruct (Hf a st1) as (t2 & E2 & F2). exists (t1 ++ t2).
  rewrite E2, E1, app_assoc. split; [reflexivity|]. now apply Forall_app.
Qed.

Lemma records_try_except {A} (m : Eff.M (W * list event) A)
    (h : exn -> option (Eff.M (W * list event) A)) :
  records P m -> (forall e k, h e = Some k -> records P k) ->
  records P (try_except m h).
Proof.
  intros Hm Hh st. unfold try_except. destruct (Hm st) as (t1 & E1 & F1).
  destruct (m st) as [[a|e] st1]; cbn [snd] in E1; [eauto|].
  destruct (h e) as [k|] eqn:Hk; [|eauto].
  destruct (Hh e k Hk st1) as (t2 & E2 & F2). exists (t1 ++ t2).
  rewrite E2, E1, app_assoc. split; [reflexivity|]. now apply Forall_app.
Qed.

Lemma records_try_finally {A} (m : Eff.M (W * list event) A)
    (f : Eff.M (W * list event) unit) :
  records P m -> records P f -> records P (try_finally m f).
Proof.
  intros Hm Hf st. unfold try_finally. destruct (Hm st) as (t1 & E1 & F1).
  destruct (m st) as [r st1]; cbn [snd] in *.
  destruct (Hf st1) as (t2 & E2 & F2). exists (t1 ++ t2).
  rewrite E2, E1, app_assoc. split; [reflexivity|]. now apply Forall_app.
Qed.
End Records.

Section SameRun.
Context {W : Type}.

Lemma same_ret {A} (a : A) : same_run (W := W) (ret a) (ret a).
Proof. intros w log t. now exists log. Qed.

Lemma same_raise {A} (e : exn) : same_run (W := W) (A := A) (raise e) (raise e).
Proof. intros w log t. now exists log. Qed.

Lemma same_lift {A} (r : res A) : same_run (W := W) (lift r) (lift r).
Proof. intros w log t. now exists log. Qed.

Lemma same_emit (ev : event) : same_run (W := W) (emit ev) (emit ev).
Proof. intros w log t. now exists log. Qed.

Lemma same_close : same_run (W := W) gh_close gh_close.
Proof. intros w log t. now exists log. Qed.

Lemma same_call {A} (name : string) (args : list string)
    (n : string) (a : list string) (f : W -> res A * W) :
  same_run (call name args f) (call name args (record_call n a f)).
Proof.
  intros w log t. unfold call, record_call. cbn [world trace fst snd].
  destruct (f w) as [r w']. eexists. reflexivity.
Qed.

Lemma same_bind {A B} (m : Eff.M W A) (m' : Eff.M (W * list event) A)
    (f : A -> Eff.M W B) (f' : A -> Eff.M (W * list event) B) :
  same_run m m' -> (forall a, same_run (f a) (f' a)) ->
  same_run (bind m f) (bind m' f').
Proof.
  intros Hm Hf w log t. unfold bind. specialize (Hm w log t).
  destruct (m (Eff.mkState w t)) as [[a|e] [w1 t1]]; destruct Hm as [log1 ->];
    cbn [world trace]; [|eauto].
  exact (Hf a w1 log1 t1).
Qed.

Lemma same_try_except {A} (m : Eff.M W A) (m' : Eff.M (W * list event) A)
    (h : exn -> option (Eff.M W A))
    (h' : exn -> option (Eff.M (W * list event) A)) :
  same_run m m' ->
  (forall e, match h e, h' e with
             | Some k, Some k' => same_run k k'
             | None, None => True
             | _, _ => False
             end) ->
  same_run (try_except m h) (try_except m' h').
Proof.
  intros Hm Hh w log t. unfold try_except. specialize (Hm w log t).
  destruct (m (Eff.mkState w t)) as [[a|e] [w1 t1]]; destruct Hm as [log1 ->];
    cbn [world trace]; [eauto|].
  specialize (Hh e). destruct (h e) as [k|], (h' e) as [k'|]; try contradiction.
  - exact (Hh w1 log1 t1).
  - eauto.
Qed.

Lemma same_try_finally {A} (m : Eff.M W A) (m' : Eff.M (W * list event) A)
    (f : Eff.M W unit) (f' : Eff.M (W * list event) unit) :
  same_run m m' -> same_run f f' ->
  same_run (try_finally m f) (try_finally m' f').
Proof.
  intros Hm Hf w log t. unfold try_finally. specialize (Hm w log t).
  destruct (m (Eff.mkState w t)) as [r [w1 t1]]. destruct Hm as [log1 ->].
  cbn [world trace]. specialize (Hf w1 log1 t1).
  destruct (f (Eff.mkState w1 t1)) as [r2 [w2 t2]]. destruct Hf as [log2 ->].
  cbn [snd world trace]. eauto.
Qed.
End SameRun.

Section PushWrites.
Context {W R : Type} (C : Collaborators W R).

Ltac same_step :=
  lazymatch goal with
  | |- same_run (bind _ _) (bind _ _) => apply same_bind; [|intros ?]
  | |- same_run (try_except _ _) (try_except _ _) =>
      apply same_try_except;
      [|let e := fresh "e" in
        intros e; destruct e;
        cbv beta iota delta
          [is_GithubException is_GitlabError is_ValueError is_GitHubAppError
           is_GitLabError];
        try exact I]
  | |- same_run (try_finally _ _) (try_finally _ _) => apply same_try_finally
  | |- same_run (ret _) (ret _) => apply same_ret
  | |- same_run (raise _) (raise _) => apply same_raise
  | |- same_run (lift _) (lift _) => apply same_lift
  | |- same_run (emit _) (emit _) => apply same_emit
  | |- same_run gh_close gh_close => apply same_close
  | |- same_run (call _ _ _) (call _ _ _) => apply same_call
  | |- same_run (if ?b then _ else _) _ => destruct b
  | |- same_run
         (match ?x with ContentFile _ _ _ => _ | ContentList _ => _ end) _ =>
      destruct x
  | |- same_run (match ?x with [] => _ | _ :: _ => _ end) _ => destruct x
  | |- same_run (match ?x with Some _ => _ | None => _ end) _ => destruct x
  end.

Ltac taken Hk :=
  cbv beta iota delta
    [is_GithubException is_GitlabError is_ValueError is_GitHubAppError
     is_GitLabError] in Hk;
  try discriminate Hk; injection Hk as <-.

Ltac records_step call_ :=
  lazymatch goal with
  | |- records _ (bind _ _) => apply records_bind; [|intros ?]
  | |- records _ (try_except _ _) =>
      apply records_try_except;
      [|let e := fresh "e" in
        let k := fresh "k" in
        let Hk := fresh "Hk" in
        intros e k Hk; destruct e; taken Hk]
  | |- records _ (try_finally _ _) => apply records_try_finally
  | |- records _ (ret _) => apply records_ret
  | |- records _ (raise _) => apply records_raise
  | |- records _ (lift _) => apply records_lift
  | |- records _ (emit _) => apply records_emit
  | |- records _ gh_close => apply records_close
  | |- records _ (call _ _ _) => apply records_call; call_
  | |- records _ (if ?b then _ else _) => destruct b
  | |- records _ (match ?x with ContentFile _ _ _ => _ | ContentList _ => _ end) =>
      destruct x
  | |- records _ (match ?x with [] => _ | _ :: _ => _ end) => destruct x
  | |- records _ (match ?x with Some _ => _ | None => _ end) => destruct x
  end.

End PushWrites.
